(** * Icon normalisation and classification (design-system-icons/src/svgr-processor.ts)

    A shallow embedding of [getComponentName], [strokeToOutline],
    [isHelperElement], [isMainIconElement] and [processSvgToReact], followed by
    the properties of the flatness classification, of helper filtering, of
    stroke outlining, of paint normalisation and of the two renderings.

    Then the code around it: [flattenSvgPaths], the selection of icon nodes
    and the analysis of each ([getIconNodes], [processSelection]), the
    grouping of the icons into payloads with the base64 fallback and the
    counters of the sending loop ([processIconsInChunks]),
    [ReactIconRenderer], and the alias field of the panel.

    Modelling conventions.
    - A JavaScript string is a [string] of bytes.  The primitives [toLowerCase],
      [toUpperCase] and [trim] act on the ASCII range, which is the range of the
      tags, attribute names and keywords the program compares against.
    - A DOM element is a tag name, an ordered attribute list and the list of
      its element children.  The document parser ([DOMParser] followed by
      [querySelector('svg')]) is a built-in of the host: it is a parameter,
      absent in hosts that do not provide it.
    - A JavaScript number is a binary64 [float].  [parseFloat], number
      formatting and the trigonometric functions are built-ins of the host and
      are taken as parameters.
    - An abrupt completion (a thrown exception) is a value of [Completion].
    - A scene node is the part of it that the code reads: type, name, size,
      strokes and children, the last two absent where the node type has none.
    - The answer of the network to a request is a parameter.
    - Console output is not part of the result and is not modelled. *)

From Stdlib Require Import Strings.String Strings.Ascii List Bool Arith Lia.
From Stdlib Require Import ZArith NArith DecimalString Floats.
Import ListNotations.

Open Scope list_scope.
Open Scope string_scope.

(** ** JavaScript string primitives *)

Module JsStr.

(** The double quote and the line feed, as one-character strings. *)
Definition dq : string := String (ascii_of_nat 34) EmptyString.
Definition nl : string := String (ascii_of_nat 10) EmptyString.
Definition quote_char : ascii := ascii_of_nat 34.
Definition apostrophe_char : ascii := ascii_of_nat 39.

(** The text of an attribute, name, equals sign and value between double
    quotes; [att1] is the same between apostrophes. *)
Definition att (name value : string) : string := name ++ "=" ++ dq ++ value ++ dq.
Definition att1 (name value : string) : string := name ++ "='" ++ value ++ "'".

(** [p] is the beginning of [s]. *)
Fixpoint has_prefix (p s : string) : bool :=
  match p with
  | EmptyString => true
  | String a p' =>
      match s with
      | EmptyString => false
      | String b s' => Ascii.eqb a b && has_prefix p' s'
      end
  end.

(** [s.startsWith(p)] *)
Definition startsWith (s p : string) : bool := has_prefix p s.

(** [s.includes(sub)] *)
Fixpoint includes (s sub : string) : bool :=
  if has_prefix sub s then true
  else match s with
       | EmptyString => false
       | String _ s' => includes s' sub
       end.

Definition lower_char (c : ascii) : ascii :=
  let n := nat_of_ascii c in
  if ((65 <=? n) && (n <=? 90))%nat then ascii_of_nat (n + 32) else c.

Definition upper_char (c : ascii) : ascii :=
  let n := nat_of_ascii c in
  if ((97 <=? n) && (n <=? 122))%nat then ascii_of_nat (n - 32) else c.

Fixpoint map_chars (f : ascii -> ascii) (s : string) : string :=
  match s with
  | EmptyString => EmptyString
  | String c s' => String (f c) (map_chars f s')
  end.

(** [s.toLowerCase()] and [s.toUpperCase()] *)
Definition toLowerCase (s : string) : string := map_chars lower_char s.
Definition toUpperCase (s : string) : string := map_chars upper_char s.

(** [s.charAt(0)]: the first character as a string, the empty string when
    there is none. *)
Definition charAt0 (s : string) : string :=
  match s with
  | EmptyString => EmptyString
  | String c _ => String c EmptyString
  end.

(** [s.slice(1)] *)
Definition slice1 (s : string) : string :=
  match s with
  | EmptyString => EmptyString
  | String _ s' => s'
  end.

(** [s.split(c)] for a one-character separator: never empty, one more piece
    than there are separators. *)
Fixpoint split (sep : ascii) (s : string) : list string :=
  match s with
  | EmptyString => [EmptyString]
  | String c s' =>
      if Ascii.eqb c sep then EmptyString :: split sep s'
      else match split sep s' with
           | [] => [String c EmptyString]
           | p :: ps => String c p :: ps
           end
  end.

(** [parts.join(sep)] *)
Fixpoint join (sep : string) (parts : list string) : string :=
  match parts with
  | [] => EmptyString
  | [p] => p
  | p :: ps => p ++ sep ++ join sep ps
  end.

Definition is_space (c : ascii) : bool :=
  let n := nat_of_ascii c in
  ((n =? 32) || ((9 <=? n) && (n <=? 13)))%nat.

Fixpoint trimStart (s : string) : string :=
  match s with
  | EmptyString => EmptyString
  | String c s' => if is_space c then trimStart s' else s
  end.

Fixpoint rev_string (acc s : string) : string :=
  match s with
  | EmptyString => acc
  | String c s' => rev_string (String c acc) s'
  end.

(** [s.trim()] *)
Definition trim (s : string) : string :=
  rev_string EmptyString (trimStart (rev_string EmptyString (trimStart s))).

(** A string is truthy when it is not empty. *)
Definition truthy (s : string) : bool :=
  match s with
  | EmptyString => false
  | String _ _ => true
  end.

(** [o || d] for a nullable string [o]. *)
Definition or_default (o : option string) (d : string) : string :=
  match o with
  | Some s => if truthy s then s else d
  | None => d
  end.

End JsStr.

(** ** Regular expressions

    The fragment of the regular-expression language the program uses, with the
    leftmost, greedy, backtracking semantics of the JavaScript matcher. *)

Module Regex.

Inductive regex : Type :=
| Lit (s : string)               (* literal text *)
| StarNot (c : ascii)            (* [^c]* *)
| PlusNot (c : ascii)            (* [^c]+ *)
| Seq (a b : regex)              (* ab *)
| Alt (a b : regex)              (* a|b, also inside (?:...) *)
| Group (a : regex)              (* (a), capturing *)
| NegLook (a : regex).           (* (?!a) *)

(** What is left of [s] once the prefix [p] is removed. *)
Fixpoint strip_prefix (p s : string) : option string :=
  match p with
  | EmptyString => Some s
  | String a p' =>
      match s with
      | EmptyString => None
      | String b s' => if Ascii.eqb a b then strip_prefix p' s' else None
      end
  end.

(** The part of [s] consumed when [rest] is what is left of it. *)
Definition consumed (s rest : string) : string :=
  String.substring 0 (String.length s - String.length rest) s.

Section Matcher.
Context {A : Type}.

(** [[^c]*] followed by the continuation [k]: the longest run first, then
    shorter ones. *)
Fixpoint star_not (c : ascii) (s : string) (k : string -> option A) : option A :=
  match s with
  | EmptyString => k s
  | String x s' =>
      if Ascii.eqb x c then k s
      else match star_not c s' k with
           | Some r => Some r
           | None => k s
           end
  end.

End Matcher.

(** [rmatch r s caps k]: match [r] at the start of [s], then continue with
    [k] on what is left and on the captures made so far. *)
Fixpoint rmatch (r : regex) (A : Type) (s : string) (caps : list string)
    (k : string -> list string -> option A) {struct r} : option A :=
  match r with
  | Lit l =>
      match strip_prefix l s with
      | Some s' => k s' caps
      | None => None
      end
  | StarNot c => star_not c s (fun s' => k s' caps)
  | PlusNot c =>
      match s with
      | EmptyString => None
      | String x s' =>
          if Ascii.eqb x c then None else star_not c s' (fun s'' => k s'' caps)
      end
  | Seq a b => rmatch a A s caps (fun s' caps' => rmatch b A s' caps' k)
  | Alt a b =>
      match rmatch a A s caps k with
      | Some x => Some x
      | None => rmatch b A s caps k
      end
  | Group a =>
      rmatch a A s caps (fun s' caps' => k s' (caps' ++ [consumed s s'])%list)
  | NegLook a =>
      match rmatch a unit s caps (fun _ _ => Some tt) with
      | Some _ => None
      | None => k s caps
      end
  end.

(** A match of [r] anchored at the start of [s]: the matched text, the
    captures and what is left. *)
Definition exec_here (r : regex) (s : string)
  : option (string * list string * string) :=
  rmatch r _ s [] (fun s' caps => Some (consumed s s', caps, s')).

(** [s.match(r)] without the global flag: the leftmost match and its
    captures, or null. *)
Fixpoint match_first (r : regex) (s : string) : option (string * list string) :=
  match exec_here r s with
  | Some (m, caps, _) => Some (m, caps)
  | None =>
      match s with
      | EmptyString => None
      | String _ s' => match_first r s'
      end
  end.

(** [s.match(r)] with the global flag: every match, left to right, the search
    resuming where the previous match ended.  [skip] counts the characters of
    the current match still to step over. *)
Fixpoint match_all_from (r : regex) (skip : nat) (s : string) : list string :=
  match skip with
  | S n =>
      match s with
      | EmptyString => []
      | String _ s' => match_all_from r n s'
      end
  | O =>
      match exec_here r s with
      | Some (m, _, _) =>
          m :: match s with
               | EmptyString => []
               | String _ s' => match_all_from r (String.length m - 1) s'
               end
      | None =>
          match s with
          | EmptyString => []
          | String _ s' => match_all_from r 0 s'
          end
      end
  end.

Definition match_all (r : regex) (s : string) : list string :=
  match_all_from r 0 s.

(** [s.replace(r, f)] with the global flag, [f] building the replacement from
    the captures. *)
Fixpoint replace_all_from (r : regex) (f : list string -> string) (skip : nat)
    (s : string) : string :=
  match skip with
  | S n =>
      match s with
      | EmptyString => EmptyString
      | String _ s' => replace_all_from r f n s'
      end
  | O =>
      match exec_here r s with
      | Some (m, caps, _) =>
          f caps ++ match s with
                    | EmptyString => EmptyString
                    | String c s' =>
                        match String.length m with
                        | O => String c (replace_all_from r f 0 s')
                        | S n => replace_all_from r f n s'
                        end
                    end
      | None =>
          match s with
          | EmptyString => EmptyString
          | String c s' => String c (replace_all_from r f 0 s')
          end
      end
  end.

Definition replace_all (r : regex) (f : list string -> string) (s : string)
  : string :=
  replace_all_from r f 0 s.

End Regex.

(** ** DOM elements *)

Module Dom.

#[local] Set Warnings "-register-all".

(** An element: [tagName], [attributes] in document order, element
    [children]. *)
Inductive Element : Type :=
| mkElement (tag : string) (attrs : list (string * string)) (kids : list Element).

Definition tagName (e : Element) : string :=
  match e with mkElement t _ _ => t end.

Definition attributes (e : Element) : list (string * string) :=
  match e with mkElement _ a _ => a end.

Definition children (e : Element) : list Element :=
  match e with mkElement _ _ k => k end.

(** [element.getAttribute(name)]: the value of the first attribute of that
    name, or null. *)
Fixpoint lookup (name : string) (attrs : list (string * string)) : option string :=
  match attrs with
  | [] => None
  | (n, v) :: rest => if String.eqb n name then Some v else lookup name rest
  end.

Definition getAttribute (e : Element) (name : string) : option string :=
  lookup name (attributes e).

(** [element.hasAttribute(name)] *)
Definition hasAttribute (e : Element) (name : string) : bool :=
  match getAttribute e name with
  | Some _ => true
  | None => false
  end.

(** [value === lit] for a nullable string [value]. *)
Definition is_str (value : option string) (lit : string) : bool :=
  match value with
  | Some v => String.eqb v lit
  | None => false
  end.

(** [tags.includes(t)] for an array of strings. *)
Definition array_includes (tags : list string) (t : string) : bool :=
  existsb (String.eqb t) tags.

End Dom.

(** ** Numbers *)

Module JsNum.

(** The numeric built-ins of the host. *)
Record Numerics : Type := mkNumerics {
  parseFloat : string -> float;
  toStr : float -> string;          (* Number to String, as in a template *)
  Math_atan2 : float -> float -> float;
  Math_cos : float -> float;
  Math_sin : float -> float
}.

(** [Math.max(a, b)]: NaN when either argument is NaN, and +0 above -0. *)
Definition Math_max (a b : float) : float :=
  match PrimFloat.compare a b with
  | FLt => b
  | FGt => a
  | FEq => match classify a with NZero => b | _ => a end
  | FNotComparable => if is_nan a then a else b
  end.

(** *** A host for running examples

    [parse_short] reads an optional sign, digits and an optional fraction;
    [show_exact] prints the exact decimal expansion of a finite number.  They
    agree with the built-ins on the short decimals of the examples below. *)

Definition digit_of (c : ascii) : option Z :=
  let n := nat_of_ascii c in
  if ((48 <=? n) && (n <=? 57))%nat then Some (Z.of_nat (n - 48)) else None.

(** The digits at the start of [s]: their value, how many, and what follows. *)
Fixpoint read_digits (s : string) (acc : Z) (count : nat) : Z * nat * string :=
  match s with
  | EmptyString => (acc, count, s)
  | String c s' =>
      match digit_of c with
      | Some d => read_digits s' (10 * acc + d)%Z (S count)
      | None => (acc, count, s)
      end
  end.

Definition float_of_Z (z : Z) : float :=
  match z with
  | Z0 => 0%float
  | Zpos p => SF2Prim (S754_finite false p 0)
  | Zneg p => SF2Prim (S754_finite true p 0)
  end.

Definition parse_unsigned (s : string) : float :=
  let '(ip, ni, rest) := read_digits s 0%Z 0 in
  match rest with
  | String "." frac =>
      let '(fp, nf, _) := read_digits frac 0%Z 0 in
      if ((ni =? 0) && (nf =? 0))%nat then nan
      else (float_of_Z (ip * 10 ^ Z.of_nat nf + fp) / float_of_Z (10 ^ Z.of_nat nf))%float
  | _ => if (ni =? 0)%nat then nan else float_of_Z ip
  end.

Definition parse_short (s : string) : float :=
  match JsStr.trimStart s with
  | String "-" s' => (- parse_unsigned s')%float
  | String "+" s' => parse_unsigned s'
  | s' => parse_unsigned s'
  end.

Definition show_N (n : N) : string := NilZero.string_of_uint (N.to_uint n).

(** The decimal digits of [r / 2^k], for [r < 2^k]. *)
Fixpoint show_fraction (k : nat) (r : Z) : string :=
  match k with
  | O => EmptyString
  | S k' =>
      if (r =? 0)%Z then EmptyString
      else
        let den := (2 ^ Z.of_nat k)%Z in
        let d := (10 * r / den)%Z in
        show_N (Z.to_N d) ++ show_fraction k' ((10 * r - d * den) / 2)%Z
  end.

Definition show_magnitude (m : positive) (e : Z) : string :=
  if (0 <=? e)%Z then show_N (Z.to_N (Zpos m * 2 ^ e))
  else
    let den := (2 ^ (- e))%Z in
    let ip := (Zpos m / den)%Z in
    let r := (Zpos m mod den)%Z in
    if (r =? 0)%Z then show_N (Z.to_N ip)
    else show_N (Z.to_N ip) ++ "." ++ show_fraction (Z.to_nat (- e)) r.

Definition show_exact (x : float) : string :=
  match Prim2SF x with
  | S754_zero _ => "0"
  | S754_infinity false => "Infinity"
  | S754_infinity true => "-Infinity"
  | S754_nan => "NaN"
  | S754_finite s m e => (if s then "-" else EmptyString) ++ show_magnitude m e
  end.

(** The example host has no trigonometry: it answers NaN. *)
Definition example_host : Numerics :=
  mkNumerics parse_short show_exact (fun _ _ => nan) (fun _ => nan) (fun _ => nan).

End JsNum.

(** ** Values and completions *)

Module Js.

(** The values a caller can pass where the signature says [string]: types
    are erased at run time. *)
Inductive JsValue : Type :=
| JsString (s : string)
| JsUndefined
| JsNull.

(** [String(v)], the conversion a built-in applies to a string argument. *)
Definition ToString (v : JsValue) : string :=
  match v with
  | JsString s => s
  | JsUndefined => "undefined"
  | JsNull => "null"
  end.

Inductive JsError : Type :=
| TypeError                      (* a method called on a value that lacks it *)
| Error (message : string).      (* [new Error(message)] *)

Inductive Completion (A : Type) : Type :=
| Normal (a : A)
| Throw (e : JsError).

Arguments Normal {A} a.
Arguments Throw {A} e.

Definition bind {A B : Type} (c : Completion A) (f : A -> Completion B)
  : Completion B :=
  match c with
  | Normal a => f a
  | Throw e => Throw e
  end.

(** [try { c } catch (e) { handler e }] *)
Definition try_catch {A : Type} (c : Completion A) (handler : JsError -> Completion A)
  : Completion A :=
  match c with
  | Normal a => Normal a
  | Throw e => handler e
  end.

(** A string method called on [v]: a [TypeError] unless [v] is a string. *)
Definition as_string (v : JsValue) : Completion string :=
  match v with
  | JsString s => Normal s
  | _ => Throw TypeError
  end.

End Js.

(** ** The icon processor *)

Module Svgr.

Import JsStr Dom JsNum Js Regex.

(** *** [getComponentName] *)

Definition capitalize (part : string) : string :=
  toUpperCase (charAt0 part) ++ slice1 part.

Definition getComponentName (filename : string) : string :=
  join EmptyString (map capitalize (split "-" filename)) ++ "Icon".

(** *** [strokeToOutline] *)

Section Outline.
Variable host : Numerics.

(** [${x}] inside a template. *)
Definition str (x : float) : string := toStr host x.

Definition attr_number (element : Element) (name dflt : string) : float :=
  parseFloat host (or_default (getAttribute element name) dflt).

(** A stroke that asks for conversion: present, not empty, neither [none]
    nor [transparent]. *)
Definition convertible_stroke (stroke : option string) : bool :=
  match stroke with
  | None => false
  | Some s => truthy s && negb (String.eqb s "none") && negb (String.eqb s "transparent")
  end.

Definition line_outline (element : Element) (strokeWidth : string) : string :=
  let x1 := attr_number element "x1" "0" in
  let y1 := attr_number element "y1" "0" in
  let x2 := attr_number element "x2" "0" in
  let y2 := attr_number element "y2" "0" in
  let width := parseFloat host strokeWidth in
  let angle := Math_atan2 host (y2 - y1) (x2 - x1) in
  let halfWidth := (width / 2)%float in
  let cos := Math_cos host angle in
  let sin := Math_sin host angle in
  let x1a := (x1 - halfWidth * sin)%float in
  let y1a := (y1 + halfWidth * cos)%float in
  let x1b := (x1 + halfWidth * sin)%float in
  let y1b := (y1 - halfWidth * cos)%float in
  let x2a := (x2 - halfWidth * sin)%float in
  let y2a := (y2 + halfWidth * cos)%float in
  let x2b := (x2 + halfWidth * sin)%float in
  let y2b := (y2 - halfWidth * cos)%float in
  "M " ++ str x1a ++ " " ++ str y1a ++ " L " ++ str x2a ++ " " ++ str y2a
  ++ " L " ++ str x2b ++ " " ++ str y2b ++ " L " ++ str x1b ++ " " ++ str y1b ++ " Z".

(** One closed circular sub-path of centre [(cx, cy)] and radius [r], drawn
    as two half-turn arcs with sweep flag [sweep]. *)
Definition circle_subpath (cx cy r : float) (sweep : string) : string :=
  "M " ++ str cx ++ " " ++ str (cy - r)%float
  ++ " A " ++ str r ++ " " ++ str r ++ " 0 1 " ++ sweep ++ " "
  ++ str cx ++ " " ++ str (cy + r)%float
  ++ " A " ++ str r ++ " " ++ str r ++ " 0 1 " ++ sweep ++ " "
  ++ str cx ++ " " ++ str (cy - r)%float ++ " Z".

Definition circle_outline (element : Element) (strokeWidth : string) : string :=
  let cx := attr_number element "cx" "0" in
  let cy := attr_number element "cy" "0" in
  let r := attr_number element "r" "0" in
  let width := parseFloat host strokeWidth in
  let outerR := (r + width / 2)%float in
  let innerR := Math_max 0 (r - width / 2) in
  if (innerR <=? 0)%float then
    circle_subpath cx cy outerR "1"
  else
    circle_subpath cx cy outerR "1" ++ " " ++ circle_subpath cx cy innerR "0".

Definition rect_outline (element : Element) : string :=
  let x := attr_number element "x" "0" in
  let y := attr_number element "y" "0" in
  let width := attr_number element "width" "0" in
  let height := attr_number element "height" "0" in
  let strokeWidth := attr_number element "stroke-width" "1" in
  let halfStroke := (strokeWidth / 2)%float in
  let outerX := (x - halfStroke)%float in
  let outerY := (y - halfStroke)%float in
  let outerWidth := (width + strokeWidth)%float in
  let outerHeight := (height + strokeWidth)%float in
  let innerX := (x + halfStroke)%float in
  let innerY := (y + halfStroke)%float in
  let innerWidth := Math_max 0 (width - strokeWidth) in
  let innerHeight := Math_max 0 (height - strokeWidth) in
  let outer :=
    "M " ++ str outerX ++ " " ++ str outerY
    ++ " L " ++ str (outerX + outerWidth)%float ++ " " ++ str outerY
    ++ " L " ++ str (outerX + outerWidth)%float ++ " " ++ str (outerY + outerHeight)%float
    ++ " L " ++ str outerX ++ " " ++ str (outerY + outerHeight)%float ++ " Z" in
  if (innerWidth <=? 0)%float || (innerHeight <=? 0)%float then outer
  else
    outer
    ++ " M " ++ str innerX ++ " " ++ str innerY
    ++ " L " ++ str innerX ++ " " ++ str (innerY + innerHeight)%float
    ++ " L " ++ str (innerX + innerWidth)%float ++ " " ++ str (innerY + innerHeight)%float
    ++ " L " ++ str (innerX + innerWidth)%float ++ " " ++ str innerY ++ " Z".

(** [strokeToOutline(element)]: the outline path data, or null.  The length
    of a line, which the source computes and never uses, is left out. *)
Definition strokeToOutline (element : Element) : option string :=
  let tagName := toLowerCase (tagName element) in
  let stroke := getAttribute element "stroke" in
  let strokeWidth := or_default (getAttribute element "stroke-width") "1" in
  if negb (convertible_stroke stroke) then None
  else if String.eqb tagName "line" then Some (line_outline element strokeWidth)
  else if String.eqb tagName "circle" then Some (circle_outline element strokeWidth)
  else if String.eqb tagName "rect" then Some (rect_outline element)
  else getAttribute element "d".

End Outline.

(** *** [isHelperElement] and [isMainIconElement] *)

Definition isHelperElement (element : Element) : bool :=
  let tagName := toLowerCase (tagName element) in
  let rectHelper :=
    if String.eqb tagName "rect" then
      let fill := getAttribute element "fill" in
      let width := getAttribute element "width" in
      let height := getAttribute element "height" in
      if is_str fill "#ffffff" || is_str fill "white" || is_str fill "#fff" then true
      else if is_str width "24" && is_str height "24" then true
      else false
    else false in
  if rectHelper then true
  else
    let id := or_default (option_map toLowerCase (getAttribute element "id")) EmptyString in
    let className := or_default (option_map toLowerCase (getAttribute element "class")) EmptyString in
    if includes id "helper" || includes id "background" || includes id "bg"
       || includes className "helper" || includes className "background"
       || includes className "bg"
    then true
    else false.

Definition isMainIconElement (element : Element) : bool :=
  let tagName := toLowerCase (tagName element) in
  if String.eqb tagName "path" then true
  else if array_includes ["circle"; "ellipse"; "line"; "polygon"; "polyline"] tagName then true
  else false.

(** *** [processSvgToReact]: the structured-DOM strategy *)

Record ProcessedIcon : Type := mkProcessedIcon {
  componentName : string;
  reactCode : string;
  jsx : string;
  previewSvg : string;
  isSinglePath : bool
}.

(** What a parsing strategy hands to the templates. *)
Record Extracted : Type := mkExtracted {
  viewBox : string;
  childElements : string;
  flat : bool
}.

(** [DOMParser.parseFromString(markup, 'image/svg+xml')] followed by
    [querySelector('svg')]: the [svg] element, or null. *)
Definition DomParser : Type := string -> option Element.

Definition mainElementsOf (svgElement : Element) : list Element :=
  let mainElements :=
    filter (fun element =>
              if isHelperElement element then false else isMainIconElement element)
           (children svgElement) in
  if (List.length mainElements =? 0)%nat then
    let fallbackElements :=
      filter (fun element => negb (isHelperElement element)) (children svgElement) in
    (mainElements ++ fallbackElements)%list
  else mainElements.

Definition has_stroke (element : Element) : bool :=
  hasAttribute element "stroke"
  && negb (is_str (getAttribute element "stroke") "none")
  && negb (is_str (getAttribute element "stroke") "transparent").

Definition has_fill (element : Element) : bool :=
  hasAttribute element "fill"
  && negb (is_str (getAttribute element "fill") "none")
  && negb (is_str (getAttribute element "fill") "transparent").

Definition fill_checked_tags : list string :=
  ["path"; "circle"; "ellipse"; "rect"; "polygon"; "polyline"].

(** One turn of the loop over [mainElements]; the state is
    [(allElementsProperlyOutlined, hasStrokes)]. *)
Definition outlined_step (state : bool * bool) (element : Element) : bool * bool :=
  let '(allElementsProperlyOutlined, hasStrokes) := state in
  let hasStroke := has_stroke element in
  let hasFill := has_fill element in
  let '(allElementsProperlyOutlined, hasStrokes) :=
    if hasStroke then (false, true) else (allElementsProperlyOutlined, hasStrokes) in
  let allElementsProperlyOutlined :=
    if array_includes fill_checked_tags (toLowerCase (tagName element)) then
      if negb hasFill && negb hasStroke then false else allElementsProperlyOutlined
    else allElementsProperlyOutlined in
  (allElementsProperlyOutlined, hasStrokes).

Definition dom_flatness (mainElements : list Element) : bool :=
  let pathElements :=
    filter (fun element => String.eqb (toLowerCase (tagName element)) "path") mainElements in
  let '(allElementsProperlyOutlined, hasStrokes) :=
    fold_left outlined_step mainElements (true, false) in
  let hasNestedElements :=
    existsb (fun element => (0 <? List.length (children element))%nat) mainElements in
  let isSinglePathElement :=
    ((List.length pathElements =? 1) && (List.length mainElements =? 1))%nat in
  let isMultipleProperlyOutlinedElements :=
    (1 <? List.length mainElements)%nat && allElementsProperlyOutlined && negb hasStrokes in
  (isSinglePathElement || isMultipleProperlyOutlinedElements) && negb hasNestedElements.

(** The rewrite of a [fill] or [stroke] value. *)
Definition normalize_paint (value : string) : string :=
  if negb (String.eqb value "none") && negb (String.eqb value "transparent")
     && negb (String.eqb value "rgba(0,0,0,0)")
     && negb (startsWith value "url(") && negb (startsWith value "hsl(")
     && negb (startsWith value "rgb(")
  then "currentColor"
  else value.

Definition render_attribute (attr : string * string) : string :=
  let '(name, value) := attr in
  let value :=
    if String.eqb name "fill" || String.eqb name "stroke" then normalize_paint value
    else value in
  att name value.

(** The quote-aware splitter of an attribute string. *)
Record SplitState : Type := mkSplitState {
  attrs : list string;
  current : string;
  inQuotes : bool;
  quoteChar : option ascii          (* [None] is the empty string *)
}.

Definition push_char (s : string) (char : ascii) : string :=
  s ++ String char EmptyString.

Definition is_quoteChar (quoteChar : option ascii) (char : ascii) : bool :=
  match quoteChar with
  | Some q => Ascii.eqb char q
  | None => false
  end.

Definition split_step (st : SplitState) (char : ascii) : SplitState :=
  if (Ascii.eqb char quote_char || Ascii.eqb char apostrophe_char) && negb (inQuotes st) then
    mkSplitState (attrs st) (push_char (current st) char) true (Some char)
  else if is_quoteChar (quoteChar st) char && inQuotes st then
    mkSplitState (attrs st) (push_char (current st) char) false None
  else if Ascii.eqb char " " && negb (inQuotes st) then
    if truthy (trim (current st)) then
      mkSplitState (attrs st ++ [trim (current st)])%list EmptyString (inQuotes st) (quoteChar st)
    else st
  else
    mkSplitState (attrs st) (push_char (current st) char) (inQuotes st) (quoteChar st).

Fixpoint fold_chars {S : Type} (f : S -> ascii -> S) (s : string) (st : S) : S :=
  match s with
  | EmptyString => st
  | String c s' => fold_chars f s' (f st c)
  end.

Definition split_attributes (attributes : string) : list string :=
  let st := fold_chars split_step attributes (mkSplitState [] EmptyString false None) in
  if truthy (trim (current st)) then (attrs st ++ [trim (current st)])%list else attrs st.

(** A path element, one attribute per line. *)
Definition format_path (attrString : string) : string :=
  let formattedAttrs :=
    join EmptyString
         (map (fun attr => nl ++ "          " ++ attr) (split_attributes attrString)) in
  "<path" ++ formattedAttrs ++ nl ++ "        />".

Definition render_element (element : Element) : string :=
  let tagName := toLowerCase (tagName element) in
  let attributes := join " " (map render_attribute (attributes element)) in
  if String.eqb tagName "path" then format_path attributes
  else "<" ++ tagName ++ " " ++ attributes ++ " />".

(** The separator of the emitted child elements. *)
Definition child_separator : string := nl ++ "        ".

Definition dom_extract (svgElement : Element) : Extracted :=
  let viewBox := or_default (getAttribute svgElement "viewBox") "0 0 24 24" in
  let mainElements := mainElementsOf svgElement in
  mkExtracted viewBox
              (join child_separator (map render_element mainElements))
              (dom_flatness mainElements).

(** The body of the inner [try]. *)
Definition dom_stage (domParser : option DomParser) (svgContent : JsValue)
  : Completion Extracted :=
  match domParser with
  | Some parse =>
      match parse (ToString svgContent) with
      | Some svgElement => Normal (dom_extract svgElement)
      | None => Throw (Error "No SVG element found")
      end
  | None => Throw (Error "DOMParser not available")
  end.

(** *** [processSvgToReact]: the text-pattern strategy *)

(** [/viewBox=Q([^Q]+)Q/], writing Q for the double quote. *)
Definition re_viewBox : regex :=
  Seq (Lit ("viewBox=" ++ dq)) (Seq (Group (PlusNot quote_char)) (Lit dq)).

(** [/<path[^>]*\/>/g], [/<circle[^>]*\/>/g], [/<rect[^>]*\/>/g] *)
Definition re_tag (name : string) : regex :=
  Seq (Lit ("<" ++ name)) (Seq (StarNot ">") (Lit "/>")).

(** [/<(?:ellipse|line|polygon|polyline)[^>]*\/>/g] *)
Definition re_other : regex :=
  Seq (Lit "<")
      (Seq (Alt (Lit "ellipse") (Alt (Lit "line") (Alt (Lit "polygon") (Lit "polyline"))))
           (Seq (StarNot ">") (Lit "/>"))).

(** [/(fill|stroke)=Q(?!none|transparent|rgba\(0,0,0,0\)|url\(|hsl\(|rgb\()[^Q]*Q/g],
    writing Q for the double quote. *)
Definition re_paint : regex :=
  Seq (Group (Alt (Lit "fill") (Lit "stroke")))
      (Seq (Lit ("=" ++ dq))
           (Seq (NegLook
                   (Alt (Lit "none")
                        (Alt (Lit "transparent")
                             (Alt (Lit "rgba(0,0,0,0)")
                                  (Alt (Lit "url(") (Alt (Lit "hsl(") (Lit "rgb(")))))))
                (Seq (StarNot quote_char) (Lit dq)))).

(** The pattern [<path], then a group capturing [[^>]*], then [\/>]; no
    global flag. *)
Definition re_path_attrs : regex :=
  Seq (Lit "<path") (Seq (Group (StarNot ">")) (Lit "/>")).

(** The first capture, [$1] and [match[1]]. *)
Definition capture1 (caps : list string) : string := nth 0 caps EmptyString.

Definition keep_rect (element : string) : bool :=
  if includes element (att "fill" "#ffffff")
     || includes element (att "fill" "white")
     || includes element (att "fill" "#fff")
     || (includes element (att "width" "24")
         && includes element (att "height" "24"))
  then false
  else true.

Definition allElementsOf (svgContent : string) : list string :=
  let pathMatches := match_all (re_tag "path") svgContent in
  let circleMatches := match_all (re_tag "circle") svgContent in
  let rectMatches := match_all (re_tag "rect") svgContent in
  let otherMatches := match_all re_other svgContent in
  let filteredRectMatches := filter keep_rect rectMatches in
  (pathMatches ++ circleMatches ++ filteredRectMatches ++ otherMatches)%list.

Definition text_has_stroke (element : string) : bool :=
  includes element "stroke="
  && negb (includes element (att "stroke" "none"))
  && negb (includes element (att "stroke" "transparent")).

Definition text_has_fill (element : string) : bool :=
  includes element "fill="
  && negb (includes element (att "fill" "none"))
  && negb (includes element (att "fill" "transparent")).

Definition text_fill_checked (element : string) : bool :=
  startsWith element "<path" || startsWith element "<circle"
  || startsWith element "<ellipse" || startsWith element "<rect"
  || startsWith element "<polygon" || startsWith element "<polyline".

Definition text_outlined_step (state : bool * bool) (element : string) : bool * bool :=
  let '(allElementsProperlyOutlined, hasStrokes) := state in
  let hasStroke := text_has_stroke element in
  let hasFill := text_has_fill element in
  let '(allElementsProperlyOutlined, hasStrokes) :=
    if hasStroke then (false, true) else (allElementsProperlyOutlined, hasStrokes) in
  let allElementsProperlyOutlined :=
    if text_fill_checked element then
      if negb hasFill && negb hasStroke then false else allElementsProperlyOutlined
    else allElementsProperlyOutlined in
  (allElementsProperlyOutlined, hasStrokes).

(** The classification of the text strategy; [hasMultipleElements], which the
    source computes and never reads, is left out. *)
Definition text_flatness (allElements : list string) : bool :=
  let pathElements := filter (fun element => startsWith element "<path") allElements in
  let '(allElementsProperlyOutlined, hasStrokes) :=
    fold_left text_outlined_step allElements (true, false) in
  let isSinglePathElement :=
    ((List.length pathElements =? 1) && (List.length allElements =? 1))%nat in
  let isMultipleProperlyOutlinedElements :=
    (1 <? List.length allElements)%nat && allElementsProperlyOutlined && negb hasStrokes in
  isSinglePathElement || isMultipleProperlyOutlinedElements.

Definition text_render_element (element : string) : string :=
  let transformedElement :=
    replace_all re_paint (fun caps => att (capture1 caps) "currentColor")
                element in
  if startsWith element "<path" then
    match match_first re_path_attrs transformedElement with
    | Some (_, caps) => format_path (trim (capture1 caps))
    | None => transformedElement
    end
  else transformedElement.

Definition text_extract (svgContent : string) : Extracted :=
  let viewBox :=
    match match_first re_viewBox svgContent with
    | Some (_, caps) => capture1 caps
    | None => "0 0 24 24"
    end in
  let allElements := allElementsOf svgContent in
  mkExtracted viewBox
              (join child_separator (map text_render_element allElements))
              (text_flatness allElements).

(** The body of the inner [catch]: [svgContent.match] is a string method. *)
Definition text_stage (svgContent : JsValue) : Completion Extracted :=
  bind (as_string svgContent) (fun markup => Normal (text_extract markup)).

(** *** [processSvgToReact]: templates and entry point *)

Definition lines (ls : list string) : string := join nl ls.

Definition jsx_template (viewBox childElements : string) : string :=
  lines [ "<svg";
          "        width={size || 24}";
          "        height={size || 24}";
          "        viewBox=" ++ dq ++ viewBox ++ dq;
          "        fill=" ++ dq ++ "currentColor" ++ dq;
          "        xmlns=" ++ dq ++ "http://www.w3.org/2000/svg" ++ dq;
          "        className={className}";
          "        aria-hidden=" ++ dq ++ "true" ++ dq;
          "        ref={ref}";
          "        {...props}";
          "      >";
          "        " ++ childElements;
          "      </svg>" ].

Definition preview_template (viewBox childElements : string) : string :=
  lines [ "<svg";
          "        width=" ++ dq ++ "24" ++ dq;
          "        height=" ++ dq ++ "24" ++ dq;
          "        viewBox=" ++ dq ++ viewBox ++ dq;
          "        fill=" ++ dq ++ "currentColor" ++ dq;
          "        xmlns=" ++ dq ++ "http://www.w3.org/2000/svg" ++ dq;
          "        aria-hidden=" ++ dq ++ "true" ++ dq;
          "      >";
          "        " ++ childElements;
          "      </svg>" ].

(** The head of a component file, up to the generated-code comment. *)
Definition code_head : string :=
  lines [ "/**";
          " * (c) Copyright 2025 Nominal Inc. All rights reserved.";
          " */";
          EmptyString;
          "import React, { memo } from " ++ dq ++ "react" ++ dq ++ ";";
          EmptyString;
          "import type { IconProps } from " ++ dq ++ "./types" ++ dq ++ ";";
          "// Auto-generated icon component" ].

(** The rest of a component file, from the line after that comment. *)
Definition code_body (componentName jsx : string) : string :=
  lines [ "export const " ++ componentName
            ++ ": React.NamedExoticComponent<IconProps> = memo(";
          "  function " ++ componentName
            ++ "({ size = 24, className, ref, ...props }: IconProps) {";
          "    return (";
          "      " ++ jsx;
          "    );";
          "  },";
          ");";
          componentName ++ ".displayName = " ++ dq ++ componentName ++ dq ++ ";";
          "export { " ++ componentName ++ " as ReactComponent };" ].

Definition react_template (componentName jsx : string) : string :=
  code_head ++ nl ++ code_body componentName jsx.

Definition fallback_template (componentName fallbackJsx : string) : string :=
  code_head ++ " (fallback)" ++ nl ++ code_body componentName fallbackJsx.

(** The placeholder glyph of the fallback component. *)
Definition placeholder_path : string :=
  "<path d=" ++ dq ++ "M12 2L2 7l10 5 10-5-10-5zM2 17l10 5 10-5M2 12l10 5 10-5" ++ dq ++ " />".

Definition fallbackJsx : string := jsx_template "0 0 24 24" placeholder_path.

(** [getComponentName(iconName)] as a call: [split] is a string method. *)
Definition call_getComponentName (iconName : JsValue) : Completion string :=
  bind (as_string iconName) (fun filename => Normal (getComponentName filename)).

(** The renderings and the returned object, once a strategy has run. *)
Definition assemble (componentName : string) (ex : Extracted) : ProcessedIcon :=
  let jsx := jsx_template (viewBox ex) (childElements ex) in
  let previewSvg := preview_template (viewBox ex) (childElements ex) in
  let reactCode := react_template componentName jsx in
  mkProcessedIcon componentName reactCode jsx previewSvg (flat ex).

(** The body of the outer [try]. *)
Definition processSvgToReact_try (domParser : option DomParser)
    (svgContent iconName : JsValue) : Completion ProcessedIcon :=
  bind (call_getComponentName iconName) (fun componentName =>
  bind (try_catch (dom_stage domParser svgContent)
                  (fun domError => text_stage svgContent)) (fun ex =>
  Normal (assemble componentName ex))).

(** The body of the outer [catch]. *)
Definition processSvgToReact_catch (iconName : JsValue) : Completion ProcessedIcon :=
  bind (call_getComponentName iconName) (fun componentName =>
  Normal (mkProcessedIcon componentName
                          (fallback_template componentName fallbackJsx)
                          fallbackJsx
                          fallbackJsx
                          false)).

Definition processSvgToReact (domParser : option DomParser)
    (svgContent iconName : JsValue) : Completion ProcessedIcon :=
  try_catch (processSvgToReact_try domParser svgContent iconName)
            (fun error => processSvgToReact_catch iconName).

(** *** Vocabulary of the statements below *)

(** The [svg] element the structured strategy works on, if it runs to the
    end: none without a parser, none when the parser finds no [svg]. *)
Definition structured (domParser : option DomParser) (markup : string) : option Element :=
  match domParser with
  | Some parse => parse markup
  | None => None
  end.

(** The same [svg] element with its helper children removed. *)
Definition without_helpers (svgElement : Element) : Element :=
  mkElement (tagName svgElement) (attributes svgElement)
            (filter (fun element => negb (isHelperElement element)) (children svgElement)).

(** The placeholder tokens of the embeddable rendering. *)
Definition placeholder_tokens : list string :=
  ["{size || 24}"; "{className}"; "{ref}"; "{...props}"].


(** The rewrite of the text strategy on the text of one tag, the first
    statement of its [map] callback. *)
Definition text_paint (element : string) : string :=
  replace_all re_paint (fun caps => att (capture1 caps) "currentColor") element.



End Svgr.

(** ** Sample documents

    Markup texts and the element trees a conforming parser gives for them. *)

Module Samples.

Import JsStr Dom JsNum Js Svgr.

Definition svg_open : string := "<svg " ++ att "viewBox" "0 0 24 24" ++ ">".

(** A white 24 by 24 backing rectangle and one filled path. *)
Definition arrow_markup : string :=
  svg_open
  ++ "<rect " ++ att "width" "24" ++ " " ++ att "height" "24" ++ " " ++ att "fill" "#ffffff" ++ "/>"
  ++ "<path " ++ att "d" "M5 12h14" ++ " " ++ att "fill" "#000000" ++ "/>"
  ++ "</svg>".

Definition arrow_tree : Element :=
  mkElement "svg" [("viewBox", "0 0 24 24")]
    [ mkElement "rect" [("width", "24"); ("height", "24"); ("fill", "#ffffff")] [];
      mkElement "path" [("d", "M5 12h14"); ("fill", "#000000")] [] ].

(** A filled path and a line that declares neither fill nor stroke. *)
Definition bare_line : Element :=
  mkElement "line" [("x1", "4"); ("y1", "4"); ("x2", "20"); ("y2", "20")] [].

Definition filled_path : Element :=
  mkElement "path" [("d", "M5 12h14"); ("fill", "#000000")] [].

Definition path_line_markup : string :=
  svg_open
  ++ "<path " ++ att "d" "M5 12h14" ++ " " ++ att "fill" "#000000" ++ "/>"
  ++ "<line " ++ att "x1" "4" ++ " " ++ att "y1" "4" ++ " " ++ att "x2" "20" ++ " "
  ++ att "y2" "20" ++ "/>"
  ++ "</svg>".

Definition path_line_tree : Element :=
  mkElement "svg" [("viewBox", "0 0 24 24")] [filled_path; bare_line].

(** A group holding one filled path. *)
Definition group_of_path : Element := mkElement "g" [] [filled_path].

Definition grouped_markup : string :=
  svg_open
  ++ "<g><path " ++ att "d" "M5 12h14" ++ " " ++ att "fill" "#000000" ++ "/></g>"
  ++ "</svg>".

Definition grouped_tree : Element :=
  mkElement "svg" [("viewBox", "0 0 24 24")] [group_of_path].

(** One stroked path. *)
Definition stroked_path : Element :=
  mkElement "path" [("d", "M5 12h14"); ("stroke", "#000000")] [].

Definition stroked_markup : string :=
  svg_open
  ++ "<path " ++ att "d" "M5 12h14" ++ " " ++ att "stroke" "#000000" ++ "/>"
  ++ "</svg>".

Definition stroked_tree : Element :=
  mkElement "svg" [("viewBox", "0 0 24 24")] [stroked_path].

(** One filled path, its attributes in single quotes. *)
Definition apostrophe_markup : string :=
  svg_open
  ++ "<path " ++ att1 "d" "M5 12h14" ++ " " ++ att1 "fill" "#000000" ++ "/>"
  ++ "</svg>".

(** A view box that spells a placeholder token. *)
Definition token_markup : string :=
  "<svg " ++ att "viewBox" "{ref}" ++ ">"
  ++ "<path " ++ att "d" "M5 12h14" ++ " " ++ att "fill" "#000000" ++ "/>"
  ++ "</svg>".

Definition token_tree : Element :=
  mkElement "svg" [("viewBox", "{ref}")] [filled_path].


(** Circles: a ring, and a stroke wider than the circle. *)
Definition ring_circle : Element :=
  mkElement "circle"
    [("cx", "12"); ("cy", "12"); ("r", "10"); ("stroke", "#000"); ("stroke-width", "2")] [].

Definition dot_circle : Element :=
  mkElement "circle"
    [("cx", "12"); ("cy", "12"); ("r", "0.5"); ("stroke", "#000"); ("stroke-width", "3")] [].

(** Two filled circles, their attributes in single quotes. *)
Definition quoted_circle (r : string) : Element :=
  mkElement "circle" [("r", r); ("fill", "#000"); ("stroke", "none")] [].

Definition quoted_circles_markup : string :=
  svg_open
  ++ "<circle " ++ att1 "r" "3" ++ " " ++ att1 "fill" "#000" ++ " "
  ++ att1 "stroke" "none" ++ "/>"
  ++ "<circle " ++ att1 "r" "5" ++ " " ++ att1 "fill" "#000" ++ " "
  ++ att1 "stroke" "none" ++ "/>"
  ++ "</svg>".

Definition quoted_circles_tree : Element :=
  mkElement "svg" [("viewBox", "0 0 24 24")] [quoted_circle "3"; quoted_circle "5"].

(** A filled path, and a filled and stroked path with a data attribute whose
    name ends in stroke. *)
Definition data_stroke_path : Element :=
  mkElement "path"
    [("d", "M5 6h14"); ("fill", "#000000"); ("stroke", "#f00"); ("data-stroke", "none")] [].

Definition data_stroke_markup : string :=
  svg_open
  ++ "<path " ++ att "d" "M5 12h14" ++ " " ++ att "fill" "#000000" ++ "/>"
  ++ "<path " ++ att "d" "M5 6h14" ++ " " ++ att "fill" "#000000" ++ " "
  ++ att "stroke" "#f00" ++ " " ++ att "data-stroke" "none" ++ "/>"
  ++ "</svg>".

Definition data_stroke_tree : Element :=
  mkElement "svg" [("viewBox", "0 0 24 24")] [filled_path; data_stroke_path].

(** A filled path alone, and the same next to a stroked path whose id names
    it a background. *)
Definition bg_path : Element :=
  mkElement "path" [("id", "bg"); ("d", "M0 0h24v24H0z"); ("stroke", "#000")] [].

Definition single_path_markup : string :=
  svg_open
  ++ "<path " ++ att "d" "M5 12h14" ++ " " ++ att "fill" "#000000" ++ "/>"
  ++ "</svg>".

Definition helper_path_markup : string :=
  svg_open
  ++ "<path " ++ att "d" "M5 12h14" ++ " " ++ att "fill" "#000000" ++ "/>"
  ++ "<path " ++ att "id" "bg" ++ " " ++ att "d" "M0 0h24v24H0z" ++ " "
  ++ att "stroke" "#000" ++ "/>"
  ++ "</svg>".

Definition helper_path_tree : Element :=
  mkElement "svg" [("viewBox", "0 0 24 24")] [filled_path; bg_path].

(** A circle whose stroke attribute is present and empty. *)
Definition empty_stroke_circle : Element :=
  mkElement "circle" [("cx", "12"); ("cy", "12"); ("r", "10"); ("stroke", EmptyString)] [].


(** A parser that knows the sample documents; for any other text it finds
    no [svg] element. *)
Definition sample_documents : list (string * Element) :=
  [ (arrow_markup, arrow_tree);
    (path_line_markup, path_line_tree);
    (grouped_markup, grouped_tree);
    (stroked_markup, stroked_tree);
    (apostrophe_markup, mkElement "svg" [("viewBox", "0 0 24 24")] [filled_path]);
    (token_markup, token_tree) ].

Definition sample_parser : DomParser := fun markup =>
  option_map snd (find (fun doc => String.eqb (fst doc) markup) sample_documents).

End Samples.

(** ** [flattenSvgPaths] *)

Module Flatten.

Import JsStr Dom JsNum Js Svgr.

(** [XMLSerializer.serializeToString], a built-in of the host. *)
Definition Serializer : Type := Element -> string.

(** [element.setAttribute(name, value)]: the value of an attribute of that
    name is replaced where it stands, a new attribute goes to the end. *)
Fixpoint setAttribute (attrs : list (string * string)) (name value : string)
  : list (string * string) :=
  match attrs with
  | [] => [(name, value)]
  | (n, v) :: rest =>
      if String.eqb n name then (n, value) :: rest
      else (n, v) :: setAttribute rest name value
  end.

(** [element.removeAttribute(name)] *)
Fixpoint removeAttribute (attrs : list (string * string)) (name : string)
  : list (string * string) :=
  match attrs with
  | [] => []
  | (n, v) :: rest =>
      if String.eqb n name then rest else (n, v) :: removeAttribute rest name
  end.

Definition relevant_tags : list string :=
  ["path"; "line"; "circle"; "rect"; "ellipse"; "polygon"; "polyline"].

Definition relevantElementsOf (svgElement : Element) : list Element :=
  filter (fun element =>
            if isHelperElement element then false
            else array_includes relevant_tags (toLowerCase (tagName element)))
         (children svgElement).

Section FlattenPaths.
Variable host : Numerics.

(** [if (pathData) pathDataArray.push(pathData)] for the [d] attribute. *)
Definition push_d (element : Element) (pathDataArray : list string) : list string :=
  match getAttribute element "d" with
  | Some pathData => if truthy pathData then (pathDataArray ++ [pathData])%list
                     else pathDataArray
  | None => pathDataArray
  end.

(** One turn of the loop over [relevantElements].  Both branches of the
    stroke test on a path push its [d] attribute. *)
Definition path_data_step (pathDataArray : list string) (element : Element)
  : list string :=
  let tagName := toLowerCase (tagName element) in
  if String.eqb tagName "path" then push_d element pathDataArray
  else
    match strokeToOutline host element with
    | Some strokeOutline =>
        if truthy strokeOutline then (pathDataArray ++ [strokeOutline])%list
        else push_d element pathDataArray
    | None => push_d element pathDataArray
    end.

Definition pathDataOf (relevantElements : list Element) : list string :=
  fold_left path_data_step relevantElements [].

(** The new [svg] element: the attributes of the original, copied one by
    one, and the flattened path as its only child. *)
Definition flattened_path (combinedPathData : string) : Element :=
  let attrs := setAttribute [] "d" combinedPathData in
  let attrs := setAttribute attrs "fill" "currentColor" in
  let attrs := setAttribute attrs "fill-rule" "evenodd" in
  let attrs := removeAttribute attrs "stroke" in
  let attrs := removeAttribute attrs "stroke-width" in
  let attrs := removeAttribute attrs "stroke-linecap" in
  let attrs := removeAttribute attrs "stroke-linejoin" in
  mkElement "path" attrs [].

Definition flattened_svg (svgElement : Element) (combinedPathData : string) : Element :=
  let attrs :=
    fold_left (fun acc attr => setAttribute acc (fst attr) (snd attr))
              (attributes svgElement) [] in
  mkElement "svg" attrs [flattened_path combinedPathData].

(** The body of the [try], from the [svg] element on.  [new XMLSerializer()]
    throws where the host has no serializer. *)
Definition flatten_element (serializer : option Serializer) (svgContent : string)
    (svgElement : Element) : Completion string :=
  let relevantElements := relevantElementsOf svgElement in
  if (List.length relevantElements =? 0)%nat then Normal svgContent
  else
    let pathDataArray := pathDataOf relevantElements in
    if (List.length pathDataArray =? 0)%nat then Normal svgContent
    else if (List.length pathDataArray =? 1)%nat then Normal svgContent
    else
      let combinedPathData := join " " pathDataArray in
      let newSvg := flattened_svg svgElement combinedPathData in
      match serializer with
      | Some serializeToString => Normal (serializeToString newSvg)
      | None => Throw (Error "XMLSerializer is not defined")
      end.

Definition flattenSvgPaths_try (domParser : option DomParser)
    (serializer : option Serializer) (svgContent : string) : Completion string :=
  match domParser with
  | Some parse =>
      match parse svgContent with
      | Some svgElement => flatten_element serializer svgContent svgElement
      | None => Throw (Error "No SVG element found")
      end
  | None => Normal svgContent
  end.

Definition flattenSvgPaths (domParser : option DomParser)
    (serializer : option Serializer) (svgContent : string) : string :=
  match flattenSvgPaths_try domParser serializer svgContent with
  | Normal result => result
  | Throw error => svgContent
  end.

(** *** Vocabulary for the rectangle outline *)

(** A closed rectangle, clockwise from its top left corner. *)
Definition rect_clockwise (x y w h : float) : string :=
  "M " ++ str host x ++ " " ++ str host y
  ++ " L " ++ str host (x + w)%float ++ " " ++ str host y
  ++ " L " ++ str host (x + w)%float ++ " " ++ str host (y + h)%float
  ++ " L " ++ str host x ++ " " ++ str host (y + h)%float ++ " Z".

(** The same rectangle the other way round. *)
Definition rect_counterclockwise (x y w h : float) : string :=
  "M " ++ str host x ++ " " ++ str host y
  ++ " L " ++ str host x ++ " " ++ str host (y + h)%float
  ++ " L " ++ str host (x + w)%float ++ " " ++ str host (y + h)%float
  ++ " L " ++ str host (x + w)%float ++ " " ++ str host y ++ " Z".

End FlattenPaths.

(** A serializer for running examples: tag, attributes, children. *)
Fixpoint sample_serializer (e : Element) : string :=
  match e with
  | mkElement tag attrs kids =>
      "<" ++ tag
      ++ join EmptyString (map (fun a => " " ++ att (fst a) (snd a)) attrs)
      ++ ">" ++ join EmptyString (map sample_serializer kids)
      ++ "</" ++ tag ++ ">"
  end.

End Flatten.

(** ** Dispatch to the build pipeline (the main thread of the plugin)

    [processIconsInChunks]: the grouping of the icons into payloads and the
    base64 encoder used when [btoa] is missing or throws.  Sizes are lengths
    of JSON texts, the text of a payload object being a built-in's output. *)

Module Dispatch.

Definition MAX_PAYLOAD_SIZE : N := 55000.

Section Chunks.
Context {Icon : Type}.

(** [JSON.stringify(iconPayload).length] for the payload of one icon. *)
Variable estimatedSize : Icon -> N.

Record ChunkState : Type := mkChunkState {
  chunks : list (list Icon);
  currentChunk : list Icon;
  currentChunkSize : N
}.

(** One turn of the loop over [icons]. *)
Definition chunk_step (st : ChunkState) (icon : Icon) : ChunkState :=
  if (MAX_PAYLOAD_SIZE <? currentChunkSize st + estimatedSize icon)%N
     && (0 <? List.length (currentChunk st))%nat
  then mkChunkState (chunks st ++ [currentChunk st])%list [icon] (estimatedSize icon)
  else mkChunkState (chunks st) (currentChunk st ++ [icon])%list
                    (currentChunkSize st + estimatedSize icon)%N.

Definition make_chunks (icons : list Icon) : list (list Icon) :=
  let st := fold_left chunk_step icons (mkChunkState [] [] 0%N) in
  if (0 <? List.length (currentChunk st))%nat
  then (chunks st ++ [currentChunk st])%list
  else chunks st.

(** The sum of the estimated sizes of a chunk. *)
Fixpoint chunk_size (chunk : list Icon) : N :=
  match chunk with
  | [] => 0%N
  | icon :: rest => (estimatedSize icon + chunk_size rest)%N
  end.

(** [JSON.stringify(iconPayload).length] for the payload of a chunk, an
    array of the same payload objects: two brackets, the objects, and a
    comma between neighbours. *)
Definition payload_length (chunk : list Icon) : N :=
  (2 + chunk_size chunk + N.of_nat (List.length chunk - 1))%N.

(** No chunk could have taken the first icon of the next one. *)
Fixpoint tight (cs : list (list Icon)) : Prop :=
  match cs with
  | [] => True
  | c :: rest =>
      match rest with
      | [] => True
      | d :: _ =>
          (exists x d', d = x :: d'
                        /\ (MAX_PAYLOAD_SIZE < chunk_size c + estimatedSize x)%N)
          /\ tight rest
      end
  end.

(** What the loop keeps true, [done] being the icons read so far. *)
Definition chunk_invariant (done : list Icon) (st : ChunkState) : Prop :=
  (concat (chunks st) ++ currentChunk st)%list = done
  /\ currentChunkSize st = chunk_size (currentChunk st)
  /\ Forall (fun c => c <> []) (chunks st)
  /\ Forall (fun c => List.length c = 1 \/ (chunk_size c <= MAX_PAYLOAD_SIZE)%N) (chunks st)
  /\ (currentChunk st = [] \/ List.length (currentChunk st) = 1
      \/ (chunk_size (currentChunk st) <= MAX_PAYLOAD_SIZE)%N)
  /\ (currentChunk st = [] -> chunks st = [])
  /\ (currentChunk st <> [] -> tight (chunks st ++ [currentChunk st])).

(** The safety check of the second loop: [jsonString.length > 60000]. *)
Definition too_large (chunk : list Icon) : bool :=
  (60000 <? payload_length chunk)%N.

(** How the request for a chunk ends: [response.ok], a response that is not
    ok, or an exception on the way (encoding, [fetch], reading the answer).
    The log, the notification and the delay that follow the counting are
    taken not to throw. *)
Inductive Outcome : Type := Accepted | Rejected | Raised.

(** What the network does with a chunk. *)
Variable send : list Icon -> Outcome.

Record Tally : Type := mkTally {
  successCount : nat;
  errorCount : nat
}.

(** One turn of the loop over [chunks]. *)
Definition tally_step (t : Tally) (chunk : list Icon) : Tally :=
  if too_large chunk
  then mkTally (successCount t) (errorCount t + List.length chunk)
  else match send chunk with
       | Accepted => mkTally (successCount t + List.length chunk) (errorCount t)
       | Rejected => mkTally (successCount t) (errorCount t + List.length chunk)
       | Raised => mkTally (successCount t) (errorCount t + List.length chunk)
       end.

(** The counters of [processIconsInChunks] when the loop is over. *)
Definition processIconsInChunks (icons : list Icon) : Tally :=
  fold_left tally_step (make_chunks icons) (mkTally 0 0).

(** What is shown at the end: the success message or the failure one. *)
Definition shows_success (t : Tally) : bool := (0 <? successCount t)%nat.

End Chunks.

(** *** The base64 fallback

    A string is the list of its UTF-16 code units, the values of
    [charCodeAt].  Bit operations work on 32-bit signed integers. *)

Definition base64_chars : string :=
  "ABCDEFGHIJKLMNOPQRSTUVWXYZabcdefghijklmnopqrstuvwxyz0123456789+/".

(** [chars.charAt(i)]: the empty string when [i] is out of range. *)
Definition charAt (s : string) (i : Z) : string :=
  if (i <? 0)%Z then EmptyString
  else match String.get (Z.to_nat i) s with
       | Some c => String c EmptyString
       | None => EmptyString
       end.

(** The 32-bit signed integer congruent to [z]. *)
Definition int32 (z : Z) : Z :=
  ((z + 2147483648) mod 4294967296 - 2147483648)%Z.

(** [x << n], [x | y], [x >> n] and [x & y] on 32-bit signed integers. *)
Definition shl (x n : Z) : Z := int32 (Z.shiftl x n).
Definition bor (x y : Z) : Z := Z.lor x y.
Definition sar (x n : Z) : Z := Z.shiftr x n.
Definition band (x y : Z) : Z := Z.land x y.

(** The four characters written for the code units [a], [b], [c]; [j] is
    the index after the reads and [length] is [jsonString.length]. *)
Definition quad (length j a b c : Z) : string :=
  let bitmap := bor (bor (shl a 16) (shl b 8)) c in
  charAt base64_chars (band (sar bitmap 18) 63)
  ++ charAt base64_chars (band (sar bitmap 12) 63)
  ++ (if (j - 2 <? length)%Z then charAt base64_chars (band (sar bitmap 6) 63) else "=")
  ++ (if (j - 1 <? length)%Z then charAt base64_chars (band bitmap 63) else "=").

(** The [while] loop; [rest] is what is left of [jsonString] from index
    [j].  A read past the end gives 0 and leaves [j] where it is. *)
Fixpoint base64_loop (length j : Z) (rest : list Z) : string :=
  match rest with
  | [] => EmptyString
  | [a] => quad length (j + 1) a 0 0
  | [a; b] => quad length (j + 2) a b 0
  | a :: b :: c :: rest' =>
      quad length (j + 3) a b c ++ base64_loop length (j + 3) rest'
  end.

Definition manual_base64 (jsonString : list Z) : string :=
  base64_loop (Z.of_nat (List.length jsonString)) 0 jsonString.

(** The place of a character in the alphabet. *)
Fixpoint index_in (alphabet : string) (c : ascii) : option Z :=
  match alphabet with
  | EmptyString => None
  | String x rest =>
      if Ascii.eqb x c then Some 0%Z
      else option_map Z.succ (index_in rest c)
  end.

(** The code units of a text in the first 256 code points. *)
Definition latin1 (units : list Z) : Prop :=
  Forall (fun u => (0 <= u < 256)%Z) units.

End Dispatch.

(** ** The selection (the main thread of the plug-in)

    [getIconNodes] and the analysis that [processSelection] makes of every
    node it keeps, the same text in the main thread and in the flattening
    command.  A node is the part of a [SceneNode] that this code reads. *)

Module Selection.

Import JsStr JsNum Js Svgr.

#[local] Set Warnings "-register-all".

(** [strokes] and [children] are absent on the node types that lack the
    property; a paint stands for its type. *)
Inductive SceneNode : Type :=
  mkSceneNode (type name : string) (width height : float)
              (strokes : option (list string))
              (children : option (list SceneNode)).

Definition node_type (node : SceneNode) : string :=
  match node with mkSceneNode type _ _ _ _ _ => type end.
Definition node_name (node : SceneNode) : string :=
  match node with mkSceneNode _ name _ _ _ _ => name end.
Definition node_width (node : SceneNode) : float :=
  match node with mkSceneNode _ _ width _ _ _ => width end.
Definition node_height (node : SceneNode) : float :=
  match node with mkSceneNode _ _ _ height _ _ => height end.
Definition node_strokes (node : SceneNode) : option (list string) :=
  match node with mkSceneNode _ _ _ _ strokes _ => strokes end.
Definition node_children (node : SceneNode) : option (list SceneNode) :=
  match node with mkSceneNode _ _ _ _ _ children => children end.

(** [type === 'FRAME' || type === 'COMPONENT' || type === 'INSTANCE'] *)
Definition is_frame_type (type : string) : bool :=
  String.eqb type "FRAME" || String.eqb type "COMPONENT" || String.eqb type "INSTANCE".

Fixpoint hasVectorContent (node : SceneNode) : bool :=
  match node with
  | mkSceneNode type _ _ _ _ children =>
      if String.eqb type "VECTOR" then true
      else if String.eqb type "BOOLEAN_OPERATION" then true
      else if is_frame_type type then
        match children with
        | Some kids => existsb hasVectorContent kids
        | None => false
        end
      else false
  end.

Definition is24x24Frame (node : SceneNode) : bool :=
  (node_width node =? 24)%float && (node_height node =? 24)%float.

Definition hasReasonableIconSize (node : SceneNode) : bool :=
  let minSize := 12%float in
  let maxSize := 48%float in
  (minSize <=? node_width node)%float && (node_width node <=? maxSize)%float
  && (minSize <=? node_height node)%float && (node_height node <=? maxSize)%float.

(** One turn of the loop of [getIconNodes]. *)
Definition icon_step (iconNodes : list SceneNode) (node : SceneNode) : list SceneNode :=
  if is_frame_type (node_type node) && is24x24Frame node && hasVectorContent node
  then (iconNodes ++ [node])%list
  else if String.eqb (node_type node) "VECTOR" && hasReasonableIconSize node
  then (iconNodes ++ [node])%list
  else if String.eqb (node_type node) "BOOLEAN_OPERATION" && hasReasonableIconSize node
  then (iconNodes ++ [node])%list
  else if is_frame_type (node_type node) && hasVectorContent node
          && hasReasonableIconSize node
  then (iconNodes ++ [node])%list
  else iconNodes.

Definition getIconNodes (nodes : list SceneNode) : list SceneNode :=
  fold_left icon_step nodes [].

(** [node.strokes && node.strokes.length > 0] *)
Definition has_strokes (node : SceneNode) : bool :=
  match node_strokes node with
  | Some paints => (0 <? List.length paints)%nat
  | None => false
  end.

(** ['children' in node && node.children && node.children.length > 0] *)
Definition has_children (node : SceneNode) : bool :=
  match node_children node with
  | Some kids => (0 <? List.length kids)%nat
  | None => false
  end.

Record Analysis : Type := mkAnalysis {
  needsFlattening : bool;
  flatteningReason : string
}.

(** [flatteningReason ? `${flatteningReason}, ${more}` : alone] *)
Definition add_reason (a : Analysis) (more alone : string) : Analysis :=
  mkAnalysis true (if truthy (flatteningReason a)
                   then flatteningReason a ++ ", " ++ more
                   else alone).

(** The branch of a frame, a component or an instance. *)
Definition frame_analysis (kids : list SceneNode) : Analysis :=
  let vectorChildren :=
    filter (fun child => String.eqb (node_type child) "VECTOR"
                         || String.eqb (node_type child) "BOOLEAN_OPERATION"
                         || String.eqb (node_type child) "LINE") kids in
  let a :=
    if (1 <? List.length vectorChildren)%nat then
      mkAnalysis true ("Multiple vector elements ("
                       ++ show_N (N.of_nat (List.length vectorChildren)) ++ ")")
    else match vectorChildren with
         | [singleVector] =>
             if String.eqb (node_type singleVector) "VECTOR" && has_strokes singleVector
             then mkAnalysis true "Single vector with strokes"
             else if String.eqb (node_type singleVector) "LINE" && has_strokes singleVector
             then mkAnalysis true "Single line with strokes"
             else mkAnalysis false EmptyString
         | _ => mkAnalysis false EmptyString
         end in
  let hasNestedGroups := existsb has_children kids in
  if hasNestedGroups then add_reason a "nested groups" "Nested groups" else a.

(** The branch of a vector or of a boolean operation. *)
Definition shape_analysis (node : SceneNode) (strokes_reason children_reason : string)
  : Analysis :=
  let a := if has_strokes node then mkAnalysis true strokes_reason
           else mkAnalysis false EmptyString in
  if has_children node then add_reason a "has children" children_reason else a.

(** The analysis of one node; reading the children of a frame that has
    none is a [TypeError], which the loop catches by dropping the node. *)
Definition analyse (node : SceneNode) : Completion Analysis :=
  if is_frame_type (node_type node) then
    match node_children node with
    | Some kids => Normal (frame_analysis kids)
    | None => Throw TypeError
    end
  else if String.eqb (node_type node) "VECTOR" then
    Normal (shape_analysis node "Vector with strokes" "Vector with children")
  else if String.eqb (node_type node) "BOOLEAN_OPERATION" then
    Normal (shape_analysis node "Boolean operation with strokes"
                           "Boolean operation with children")
  else if String.eqb (node_type node) "LINE" then
    Normal (if has_strokes node then mkAnalysis true "Line with strokes"
            else mkAnalysis false EmptyString)
  else Normal (mkAnalysis false EmptyString).

(** The flag of the icon in the main thread: what the icon processor says,
    overridden after the analysis. *)
Definition overridden (node : SceneNode) (needsFlattening isSinglePath : bool) : bool :=
  let isSingleNode := String.eqb (node_type node) "VECTOR"
                      || String.eqb (node_type node) "BOOLEAN_OPERATION"
                      || String.eqb (node_type node) "LINE" in
  if needsFlattening then
    if negb isSingleNode || negb isSinglePath then false else isSinglePath
  else isSinglePath.

(** [ReactIconRenderer]: the component file, or one comment line when the
    icon processor throws. *)
Definition ReactIconRenderer (domParser : option DomParser)
    (svgContent iconName : JsValue) : string :=
  match processSvgToReact domParser svgContent iconName with
  | Normal processedIcon => reactCode processedIcon
  | Throw error => "// Error processing icon: " ++ ToString iconName
  end.

(** Sample nodes. *)
Definition arrow_vector : SceneNode :=
  mkSceneNode "VECTOR" "arrow" 16 16 (Some []) None.

Definition stroked_vector : SceneNode :=
  mkSceneNode "VECTOR" "stroke" 16 16 (Some ["SOLID"]) None.

Definition arrow_frame : SceneNode :=
  mkSceneNode "FRAME" "arrow-right" 24 24 (Some []) (Some [arrow_vector]).

Definition busy_frame : SceneNode :=
  mkSceneNode "COMPONENT" "busy" 24 24 (Some [])
              (Some [arrow_vector; stroked_vector]).

End Selection.

(** ** The alias field of the panel

    The text field shows [aliases.join(', ')], the description written to
    the component is the same text, and every edit is read back by
    [handleAliasesChange]. *)

Module Ui.

Import JsStr.

(** [value.split(',').map(alias => alias.trim()).filter(Boolean)] *)
Definition handleAliasesChange (value : string) : list string :=
  filter truthy (map trim (split "," value)).

(** [aliases.join(', ')] *)
Definition aliasesText (aliases : list string) : string := join ", " aliases.

End Ui.

(** ** Vocabulary of the further statements *)

Module Statements.

Import JsStr Dom JsNum Js Svgr Flatten.

(** The characters of a string. *)
Definition chars (s : string) : list ascii := list_ascii_of_string s.

(** An attribute name as a document can spell it: not empty, without white
    space, double quote or apostrophe. *)
Definition plain_name (name : string) : Prop :=
  name <> EmptyString /\
  forall c, In c (chars name) ->
            is_space c = false /\ c <> quote_char /\ c <> apostrophe_char.

(** An attribute value without double quote. *)
Definition unquoted (value : string) : Prop :=
  forall c, In c (chars value) -> c <> quote_char.

(** The text of an attribute of an element. *)
Definition att_text (attr : string * string) : string := att (fst attr) (snd attr).

(** The non-empty [d] attributes of a list of elements, in order. *)
Definition d_values (elements : list Element) : list string :=
  flat_map (fun element =>
              match getAttribute element "d" with
              | Some pathData => if truthy pathData then [pathData] else []
              | None => []
              end) elements.

(** The name without its suffix. *)
Definition pascal (filename : string) : string :=
  join EmptyString (map capitalize (split "-" filename)).

(** Two paths, a filled circle and a helper plate. *)
Definition second_path : Element :=
  mkElement "path" [("d", "M5 6h14"); ("fill", "#000000")] [].

Definition filled_circle : Element :=
  mkElement "circle" [("cx", "12"); ("cy", "12"); ("r", "3"); ("fill", "#000000")] [].

Definition plate : Element :=
  mkElement "rect" [("width", "24"); ("height", "24"); ("fill", "white")] [].

Definition two_paths_markup : string :=
  Samples.svg_open
  ++ "<rect " ++ att "width" "24" ++ " " ++ att "height" "24" ++ " " ++ att "fill" "white" ++ "/>"
  ++ "<path " ++ att "d" "M5 12h14" ++ " " ++ att "fill" "#000000" ++ "/>"
  ++ "<circle " ++ att "cx" "12" ++ " " ++ att "cy" "12" ++ " " ++ att "r" "3" ++ " "
  ++ att "fill" "#000000" ++ "/>"
  ++ "<path " ++ att "d" "M5 6h14" ++ " " ++ att "fill" "#000000" ++ "/>"
  ++ "</svg>".

Definition two_paths_tree : Element :=
  mkElement "svg" [("viewBox", "0 0 24 24")]
    [plate; Samples.filled_path; filled_circle; second_path].

Definition two_paths_parser : DomParser := fun markup =>
  if String.eqb markup two_paths_markup then Some two_paths_tree
  else Samples.sample_parser markup.

(** A rectangle with a stroke thinner than its sides. *)
Definition framed_rect : Element :=
  mkElement "rect"
    [("x", "2"); ("y", "3"); ("width", "10"); ("height", "6"); ("stroke", "#000");
     ("stroke-width", "2")] [].

End Statements.

(** * Properties *)

Import JsStr Dom JsNum Js Regex Svgr Samples.

(** ** Auxiliary facts *)

Section FlatnessLoop.
Context {A : Type}.
Variables (stroked filled checked : A -> bool).
Variable step : bool * bool -> A -> bool * bool.

Hypothesis step_eq : forall (outlined strokes : bool) (x : A),
  step (outlined, strokes) x =
  (let outlined' := if stroked x then false else outlined in
   if checked x then (if negb (filled x) && negb (stroked x) then false else outlined')
   else outlined',
   if stroked x then true else strokes).

(** The two flags after the loop: nothing stroked and every checked element
    filled; something stroked. *)
Lemma flatness_loop (l : list A) (outlined strokes : bool) :
  fold_left step l (outlined, strokes) =
  (outlined && forallb (fun x => negb (stroked x) && (negb (checked x) || filled x)) l,
   strokes || existsb stroked l).
Proof.
  revert outlined strokes.
  induction l as [|x l IH]; intros outlined strokes; simpl.
  - now rewrite andb_true_r, orb_false_r.
  - rewrite step_eq, IH. cbv zeta.
    destruct (stroked x), (checked x), (filled x), outlined, strokes; simpl;
      try reflexivity; now rewrite ?orb_true_r.
Qed.

End FlatnessLoop.

Lemma outlined_step_eq (outlined strokes : bool) (x : Element) :
  outlined_step (outlined, strokes) x =
  (let outlined' := if has_stroke x then false else outlined in
   if array_includes fill_checked_tags (toLowerCase (tagName x))
   then (if negb (has_fill x) && negb (has_stroke x) then false else outlined')
   else outlined',
   if has_stroke x then true else strokes).
Proof.
  unfold outlined_step. now destruct (has_stroke x).
Qed.

Lemma text_outlined_step_eq (outlined strokes : bool) (x : string) :
  text_outlined_step (outlined, strokes) x =
  (let outlined' := if text_has_stroke x then false else outlined in
   if text_fill_checked x
   then (if negb (text_has_fill x) && negb (text_has_stroke x) then false else outlined')
   else outlined',
   if text_has_stroke x then true else strokes).
Proof.
  unfold text_outlined_step. now destruct (text_has_stroke x).
Qed.

(** One element, and it passes [p]: the meaning of the two length tests. *)
Lemma single_filter_length {A : Type} (p : A -> bool) (l : list A) :
  ((List.length (filter p l) =? 1) && (List.length l =? 1))%nat = true <->
  exists x, l = [x] /\ p x = true.
Proof.
  split.
  - intros H. apply andb_true_iff in H. destruct H as [Hp Hl].
    apply Nat.eqb_eq in Hp, Hl.
    destruct l as [|x [|y l]]; simpl in Hl; try discriminate.
    exists x. split; [reflexivity|]. simpl in Hp. now destruct (p x).
  - intros [x [-> Hx]]. simpl. now rewrite Hx.
Qed.

Lemma forallb_neg_existsb {A : Type} (p q : A -> bool) (l : list A) :
  forallb (fun x => negb (p x) && q x) l && negb (existsb p l) = true <->
  Forall (fun x => p x = false /\ q x = true) l.
Proof.
  induction l as [|x l IH]; simpl.
  - split; [constructor | reflexivity].
  - split.
    + intros H. destruct (p x) eqn:Hp, (q x) eqn:Hq; simpl in H; try discriminate.
      constructor; [now split | now apply IH].
    + intros H. inversion H as [|? ? [Hp Hq] Hl]; subst.
      rewrite Hp, Hq. simpl. now apply IH.
Qed.

Lemma no_nested_iff (l : list Element) :
  negb (existsb (fun element => (0 <? List.length (children element))%nat) l) = true <->
  Forall (fun element => children element = []) l.
Proof.
  induction l as [|x l IH]; simpl.
  - split; [constructor | reflexivity].
  - rewrite negb_orb, andb_true_iff, IH. split.
    + intros [Hx Hl]. constructor; [|assumption].
      destruct (children x); [reflexivity | discriminate].
    + intros H. inversion H as [|? ? Hx Hl]; subst. rewrite Hx. now split.
Qed.

(** The classification of the structured strategy, read as a formula. *)
Lemma dom_flatness_iff (main : list Element) :
  dom_flatness main = true <->
  Forall (fun e => children e = []) main /\
  ((exists e, main = [e] /\ toLowerCase (tagName e) = "path") \/
   (1 < List.length main /\
    Forall (fun e => has_stroke e = false /\
                     (array_includes fill_checked_tags (toLowerCase (tagName e)) = true ->
                      has_fill e = true)) main)).
Proof.
  unfold dom_flatness.
  rewrite (flatness_loop has_stroke has_fill
             (fun e => array_includes fill_checked_tags (toLowerCase (tagName e)))
             outlined_step outlined_step_eq).
  cbv iota beta. rewrite andb_true_l, orb_false_l.
  rewrite andb_true_iff, orb_true_iff, no_nested_iff, single_filter_length.
  rewrite <- andb_assoc, andb_true_iff, forallb_neg_existsb, Nat.ltb_lt.
  split.
  - intros [[[e [He Hp]] | [Hlen Hall]] Hnest]; (split; [exact Hnest|]).
    + left. exists e. split; [exact He | now apply String.eqb_eq].
    + right. split; [exact Hlen|].
      eapply Forall_impl; [|exact Hall]. cbv beta.
      intros a [Hs Hf]. split; [exact Hs|].
      intros Hc. rewrite Hc in Hf. exact Hf.
  - intros [Hnest [[e [He Hp]] | [Hlen Hall]]]; (split; [|exact Hnest]).
    + left. exists e. split; [exact He | now apply String.eqb_eq].
    + right. split; [exact Hlen|].
      eapply Forall_impl; [|exact Hall]. cbv beta.
      intros a [Hs Hf]. split; [exact Hs|].
      destruct (array_includes fill_checked_tags (toLowerCase (tagName a)));
        [now apply Hf | reflexivity].
Qed.

(** The classification of the text strategy, read as a formula. *)
Lemma text_flatness_iff (all : list string) :
  text_flatness all = true <->
  (exists e, all = [e] /\ startsWith e "<path" = true) \/
  (1 < List.length all /\
   Forall (fun e => text_has_stroke e = false /\
                    (text_fill_checked e = true -> text_has_fill e = true)) all).
Proof.
  unfold text_flatness.
  rewrite (flatness_loop text_has_stroke text_has_fill text_fill_checked
             text_outlined_step text_outlined_step_eq).
  cbv iota beta. rewrite andb_true_l, orb_false_l.
  rewrite orb_true_iff, single_filter_length.
  rewrite <- andb_assoc, andb_true_iff, forallb_neg_existsb, Nat.ltb_lt.
  split.
  - intros [H | [Hlen Hall]]; [now left | right].
    split; [exact Hlen|].
    eapply Forall_impl; [|exact Hall]. cbv beta.
    intros a [Hs Hf]. split; [exact Hs|].
    intros Hc. rewrite Hc in Hf. exact Hf.
  - intros [H | [Hlen Hall]]; [now left | right].
    split; [exact Hlen|].
    eapply Forall_impl; [|exact Hall]. cbv beta.
    intros a [Hs Hf]. split; [exact Hs|].
    destruct (text_fill_checked a); [now apply Hf | reflexivity].
Qed.

(** ** Which strategy runs *)

(** With an [svg] element found, the structured strategy decides. *)
Lemma process_structured (domParser : option DomParser) (markup name : string)
    (svg : Element) :
  structured domParser markup = Some svg ->
  processSvgToReact domParser (JsString markup) (JsString name)
  = Normal (assemble (getComponentName name) (dom_extract svg)).
Proof.
  intros H. unfold processSvgToReact, processSvgToReact_try, dom_stage.
  destruct domParser as [parse|]; simpl in H; [|discriminate].
  simpl. now rewrite H.
Qed.

(** Without one, the text strategy decides. *)
Lemma process_text (domParser : option DomParser) (markup name : string) :
  structured domParser markup = None ->
  processSvgToReact domParser (JsString markup) (JsString name)
  = Normal (assemble (getComponentName name) (text_extract markup)).
Proof.
  intros H. unfold processSvgToReact, processSvgToReact_try, dom_stage.
  destruct domParser as [parse|]; simpl in H; simpl; [now rewrite H | reflexivity].
Qed.

(** ** Flatness classification *)

(** C1, as stated, fails, and in four ways.  A filled path next to a line
    that declares neither a fill nor a stroke is classified flat, although
    the line is not well-formed.  Under the text strategy the tests are made
    on the text of the tags: two circles that are filled and not stroked,
    written between apostrophes, are not classified flat; a stroked path
    with a data attribute whose name ends in stroke and whose value is none,
    next to a filled path, is; and so is a path inside a group, the text
    strategy having no test of nesting. *)
Lemma C1_counterexample :
  (let main := mainElementsOf path_line_tree in
   exists icon,
     processSvgToReact (Some sample_parser) (JsString path_line_markup)
                       (JsString "arrow-right") = Normal icon /\
     isSinglePath icon = true /\
     ~ (Forall (fun e => children e = []) main /\
        ((exists e, main = [e] /\ toLowerCase (tagName e) = "path") \/
         (1 < List.length main /\
          Forall (fun e => has_fill e = true \/ has_stroke e = true) main /\
          Forall (fun e => has_stroke e = false) main))))
  /\ (let main := mainElementsOf quoted_circles_tree in
      (Forall (fun e => children e = []) main /\
       1 < List.length main /\
       Forall (fun e => has_fill e = true \/ has_stroke e = true) main /\
       Forall (fun e => has_stroke e = false) main) /\
      exists icon,
        processSvgToReact None (JsString quoted_circles_markup)
                          (JsString "arrow-right") = Normal icon /\
        isSinglePath icon = false)
  /\ (let main := mainElementsOf data_stroke_tree in
      (exists e, In e main /\ has_stroke e = true) /\
      exists icon,
        processSvgToReact None (JsString data_stroke_markup)
                          (JsString "arrow-right") = Normal icon /\
        isSinglePath icon = true)
  /\ (let main := mainElementsOf grouped_tree in
      (exists e, In e main /\ children e <> []) /\
      exists icon,
        processSvgToReact None (JsString grouped_markup)
                          (JsString "arrow-right") = Normal icon /\
        isSinglePath icon = true).
Proof.
  refine (conj _ (conj _ (conj _ _))); cbv zeta.
  - eexists. split; [reflexivity|]. split; [reflexivity|].
    intros [_ [[e [He _]] | [_ [Hwell _]]]].
    + discriminate He.
    + inversion Hwell as [|? ? _ Hrest]; subst.
      inversion Hrest as [|? ? Hline _]; subst.
      destruct Hline as [Hline | Hline]; discriminate Hline.
  - split.
    + change (mainElementsOf quoted_circles_tree)
        with [quoted_circle "3"; quoted_circle "5"].
      refine (conj _ (conj _ (conj _ _))).
      * repeat constructor.
      * cbn. lia.
      * constructor; [now left|]. constructor; [now left | constructor].
      * repeat constructor.
    + eexists. split; reflexivity.
  - split.
    + exists data_stroke_path. split; [right; now left | reflexivity].
    + eexists. split; reflexivity.
  - split.
    + exists group_of_path. split; [now left | discriminate].
    + eexists. split; reflexivity.
Qed.

Lemma paint_attribute_iff (e : Element) (name : string) :
  hasAttribute e name
  && negb (is_str (getAttribute e name) "none")
  && negb (is_str (getAttribute e name) "transparent") = true
  <-> exists v, getAttribute e name = Some v /\ v <> "none" /\ v <> "transparent".
Proof.
  unfold hasAttribute. destruct (getAttribute e name) as [v|]; cbn [is_str].
  - rewrite !andb_true_iff, !negb_true_iff, !String.eqb_neq. split.
    + intros [[_ Hn] Ht]. now exists v.
    + intros [v' [[= <-] [Hn Ht]]]. now repeat split.
  - split; [discriminate | now intros [v [H _]]].
Qed.

Lemma text_attribute_iff (t name : string) :
  includes t (name ++ "=")
  && negb (includes t (att name "none"))
  && negb (includes t (att name "transparent")) = true
  <-> includes t (name ++ "=") = true
      /\ includes t (att name "none") = false
      /\ includes t (att name "transparent") = false.
Proof. rewrite !andb_true_iff, !negb_true_iff. tauto. Qed.

Lemma text_fill_checked_iff (t : string) :
  text_fill_checked t = true
  <-> exists p, In p ["<path"; "<circle"; "<ellipse"; "<rect"; "<polygon"; "<polyline"]
                /\ startsWith t p = true.
Proof.
  unfold text_fill_checked. rewrite !orb_true_iff. split.
  - intros [[[[[H | H] | H] | H] | H] | H]; eexists; (split; [|exact H]);
      cbn [In]; tauto.
  - intros [p [Hin H]]. cbn [In] in Hin.
    destruct Hin as [<- | [<- | [<- | [<- | [<- | [<- | []]]]]]]; tauto.
Qed.

Lemma fill_checked_tags_iff (tag : string) :
  array_includes fill_checked_tags tag = true
  <-> In tag ["path"; "circle"; "ellipse"; "rect"; "polygon"; "polyline"].
Proof.
  unfold array_includes, fill_checked_tags. rewrite existsb_exists. split.
  - intros [x [Hin Hx]]. apply String.eqb_eq in Hx. now subst.
  - intros Hin. exists tag. split; [exact Hin | apply String.eqb_refl].
Qed.

(** C1, amended.  Under the structured strategy, [isSinglePath] holds
    exactly when no principal element has children and either there is
    exactly one principal element and it is a path, or there are several,
    none has a stroke attribute other than none and transparent, and each of
    those whose tag is path, circle, ellipse, rect, polygon or polyline has
    a fill attribute other than none and transparent; a line, or any other
    tag, is exempt from the fill requirement.  Under the text strategy the
    elements are the self-closing tags matched in the text (paths, circles,
    the rects that pass the rect filter, then the other shapes), there is no
    condition on nesting, and the same rule is applied with tests on the
    text of each tag: it has a stroke when it contains stroke= and spells
    neither the stroke attribute with the value none nor with the value
    transparent, in double quotes; likewise for the fill; and the fill is
    required of a tag that begins with <path, <circle, <ellipse, <rect,
    <polygon or <polyline. *)
Theorem flatness_classification (domParser : option DomParser) (markup name : string) :
  (exists icon,
    processSvgToReact domParser (JsString markup) (JsString name) = Normal icon /\
    match structured domParser markup with
    | Some svg =>
        let main := mainElementsOf svg in
        isSinglePath icon = true <->
        Forall (fun e => children e = []) main /\
        ((exists e, main = [e] /\ toLowerCase (tagName e) = "path") \/
         (1 < List.length main /\
          Forall (fun e =>
                    has_stroke e = false /\
                    (array_includes fill_checked_tags (toLowerCase (tagName e)) = true ->
                     has_fill e = true)) main))
    | None =>
        let all := allElementsOf markup in
        isSinglePath icon = true <->
        ((exists e, all = [e] /\ startsWith e "<path" = true) \/
         (1 < List.length all /\
          Forall (fun e =>
                    text_has_stroke e = false /\
                    (text_fill_checked e = true -> text_has_fill e = true)) all))
    end)
  /\ (forall e,
         (has_stroke e = true
          <-> exists v, getAttribute e "stroke" = Some v
                        /\ v <> "none" /\ v <> "transparent")
         /\ (has_fill e = true
             <-> exists v, getAttribute e "fill" = Some v
                           /\ v <> "none" /\ v <> "transparent"))
  /\ (forall tag,
         array_includes fill_checked_tags tag = true
         <-> In tag ["path"; "circle"; "ellipse"; "rect"; "polygon"; "polyline"])
  /\ allElementsOf markup
     = (match_all (re_tag "path") markup ++ match_all (re_tag "circle") markup
        ++ filter keep_rect (match_all (re_tag "rect") markup)
        ++ match_all re_other markup)%list
  /\ (forall t,
         (text_has_stroke t = true
          <-> includes t "stroke=" = true
              /\ includes t (att "stroke" "none") = false
              /\ includes t (att "stroke" "transparent") = false)
         /\ (text_has_fill t = true
             <-> includes t "fill=" = true
                 /\ includes t (att "fill" "none") = false
                 /\ includes t (att "fill" "transparent") = false)
         /\ (text_fill_checked t = true
             <-> exists p,
                   In p ["<path"; "<circle"; "<ellipse"; "<rect"; "<polygon"; "<polyline"]
                   /\ startsWith t p = true)).
Proof.
  refine (conj _ (conj _ (conj _ (conj _ _)))).
  - destruct (structured domParser markup) as [svg|] eqn:Hdoc.
    + eexists. split; [exact (process_structured _ _ _ _ Hdoc)|].
      cbv zeta. simpl isSinglePath. apply dom_flatness_iff.
    + eexists. split; [exact (process_text _ _ _ Hdoc)|].
      cbv zeta. simpl isSinglePath. apply text_flatness_iff.
  - intros e. split; apply paint_attribute_iff.
  - exact fill_checked_tags_iff.
  - reflexivity.
  - intros t. refine (conj _ (conj _ _)).
    + exact (text_attribute_iff t "stroke").
    + exact (text_attribute_iff t "fill").
    + exact (text_fill_checked_iff t).
Qed.

(** ** Nested geometry *)

(** C3, as stated, fails under the text strategy: a group that wraps a
    filled path is the one principal element and has a child, yet without a
    document parser the icon is classified flat. *)
Lemma C3_counterexample :
  (exists e, In e (mainElementsOf grouped_tree) /\ children e <> []) /\
  exists icon,
    processSvgToReact None (JsString grouped_markup) (JsString "arrow-right")
    = Normal icon /\
    isSinglePath icon = true.
Proof.
  split.
  - exists group_of_path. split; [now left | discriminate].
  - eexists. split; reflexivity.
Qed.

(** C3, amended: under the structured strategy, a principal element with
    child elements makes [isSinglePath] false. *)
Theorem nested_not_flat (domParser : option DomParser) (markup name : string)
    (svg e : Element) :
  structured domParser markup = Some svg ->
  In e (mainElementsOf svg) ->
  children e <> [] ->
  exists icon,
    processSvgToReact domParser (JsString markup) (JsString name) = Normal icon /\
    isSinglePath icon = false.
Proof.
  intros Hdoc Hin Hkids.
  eexists. split; [exact (process_structured _ _ _ _ Hdoc)|].
  simpl isSinglePath.
  destruct (dom_flatness (mainElementsOf svg)) eqn:Hflat; [|reflexivity].
  apply dom_flatness_iff in Hflat. destruct Hflat as [Hnone _].
  rewrite Forall_forall in Hnone. now apply Hnone in Hin.
Qed.

Lemma nested_not_flat_witness :
  exists icon,
    processSvgToReact (Some sample_parser) (JsString grouped_markup)
                      (JsString "arrow-right") = Normal icon /\
    isSinglePath icon = false.
Proof.
  apply (nested_not_flat (Some sample_parser) grouped_markup "arrow-right"
                         grouped_tree group_of_path).
  - reflexivity.
  - simpl. now left.
  - discriminate.
Defined.

(** ** A single stroked path *)

(** C10: under the structured strategy, when the principal elements are
    exactly one path without children, [isSinglePath] is true whatever the
    path's stroke: the stroke flags are read in the several-elements branch
    only. *)
Theorem single_path_flat (domParser : option DomParser) (markup name : string)
    (svg e : Element) :
  structured domParser markup = Some svg ->
  mainElementsOf svg = [e] ->
  toLowerCase (tagName e) = "path" ->
  children e = [] ->
  exists icon,
    processSvgToReact domParser (JsString markup) (JsString name) = Normal icon /\
    isSinglePath icon = true.
Proof.
  intros Hdoc Hmain Htag Hkids.
  eexists. split; [exact (process_structured _ _ _ _ Hdoc)|].
  simpl isSinglePath. apply dom_flatness_iff. rewrite Hmain. split.
  - constructor; [exact Hkids | constructor].
  - left. now exists e.
Qed.

Lemma single_path_flat_witness :
  has_stroke stroked_path = true /\
  exists icon,
    processSvgToReact (Some sample_parser) (JsString stroked_markup)
                      (JsString "arrow-right") = Normal icon /\
    isSinglePath icon = true.
Proof.
  split; [reflexivity|].
  apply (single_path_flat (Some sample_parser) stroked_markup "arrow-right"
                          stroked_tree stroked_path); reflexivity.
Defined.

(** ** Stroke outlining *)

(** [Math.max(0, x)] is at most 0 exactly when [x] is. *)
Lemma Math_max_zero_leb (x : float) :
  (Math_max 0 x <=? 0)%float = (x <=? 0)%float.
Proof.
  unfold Math_max.
  change (is_nan 0) with false. change (classify 0) with PZero. cbv iota.
  rewrite (FloatAxioms.compare_spec 0 x), (FloatAxioms.leb_spec x 0).
  change (Prim2SF 0) with (S754_zero false).
  destruct (Prim2SF x) as [s|s| |s m e] eqn:E; try destruct s; cbn;
    try reflexivity; rewrite FloatAxioms.leb_spec, ?E; reflexivity.
Qed.

(** When it is not, [Math.max(0, x)] is [x] itself. *)
Lemma Math_max_zero_above (x : float) :
  (x <=? 0)%float = false -> Math_max 0 x = x.
Proof.
  unfold Math_max.
  change (is_nan 0) with false. change (classify 0) with PZero. cbv iota.
  rewrite (FloatAxioms.compare_spec 0 x), (FloatAxioms.leb_spec x 0).
  change (Prim2SF 0) with (S754_zero false).
  destruct (Prim2SF x) as [s|s| |s m e] eqn:E; try destruct s; cbn;
    try reflexivity; intros H; discriminate H.
Qed.

Lemma convertible_stroke_true (s : string) :
  s <> EmptyString -> s <> "none" -> s <> "transparent" ->
  convertible_stroke (Some s) = true.
Proof.
  intros He Hn Ht. unfold convertible_stroke.
  apply String.eqb_neq in Hn, Ht. rewrite Hn, Ht.
  destruct s; [contradiction | reflexivity].
Qed.

Lemma convertible_stroke_false (stroke : option string) :
  convertible_stroke stroke = false <->
  stroke = None \/ stroke = Some EmptyString \/ stroke = Some "none"
  \/ stroke = Some "transparent".
Proof.
  unfold convertible_stroke. destruct stroke as [s|].
  - destruct (String.eqb_spec s "none") as [->|Hn].
    { split; [intros _; now right; right; left | reflexivity]. }
    destruct (String.eqb_spec s "transparent") as [->|Ht].
    { split; [intros _; now right; right; right | reflexivity]. }
    destruct s as [|c s].
    { split; [intros _; now right; left | reflexivity]. }
    simpl. split; [discriminate|].
    intros [H | [H | [H | H]]]; inversion H; subst; contradiction.
  - split; [now left | reflexivity].
Qed.

(** C5, as stated, fails: a path with a stroke and path data is a tag the
    stage does not handle, and the result is its path data, not null. *)
Lemma C5_counterexample :
  let e := stroked_path in
  ~ (strokeToOutline example_host e = None <->
     getAttribute e "stroke" = None
     \/ getAttribute e "stroke" = Some "none"
     \/ getAttribute e "stroke" = Some "transparent"
     \/ In (toLowerCase (tagName e)) ["path"; "polygon"; "polyline"; "ellipse"]).
Proof.
  intros e [_ H].
  assert (Hnull : strokeToOutline example_host e = None).
  { apply H. right. right. right. now left. }
  discriminate Hnull.
Qed.

(** C5, amended: the result is null exactly when the stroke attribute is
    absent, empty, none or transparent, or when the tag is none of line,
    circle and rect and the element has no [d] attribute.  For such a tag
    with a convertible stroke the result is the element's [d] attribute, the
    original path data, as it stands. *)
Theorem strokeToOutline_null (host : Numerics) (e : Element) :
  let tag := toLowerCase (tagName e) in
  let stroke := getAttribute e "stroke" in
  (strokeToOutline host e = None <->
   stroke = None \/ stroke = Some EmptyString \/ stroke = Some "none"
   \/ stroke = Some "transparent"
   \/ (tag <> "line" /\ tag <> "circle" /\ tag <> "rect" /\ getAttribute e "d" = None))
  /\
  (convertible_stroke stroke = true ->
   tag <> "line" -> tag <> "circle" -> tag <> "rect" ->
   strokeToOutline host e = getAttribute e "d").
Proof.
  cbv zeta. unfold strokeToOutline.
  pose proof (convertible_stroke_false (getAttribute e "stroke")) as Hfalse.
  destruct (convertible_stroke (getAttribute e "stroke")) eqn:Hs; cbn [negb].
  - assert (Hnot : ~ (getAttribute e "stroke" = None
                      \/ getAttribute e "stroke" = Some EmptyString
                      \/ getAttribute e "stroke" = Some "none"
                      \/ getAttribute e "stroke" = Some "transparent")).
    { intros H. apply Hfalse in H. discriminate H. }
    split.
    + destruct (String.eqb_spec (toLowerCase (tagName e)) "line") as [Hl | Hl];
        [split; [discriminate | intros H; exfalso; tauto]|].
      destruct (String.eqb_spec (toLowerCase (tagName e)) "circle") as [Hc | Hc];
        [split; [discriminate | intros H; exfalso; tauto]|].
      destruct (String.eqb_spec (toLowerCase (tagName e)) "rect") as [Hr | Hr];
        [split; [discriminate | intros H; exfalso; tauto]|].
      split; [intros Hd; tauto | intros H; tauto].
    + intros _ Hl Hc Hr.
      apply String.eqb_neq in Hl, Hc, Hr. now rewrite Hl, Hc, Hr.
  - split; [|discriminate].
    split; [intros _ | reflexivity].
    destruct Hfalse as [Hfalse _]. specialize (Hfalse eq_refl). tauto.
Qed.

Lemma strokeToOutline_null_witness :
  strokeToOutline example_host stroked_path = Some "M5 12h14".
Proof.
  apply (proj2 (strokeToOutline_null example_host stroked_path));
    [reflexivity | discriminate | discriminate | discriminate].
Defined.

(** C6, as stated, fails: a circle whose stroke attribute is present and
    empty has a stroke that is neither none nor transparent, and counts as
    stroked for the classification, yet it is given no outline. *)
Lemma C6_counterexample :
  toLowerCase (tagName empty_stroke_circle) = "circle"
  /\ getAttribute empty_stroke_circle "stroke" = Some EmptyString
  /\ has_stroke empty_stroke_circle = true
  /\ forall host, strokeToOutline host empty_stroke_circle = None.
Proof.
  refine (conj _ (conj _ (conj _ _))); try reflexivity.
Qed.

(** C6, amended: for a circle whose stroke is present, not empty, not none and not
    transparent, the outline is one disc of radius [r + w/2] when
    [r - w/2 <= 0], and otherwise two circular sub-paths about the same
    centre, the outer of radius [r + w/2] swept one way and the inner of
    radius [r - w/2] swept the other way. *)
Theorem circle_outline_shape (host : Numerics) (e : Element) (s : string) :
  toLowerCase (tagName e) = "circle" ->
  getAttribute e "stroke" = Some s ->
  s <> EmptyString -> s <> "none" -> s <> "transparent" ->
  let cx := attr_number host e "cx" "0" in
  let cy := attr_number host e "cy" "0" in
  let r := attr_number host e "r" "0" in
  let w := parseFloat host (or_default (getAttribute e "stroke-width") "1") in
  strokeToOutline host e =
  Some (if (r - w / 2 <=? 0)%float
        then circle_subpath host cx cy (r + w / 2) "1"
        else circle_subpath host cx cy (r + w / 2) "1" ++ " "
             ++ circle_subpath host cx cy (r - w / 2) "0").
Proof.
  intros Htag Hstroke He Hn Ht. cbv zeta.
  unfold strokeToOutline.
  rewrite Hstroke, (convertible_stroke_true s He Hn Ht), Htag. simpl.
  unfold circle_outline. rewrite Math_max_zero_leb.
  destruct (_ <=? 0)%float eqn:Hle; [reflexivity|].
  now rewrite (Math_max_zero_above _ Hle).
Qed.

Lemma circle_outline_shape_witness :
  strokeToOutline example_host ring_circle
  = Some ("M 12 1 A 11 11 0 1 1 12 23 A 11 11 0 1 1 12 1 Z "
          ++ "M 12 3 A 9 9 0 1 0 12 21 A 9 9 0 1 0 12 3 Z")
  /\ strokeToOutline example_host dot_circle
     = Some "M 12 10 A 2 2 0 1 1 12 14 A 2 2 0 1 1 12 10 Z".
Proof.
  split.
  - rewrite (circle_outline_shape example_host ring_circle "#000");
      [reflexivity | reflexivity | reflexivity | discriminate ..].
  - rewrite (circle_outline_shape example_host dot_circle "#000");
      [reflexivity | reflexivity | reflexivity | discriminate ..].
Defined.

Lemma prefix_iff (p s : string) :
  has_prefix p s = true <-> exists rest, s = p ++ rest.
Proof.
  revert s. induction p as [|a p IH]; intros s; simpl.
  - split; [intros _; now exists s | reflexivity].
  - destruct s as [|b s].
    + split; [discriminate | now intros [rest H]].
    + destruct (Ascii.eqb_spec a b) as [<- | Hab]; simpl.
      * rewrite IH. split; intros [rest H]; exists rest; [now rewrite H | now inversion H].
      * split; [discriminate|]. intros [rest H]. simpl in H. congruence.
Qed.

(** ** What a match of the text strategy begins with *)

Lemma append_empty_r (s : string) : s ++ EmptyString = s.
Proof. induction s as [|c s IH]; simpl; [reflexivity | now rewrite IH]. Qed.

Lemma append_assoc (a b c : string) : (a ++ b) ++ c = a ++ b ++ c.
Proof. induction a as [|x a IH]; simpl; [reflexivity | now rewrite IH]. Qed.

Lemma includes_char_cons (c d : ascii) (s : string) :
  includes (String c s) (String d EmptyString)
  = Ascii.eqb d c || includes s (String d EmptyString).
Proof.
  cbn [includes has_prefix]. rewrite andb_true_r.
  now destruct (Ascii.eqb d c).
Qed.

Lemma strip_prefix_app (p s rest : string) :
  strip_prefix p s = Some rest -> s = p ++ rest.
Proof.
  revert s. induction p as [|a p IH]; intros s H; simpl in H.
  - now inversion H.
  - destruct s as [|b s]; [discriminate|].
    destruct (Ascii.eqb_spec a b) as [<- | _]; [|discriminate].
    simpl. now rewrite (IH s H).
Qed.

Lemma append_length (a b : string) :
  String.length (a ++ b) = String.length a + String.length b.
Proof. induction a as [|c a IH]; simpl; [reflexivity | now rewrite IH]. Qed.

(** The matcher hands to its continuation a string no longer than the one
    it started from. *)
Lemma star_not_shorter {A : Type} (c : ascii) (s : string)
    (k : string -> option A) (x : A) :
  star_not c s k = Some x ->
  exists s', String.length s' <= String.length s /\ k s' = Some x.
Proof.
  induction s as [|y s IH]; simpl; intros H.
  - now exists EmptyString.
  - destruct (Ascii.eqb y c).
    + now exists (String y s).
    + destruct (star_not c s k) as [r|] eqn:Hs.
      * destruct (IH H) as [s' [Hlen Hk]]. exists s'. split; [lia | exact Hk].
      * now exists (String y s).
Qed.

Lemma rmatch_shorter (r : regex) :
  forall (A : Type) (s : string) (caps : list string)
         (k : string -> list string -> option A) (x : A),
    rmatch r A s caps k = Some x ->
    exists s' caps', String.length s' <= String.length s /\ k s' caps' = Some x.
Proof.
  induction r as [l | c | c | a IHa b IHb | a IHa b IHb | a IHa | a IHa];
    intros A s caps k x H; simpl in H.
  - destruct (strip_prefix l s) as [s'|] eqn:Hl; [|discriminate].
    exists s', caps. split; [|exact H].
    rewrite (strip_prefix_app _ _ _ Hl), append_length. lia.
  - destruct (star_not_shorter _ _ _ _ H) as [s' [Hlen Hk]]. now exists s', caps.
  - destruct s as [|y s]; [discriminate|].
    destruct (Ascii.eqb y c); [discriminate|].
    destruct (star_not_shorter _ _ _ _ H) as [s' [Hlen Hk]].
    exists s', caps. split; [simpl; lia | exact Hk].
  - destruct (IHa _ _ _ _ _ H) as [s1 [caps1 [Hlen1 H1]]].
    destruct (IHb _ _ _ _ _ H1) as [s2 [caps2 [Hlen2 H2]]].
    exists s2, caps2. split; [lia | exact H2].
  - destruct (rmatch a A s caps k) as [y|] eqn:Ha.
    + inversion H; subst. exact (IHa _ _ _ _ _ Ha).
    + exact (IHb _ _ _ _ _ H).
  - destruct (IHa _ _ _ _ _ H) as [s1 [caps1 [Hlen1 H1]]].
    now exists s1, (caps1 ++ [consumed s s1])%list.
  - destruct (rmatch a unit s caps (fun _ _ => Some tt)); [discriminate|].
    now exists s, caps.
Qed.

Lemma substring_prefix (l t : string) (n : nat) :
  String.length l <= n -> has_prefix l (String.substring 0 n (l ++ t)) = true.
Proof.
  revert n. induction l as [|c l IH]; intros n Hn; [reflexivity|].
  destruct n as [|n]; simpl in Hn; [lia|].
  simpl. rewrite Ascii.eqb_refl. apply IH. lia.
Qed.

Lemma consumed_prefix (l t s' : string) :
  String.length s' <= String.length t ->
  has_prefix l (consumed (l ++ t) s') = true.
Proof.
  intros Hlen. unfold consumed. apply substring_prefix.
  rewrite append_length. lia.
Qed.

Lemma rmatch_seq_lit (l : string) (r : regex) (A : Type) (s : string)
    (caps : list string) (k : string -> list string -> option A) (x : A) :
  rmatch (Seq (Lit l) r) A s caps k = Some x ->
  exists s', s = l ++ s' /\ rmatch r A s' caps k = Some x.
Proof.
  cbn [rmatch]. intros H.
  destruct (strip_prefix l s) as [s'|] eqn:Hl; [|discriminate].
  exists s'. split; [exact (strip_prefix_app _ _ _ Hl) | exact H].
Qed.

Lemma rmatch_seq_alt (a b r : regex) (A : Type) (s : string)
    (caps : list string) (k : string -> list string -> option A) (x : A) :
  rmatch (Seq (Alt a b) r) A s caps k = Some x ->
  rmatch (Seq a r) A s caps k = Some x \/ rmatch (Seq b r) A s caps k = Some x.
Proof.
  cbn [rmatch]. intros H.
  destruct (rmatch a A s caps _) as [y|]; [left | right]; exact H.
Qed.

(** A match of a pattern that opens with a literal opens with that
    literal. *)
Lemma exec_here_literal (l : string) (r : regex) (t m rest : string)
    (caps : list string) :
  exec_here (Seq (Lit l) r) t = Some (m, caps, rest) -> has_prefix l m = true.
Proof.
  unfold exec_here. intros H.
  destruct (rmatch_seq_lit _ _ _ _ _ _ _ H) as [t' [Ht Hr]].
  destruct (rmatch_shorter _ _ _ _ _ _ Hr) as [s' [caps' [Hlen Hk]]].
  inversion Hk; subst. now apply consumed_prefix.
Qed.

(** The same for two literals in a row. *)
Lemma exec_here_literals (l1 l2 : string) (r : regex) (t m rest : string)
    (caps : list string) :
  rmatch (Seq (Lit l1) (Seq (Lit l2) r)) _ t []
         (fun s' caps' => Some (consumed t s', caps', s')) = Some (m, caps, rest) ->
  has_prefix (l1 ++ l2) m = true.
Proof.
  intros H.
  destruct (rmatch_seq_lit _ _ _ _ _ _ _ H) as [t1 [Ht1 H1]].
  destruct (rmatch_seq_lit _ _ _ _ _ _ _ H1) as [t2 [Ht2 H2]].
  destruct (rmatch_shorter _ _ _ _ _ _ H2) as [s' [caps' [Hlen Hk]]].
  inversion Hk; subst. rewrite <- append_assoc. now apply consumed_prefix.
Qed.

Lemma has_prefix_app (a b s : string) :
  has_prefix (a ++ b) s = true -> has_prefix a s = true.
Proof.
  rewrite !prefix_iff. intros [rest ->]. exists (b ++ rest). apply append_assoc.
Qed.

Lemma match_all_from_exec (r : regex) (s : string) :
  forall (skip : nat) (m : string),
    In m (match_all_from r skip s) ->
    exists t caps rest, exec_here r t = Some (m, caps, rest).
Proof.
  induction s as [|c s IH]; intros skip m Hin.
  - destruct skip as [|n]; simpl in Hin; [|contradiction].
    destruct (exec_here r EmptyString) as [[[m' caps] rest]|] eqn:He; [|contradiction].
    destruct Hin as [<- | []]. now exists EmptyString, caps, rest.
  - destruct skip as [|n]; simpl in Hin; [|exact (IH _ _ Hin)].
    destruct (exec_here r (String c s)) as [[[m' caps] rest]|] eqn:He.
    + destruct Hin as [<- | Hin]; [now exists (String c s), caps, rest|].
      exact (IH _ _ Hin).
    + exact (IH _ _ Hin).
Qed.

Lemma match_all_tag_prefix (name markup m : string) :
  In m (match_all (re_tag name) markup) -> has_prefix ("<" ++ name) m = true.
Proof.
  intros Hin. destruct (match_all_from_exec _ _ _ _ Hin) as [t [caps [rest He]]].
  exact (exec_here_literal _ _ _ _ _ _ He).
Qed.

(** A match of the fourth pattern opens with [<e], [<l] or [<p]. *)
Lemma match_all_other_prefix (markup m : string) :
  In m (match_all re_other markup) ->
  has_prefix "<e" m = true \/ has_prefix "<l" m = true \/ has_prefix "<p" m = true.
Proof.
  intros Hin. destruct (match_all_from_exec _ _ _ _ Hin) as [t [caps [rest He]]].
  unfold exec_here, re_other in He.
  destruct (rmatch_seq_lit _ _ _ _ _ _ _ He) as [t1 [Ht1 H1]]. subst t.
  assert (Hlits : forall lit r,
             rmatch (Seq (Lit lit) r) _ t1 []
                    (fun s' caps' => Some (consumed ("<" ++ t1) s', caps', s'))
             = Some (m, caps, rest) ->
             has_prefix ("<" ++ lit) m = true).
  { intros lit r H. apply (exec_here_literals "<" lit r ("<" ++ t1) m rest caps).
    cbn [rmatch] in H |- *. cbn [strip_prefix append].
    rewrite Ascii.eqb_refl. exact H. }
  apply rmatch_seq_alt in H1. destruct H1 as [H1 | H1].
  { left. apply (has_prefix_app "<e" "llipse"). exact (Hlits _ _ H1). }
  apply rmatch_seq_alt in H1. destruct H1 as [H1 | H1].
  { right. left. apply (has_prefix_app "<l" "ine"). exact (Hlits _ _ H1). }
  apply rmatch_seq_alt in H1. destruct H1 as [H1 | H1].
  { right. right. apply (has_prefix_app "<p" "olygon"). exact (Hlits _ _ H1). }
  right. right. apply (has_prefix_app "<p" "olyline"). exact (Hlits _ _ H1).
Qed.

(** ** Helper filtering *)

Lemma is_str_iff (value : option string) (lit : string) :
  is_str value lit = true <-> value = Some lit.
Proof.
  destruct value as [v|]; simpl.
  - rewrite String.eqb_eq. split; [now intros -> | now intros [= ->]].
  - split; discriminate.
Qed.

Lemma or_default_empty (s : string) : or_default (Some s) EmptyString = s.
Proof. now destruct s. Qed.

(** The lower-cased text of an attribute mentions one of the helper words. *)
Lemma helper_word_iff (e : Element) (name : string) :
  let text := or_default (option_map toLowerCase (getAttribute e name)) EmptyString in
  includes text "helper" || includes text "background" || includes text "bg" = true <->
  exists v kw,
    getAttribute e name = Some v /\ In kw ["helper"; "background"; "bg"]
    /\ includes (toLowerCase v) kw = true.
Proof.
  cbv zeta. destruct (getAttribute e name) as [v|]; simpl option_map.
  - rewrite or_default_empty, !orb_true_iff. split.
    + intros [[H | H] | H]; exists v;
        [exists "helper" | exists "background" | exists "bg"];
        (split; [reflexivity|]); (split; [simpl; tauto | exact H]).
    + intros [v' [kw [[= <-] [Hin H]]]].
      destruct Hin as [<- | [<- | [<- | []]]]; tauto.
  - split; [discriminate|]. now intros [v [kw [H _]]].
Qed.

Lemma isHelperElement_iff (e : Element) :
  isHelperElement e = true <->
  (toLowerCase (tagName e) = "rect" /\
   (getAttribute e "fill" = Some "#ffffff" \/ getAttribute e "fill" = Some "white"
    \/ getAttribute e "fill" = Some "#fff"))
  \/ (toLowerCase (tagName e) = "rect" /\
      getAttribute e "width" = Some "24" /\ getAttribute e "height" = Some "24")
  \/ (exists v kw,
        (getAttribute e "id" = Some v \/ getAttribute e "class" = Some v)
        /\ In kw ["helper"; "background"; "bg"]
        /\ includes (toLowerCase v) kw = true).
Proof.
  assert (Hwords :
    (let id := or_default (option_map toLowerCase (getAttribute e "id")) EmptyString in
     let className :=
       or_default (option_map toLowerCase (getAttribute e "class")) EmptyString in
     includes id "helper" || includes id "background" || includes id "bg"
     || includes className "helper" || includes className "background"
     || includes className "bg") = true <->
    exists v kw,
      (getAttribute e "id" = Some v \/ getAttribute e "class" = Some v)
      /\ In kw ["helper"; "background"; "bg"]
      /\ includes (toLowerCase v) kw = true).
  { cbv zeta.
    pose proof (helper_word_iff e "id") as Hid.
    pose proof (helper_word_iff e "class") as Hclass.
    cbv zeta in Hid, Hclass.
    rewrite <- !orb_assoc in *.
    rewrite orb_assoc, (orb_assoc (includes _ "helper") (includes _ "background")).
    rewrite <- !orb_assoc.
    set (a := includes _ "helper" || (includes _ "background" || includes _ "bg")) in Hid.
    set (b := includes _ "helper" || (includes _ "background" || includes _ "bg")) in Hclass.
    replace (_ || _) with (a || b)
      by (unfold a, b; now rewrite <- !orb_assoc).
    rewrite orb_true_iff, Hid, Hclass. split.
    - intros [[v [kw [H1 H2]]] | [v [kw [H1 H2]]]]; exists v, kw; tauto.
    - intros [v [kw [[H1 | H1] H2]]]; [left | right]; exists v, kw; tauto. }
  unfold isHelperElement. cbv zeta.
  destruct (String.eqb_spec (toLowerCase (tagName e)) "rect") as [Hrect | Hrect].
  - destruct (is_str (getAttribute e "fill") "#ffffff"
              || is_str (getAttribute e "fill") "white"
              || is_str (getAttribute e "fill") "#fff") eqn:Hfill.
    { split; [intros _ | reflexivity]. left. split; [exact Hrect|].
      rewrite !orb_true_iff, !is_str_iff in Hfill. tauto. }
    destruct (is_str (getAttribute e "width") "24"
              && is_str (getAttribute e "height") "24") eqn:Hsize.
    { split; [intros _ | reflexivity]. right. left. split; [exact Hrect|].
      rewrite andb_true_iff, !is_str_iff in Hsize. exact Hsize. }
    match goal with |- (if ?c then true else false) = true <-> _ =>
      replace (if c then true else false) with c by now destruct c end.
    rewrite Hwords. split; [tauto|].
    intros [[_ H] | [[_ H] | H]]; [| | exact H]; exfalso.
    + rewrite <- !is_str_iff, <- !orb_true_iff, orb_assoc in H. congruence.
    + rewrite <- !is_str_iff, <- andb_true_iff in H. congruence.
  - match goal with |- (if ?c then true else false) = true <-> _ =>
      replace (if c then true else false) with c by now destruct c end.
    rewrite Hwords. split; [tauto|].
    intros [[H _] | [[H _] | H]]; [contradiction | contradiction | exact H].
Qed.

Lemma filter_filter_sub {A : Type} (f g : A -> bool) (l : list A) :
  (forall x, f x = true -> g x = true) ->
  filter f (filter g l) = filter f l.
Proof.
  intros Hsub. induction l as [|x l IH]; simpl; [reflexivity|].
  destruct (g x) eqn:Hg; simpl.
  - now rewrite IH.
  - destruct (f x) eqn:Hf; [|exact IH].
    apply Hsub in Hf. congruence.
Qed.

Lemma mainElementsOf_without_helpers (svg : Element) :
  mainElementsOf (without_helpers svg) = mainElementsOf svg.
Proof.
  unfold mainElementsOf, without_helpers. simpl children.
  rewrite !filter_filter_sub; [reflexivity | |].
  - intros x H. exact H.
  - intros x H. now destruct (isHelperElement x).
Qed.

Lemma mainElementsOf_not_helper (svg e : Element) :
  In e (mainElementsOf svg) -> isHelperElement e = false.
Proof.
  unfold mainElementsOf.
  set (main := filter _ (children svg)).
  assert (Hmain : In e main -> isHelperElement e = false).
  { unfold main. rewrite filter_In. intros [_ H]. now destruct (isHelperElement e). }
  destruct (List.length main =? 0)%nat; [|exact Hmain].
  rewrite in_app_iff, filter_In. intros [H | [_ H]]; [now apply Hmain|].
  now destruct (isHelperElement e).
Qed.

(** C4, as stated, fails under the text strategy, which does not call
    [isHelperElement]: a stroked path whose id is bg is a helper, and it is
    emitted and makes the icon not flat, where the same document without it
    is flat. *)
Lemma C4_counterexample :
  isHelperElement bg_path = true
  /\ In bg_path (children helper_path_tree)
  /\ (exists icon,
        processSvgToReact None (JsString helper_path_markup) (JsString "arrow-right")
        = Normal icon /\
        includes (jsx icon) (att "id" "bg") = true /\
        isSinglePath icon = false)
  /\ (exists icon,
        processSvgToReact None (JsString single_path_markup) (JsString "arrow-right")
        = Normal icon /\
        includes (jsx icon) (att "id" "bg") = false /\
        isSinglePath icon = true).
Proof.
  refine (conj _ (conj _ (conj _ _))).
  - reflexivity.
  - right. now left.
  - eexists. split; [reflexivity|]. split; reflexivity.
  - eexists. split; [reflexivity|]. split; reflexivity.
Qed.

Lemma keep_rect_iff (el : string) :
  keep_rect el = true
  <-> includes el (att "fill" "#ffffff") = false
      /\ includes el (att "fill" "white") = false
      /\ includes el (att "fill" "#fff") = false
      /\ (includes el (att "width" "24") = false
          \/ includes el (att "height" "24") = false).
Proof.
  unfold keep_rect.
  destruct (includes el (att "fill" "#ffffff")); cbn [orb].
  { split; [discriminate | now intros [H _]]. }
  destruct (includes el (att "fill" "white")); cbn [orb].
  { split; [discriminate | now intros [_ [H _]]]. }
  destruct (includes el (att "fill" "#fff")); cbn [orb].
  { split; [discriminate | now intros [_ [_ [H _]]]]. }
  destruct (includes el (att "width" "24")); cbn [andb].
  - destruct (includes el (att "height" "24")).
    + split; [discriminate | intros [_ [_ [_ [H | H]]]]; discriminate H].
    + split; [intros _ | reflexivity]. repeat split. now right.
  - split; [intros _ | reflexivity]. repeat split. now left.
Qed.

(** C4, amended: [isHelperElement] answers true exactly for a rect filled
    #ffffff, white or #fff, for a rect whose width and height are both 24,
    and for an element whose id or class mentions helper, background or bg
    in any letter case.  Under the structured strategy a helper is never
    among the principal elements, and the view box, the emitted markup and
    the classification are those of the document with its helpers removed.
    The text strategy has a filter of its own: of the self-closing tags it
    matches it drops exactly the rect tags whose text spells one of the
    three white fills or both dimensions 24, in double quotes; every other
    matched tag is emitted and classified. *)
Theorem helper_classification :
  (forall e : Element,
      isHelperElement e = true <->
      (toLowerCase (tagName e) = "rect" /\
       (getAttribute e "fill" = Some "#ffffff" \/ getAttribute e "fill" = Some "white"
        \/ getAttribute e "fill" = Some "#fff"))
      \/ (toLowerCase (tagName e) = "rect" /\
          getAttribute e "width" = Some "24" /\ getAttribute e "height" = Some "24")
      \/ (exists v kw,
            (getAttribute e "id" = Some v \/ getAttribute e "class" = Some v)
            /\ In kw ["helper"; "background"; "bg"]
            /\ includes (toLowerCase v) kw = true))
  /\ (forall svg e : Element, In e (mainElementsOf svg) -> isHelperElement e = false)
  /\ (forall svg : Element, dom_extract (without_helpers svg) = dom_extract svg)
  /\ (forall (markup el : string),
         In el (allElementsOf markup) ->
         startsWith el "<rect" = true ->
         includes el (att "fill" "#ffffff") = false
         /\ includes el (att "fill" "white") = false
         /\ includes el (att "fill" "#fff") = false
         /\ (includes el (att "width" "24") = false
             \/ includes el (att "height" "24") = false))
  /\ (forall (markup el : string),
         In el (allElementsOf markup) <->
         In el (match_all (re_tag "path") markup)
         \/ In el (match_all (re_tag "circle") markup)
         \/ (In el (match_all (re_tag "rect") markup)
             /\ includes el (att "fill" "#ffffff") = false
             /\ includes el (att "fill" "white") = false
             /\ includes el (att "fill" "#fff") = false
             /\ (includes el (att "width" "24") = false
                 \/ includes el (att "height" "24") = false))
         \/ In el (match_all re_other markup))
  /\ (forall (domParser : option DomParser) (markup name : string),
         structured domParser markup = None ->
         exists icon,
           processSvgToReact domParser (JsString markup) (JsString name) = Normal icon /\
           childElements (text_extract markup)
           = join child_separator (map text_render_element (allElementsOf markup)) /\
           jsx icon = jsx_template (viewBox (text_extract markup))
                                   (childElements (text_extract markup)) /\
           isSinglePath icon = text_flatness (allElementsOf markup)).
Proof.
  split; [exact isHelperElement_iff|].
  split; [exact mainElementsOf_not_helper|].
  split; [|split; [|split]].
  - intros svg. unfold dom_extract.
    now rewrite mainElementsOf_without_helpers.
  - intros markup el Hin Hrect.
    assert (Hclash : forall c : ascii,
               c <> "r"%char -> has_prefix (String "<" (String c EmptyString)) el <> true).
    { intros c Hc Hp. unfold startsWith in Hrect.
      apply prefix_iff in Hp, Hrect. destruct Hp as [r1 ->], Hrect as [r2 H].
      inversion H. contradiction. }
    unfold allElementsOf in Hin. rewrite !in_app_iff in Hin.
    destruct Hin as [Hin | [Hin | [Hin | Hin]]].
    { apply match_all_tag_prefix in Hin.
      apply (has_prefix_app "<p" "ath") in Hin. now apply Hclash in Hin. }
    { apply match_all_tag_prefix in Hin.
      apply (has_prefix_app "<c" "ircle") in Hin. now apply Hclash in Hin. }
    2: { apply match_all_other_prefix in Hin.
         destruct Hin as [Hin | [Hin | Hin]]; now apply Hclash in Hin. }
    apply filter_In in Hin. destruct Hin as [_ Hkeep].
    now apply keep_rect_iff.
  - intros markup el. unfold allElementsOf.
    rewrite !in_app_iff, filter_In, keep_rect_iff. tauto.
  - intros domParser markup name Hdoc.
    eexists. split; [exact (process_text _ _ _ Hdoc)|].
    split; [reflexivity|]. split; reflexivity.
Qed.

Lemma helper_classification_witness :
  isHelperElement (mkElement "rect" [("width", "24"); ("height", "24"); ("fill", "#ffffff")] [])
  = true
  /\ isHelperElement (mkElement "circle" [("id", "Icon-BG"); ("r", "4")] []) = true
  /\ isHelperElement filled_path = false.
Proof.
  split; [|split].
  - apply (proj1 helper_classification). left. split; [reflexivity | now left].
  - apply (proj1 helper_classification). right. right.
    exists "Icon-BG", "bg". split; [now left|]. split; [simpl; tauto | reflexivity].
  - apply (proj1 (proj2 helper_classification) arrow_tree). simpl. now left.
Defined.

(** ** Paint normalisation *)




(** *** The rewrite of the text strategy *)























(** The prefix test of the text strategy: a double-quoted fill that merely
    begins with the letters of none is left alone there, and replaced under
    the structured strategy. *)
Example paint_prefix_divergence :
  text_render_element ("<circle " ++ att "r" "4" ++ " " ++ att "fill" "nonexistent" ++ "/>")
  = "<circle " ++ att "r" "4" ++ " " ++ att "fill" "nonexistent" ++ "/>"
  /\ render_element (mkElement "circle" [("r", "4"); ("fill", "nonexistent")] [])
     = "<circle " ++ att "r" "4" ++ " " ++ att "fill" "currentColor" ++ " />".
Proof. split; reflexivity. Qed.

(** The pattern is not anchored at the start of an attribute name: a name
    that ends in fill or stroke has its double-quoted value replaced by the
    text strategy, and kept by the structured one. *)
Example paint_longer_names :
  text_render_element ("<circle " ++ att "r" "4" ++ " " ++ att "data-fill" "red" ++ "/>")
  = "<circle " ++ att "r" "4" ++ " " ++ att "data-fill" "currentColor" ++ "/>"
  /\ render_element (mkElement "circle" [("r", "4"); ("data-fill", "red")] [])
     = "<circle " ++ att "r" "4" ++ " " ++ att "data-fill" "red" ++ " />".
Proof. split; reflexivity. Qed.

(** A kept value that ends in fill= lends its closing quote to the
    pattern: this is why the rule for kept values leaves such values out. *)
Example paint_kept_value_tail :
  text_paint ("<circle " ++ att "stroke" "none fill=" ++ " x=" ++ dq ++ "y" ++ dq ++ "/>")
  = "<circle stroke=" ++ dq ++ "none " ++ att "fill" "currentColor" ++ "y" ++ dq ++ "/>".
Proof. reflexivity. Qed.

(** ** Component names and the arrow scenario *)

Lemma split_hyphen (rest : string) :
  split "-" ("-" ++ rest) = EmptyString :: split "-" rest.
Proof. reflexivity. Qed.

Lemma split_nonempty (sep : ascii) (s : string) : split sep s <> [].
Proof.
  destruct s as [|c s]; simpl; [discriminate|].
  destruct (Ascii.eqb c sep); [discriminate|].
  destruct (split sep s); discriminate.
Qed.

(** A piece without hyphen joins the first piece of what follows. *)
Lemma split_prepend (p rest : string) :
  includes p "-" = false ->
  split "-" (p ++ rest) =
  match split "-" rest with
  | [] => [p]
  | q :: qs => (p ++ q) :: qs
  end.
Proof.
  induction p as [|c p IH]; intros Hp.
  - simpl. destruct (split "-" rest) eqn:Hs; [|reflexivity].
    now apply split_nonempty in Hs.
  - rewrite includes_char_cons in Hp. apply orb_false_iff in Hp.
    destruct Hp as [Hc Hp]. rewrite Ascii.eqb_sym in Hc.
    cbn [append split]. rewrite Hc, (IH Hp).
    now destruct (split "-" rest).
Qed.

Lemma split_join (segs : list string) :
  segs <> [] ->
  Forall (fun seg => includes seg "-" = false) segs ->
  split "-" (join "-" segs) = segs.
Proof.
  induction segs as [|p segs IH]; intros Hne Hall; [contradiction|].
  inversion Hall as [|? ? Hp Hrest]; subst.
  destruct segs as [|q segs].
  - simpl. rewrite <- (append_empty_r p) at 1.
    rewrite (split_prepend p EmptyString Hp). simpl. now rewrite append_empty_r.
  - change (join "-" (p :: q :: segs)) with (p ++ "-" ++ join "-" (q :: segs)).
    rewrite (split_prepend p _ Hp), split_hyphen, append_empty_r.
    now rewrite IH.
Qed.

(** C8: the sample markup with a white 24 by 24 backing rect and one black
    path, named arrow-right, gives the component ArrowRightIcon, markup
    without any rect, the path with its fill replaced by currentColor, and
    [isSinglePath] true, under either strategy.  In general the name is made
    of the hyphen-separated segments, each with its first letter in upper
    case, followed by Icon. *)
Theorem arrow_right_scenario :
  (forall domParser : option DomParser,
      structured domParser arrow_markup = Some arrow_tree
      \/ structured domParser arrow_markup = None ->
      exists icon,
        processSvgToReact domParser (JsString arrow_markup) (JsString "arrow-right")
        = Normal icon /\
        componentName icon = "ArrowRightIcon" /\
        jsx icon = jsx_template "0 0 24 24"
                     ("<path" ++ nl ++ "          " ++ att "d" "M5 12h14"
                      ++ nl ++ "          " ++ att "fill" "currentColor"
                      ++ nl ++ "        />") /\
        previewSvg icon = preview_template "0 0 24 24"
                     ("<path" ++ nl ++ "          " ++ att "d" "M5 12h14"
                      ++ nl ++ "          " ++ att "fill" "currentColor"
                      ++ nl ++ "        />") /\
        includes (jsx icon) "<rect" = false /\
        includes (previewSvg icon) "<rect" = false /\
        includes (reactCode icon) "<rect" = false /\
        isSinglePath icon = true)
  /\ (forall segs : list string,
         segs <> [] ->
         Forall (fun seg => includes seg "-" = false) segs ->
         getComponentName (join "-" segs)
         = join EmptyString (map capitalize segs) ++ "Icon")
  /\ (forall (c : ascii) (rest : string),
         capitalize (String c rest) = String (upper_char c) rest)
  /\ capitalize EmptyString = EmptyString.
Proof.
  split; [|split; [|split]].
  - intros domParser [Hdoc | Hdoc]; eexists.
    + split; [exact (process_structured _ _ _ _ Hdoc)|].
      vm_compute. repeat split.
    + split; [exact (process_text _ _ _ Hdoc)|].
      vm_compute. repeat split.
  - intros segs Hne Hall. unfold getComponentName. now rewrite split_join.
  - reflexivity.
  - reflexivity.
Qed.

Lemma arrow_right_scenario_witness :
  (exists icon,
      processSvgToReact (Some sample_parser) (JsString arrow_markup)
                        (JsString "arrow-right") = Normal icon /\
      componentName icon = "ArrowRightIcon" /\ isSinglePath icon = true)
  /\ (exists icon,
         processSvgToReact None (JsString arrow_markup) (JsString "arrow-right")
         = Normal icon /\
         componentName icon = "ArrowRightIcon" /\ isSinglePath icon = true)
  /\ getComponentName "chevron-double-left" = "ChevronDoubleLeftIcon".
Proof.
  split; [|split].
  - destruct (proj1 arrow_right_scenario (Some sample_parser) (or_introl eq_refl))
      as [icon [Hrun [Hname [_ [_ [_ [_ [_ Hflat]]]]]]]].
    exists icon. now repeat split.
  - destruct (proj1 arrow_right_scenario None (or_intror eq_refl))
      as [icon [Hrun [Hname [_ [_ [_ [_ [_ Hflat]]]]]]]].
    exists icon. now repeat split.
  - apply (proj1 (proj2 arrow_right_scenario) ["chevron"; "double"; "left"]).
    + discriminate.
    + repeat constructor.
Defined.

(** ** The two renderings *)

(** Every pair of strings goes through the main branch, with one view box
    and one child-element list for both renderings. *)
Lemma process_strings (domParser : option DomParser) (markup name : string) :
  exists ex,
    processSvgToReact domParser (JsString markup) (JsString name)
    = Normal (assemble (getComponentName name) ex).
Proof.
  destruct (structured domParser markup) as [svg|] eqn:Hdoc.
  - exists (dom_extract svg). exact (process_structured _ _ _ _ Hdoc).
  - exists (text_extract markup). exact (process_text _ _ _ Hdoc).
Qed.

(** C9, as stated, fails twice.  A view box that spells a token puts the
    token in the preview; and in the error-fallback branch, reached here by a
    caller that passes [undefined] for the markup, the preview is the
    embeddable rendering itself, tokens included and without the fixed
    dimensions. *)
Lemma C9_counterexample :
  (exists icon,
      processSvgToReact None (JsString token_markup) (JsString "arrow-right")
      = Normal icon /\
      includes (previewSvg icon) "{ref}" = true)
  /\ (exists icon,
         processSvgToReact None JsUndefined (JsString "arrow-right") = Normal icon /\
         previewSvg icon = jsx icon /\
         includes (previewSvg icon) "{size || 24}" = true /\
         includes (previewSvg icon) (att "width" "24") = false).
Proof.
  split; eexists; (split; [reflexivity|]); vm_compute; repeat split.
Qed.

(** C9, amended: for every pair of strings, none of which takes the
    error-fallback branch, the preview is a fixed frame around the view box
    and the child-element list, the frame carrying width 24 and height 24
    and none of the four placeholder tokens; the embeddable rendering is a
    frame around the same view box and the same child-element list, and
    that frame carries each of the four tokens. *)
Theorem two_renderings :
  (forall (domParser : option DomParser) (markup name : string),
      exists icon box emitted,
        processSvgToReact domParser (JsString markup) (JsString name) = Normal icon /\
        previewSvg icon = preview_template box emitted /\
        jsx icon = jsx_template box emitted)
  /\ (exists head mid tail : string,
         (forall box emitted,
             preview_template box emitted = head ++ box ++ mid ++ emitted ++ tail)
         /\ includes head (att "width" "24") = true
         /\ includes head (att "height" "24") = true
         /\ forall token part,
             In token placeholder_tokens -> In part [head; mid; tail] ->
             includes part token = false)
  /\ (exists head mid tail : string,
         (forall box emitted,
             jsx_template box emitted = head ++ box ++ mid ++ emitted ++ tail)
         /\ forall token,
             In token placeholder_tokens ->
             includes head token = true \/ includes mid token = true).
Proof.
  split; [|split].
  - intros domParser markup name.
    destruct (process_strings domParser markup name) as [ex Hrun].
    exists (assemble (getComponentName name) ex), (viewBox ex), (childElements ex).
    split; [exact Hrun|]. split; reflexivity.
  - exists (lines [ "<svg"; "        " ++ att "width" "24"; "        " ++ att "height" "24";
                    "        viewBox=" ++ dq ]),
           (lines [ dq; "        " ++ att "fill" "currentColor";
                    "        " ++ att "xmlns" "http://www.w3.org/2000/svg";
                    "        " ++ att "aria-hidden" "true"; "      >"; "        " ]),
           (nl ++ "      </svg>").
    split; [|split; [|split]].
    + intros box emitted. unfold preview_template, lines. cbn [join].
      rewrite !append_assoc. reflexivity.
    + reflexivity.
    + reflexivity.
    + intros token part Htoken Hpart.
      destruct Htoken as [<- | [<- | [<- | [<- | []]]]];
        destruct Hpart as [<- | [<- | [<- | []]]]; reflexivity.
  - exists (lines [ "<svg"; "        width={size || 24}"; "        height={size || 24}";
                    "        viewBox=" ++ dq ]),
           (lines [ dq; "        " ++ att "fill" "currentColor";
                    "        " ++ att "xmlns" "http://www.w3.org/2000/svg";
                    "        className={className}";
                    "        " ++ att "aria-hidden" "true";
                    "        ref={ref}"; "        {...props}"; "      >"; "        " ]),
           (nl ++ "      </svg>").
    split.
    + intros box emitted. unfold jsx_template, lines. cbn [join].
      rewrite !append_assoc. reflexivity.
    + intros token Htoken.
      destruct Htoken as [<- | [<- | [<- | [<- | []]]]];
        [left | right | right | right]; reflexivity.
Qed.

Lemma two_renderings_witness :
  exists icon box emitted,
    processSvgToReact (Some sample_parser) (JsString arrow_markup)
                      (JsString "arrow-right") = Normal icon /\
    previewSvg icon = preview_template box emitted /\
    jsx icon = jsx_template box emitted.
Proof.
  exact (proj1 two_renderings (Some sample_parser) arrow_markup "arrow-right").
Defined.

(** ** Failure mode *)



(** The guarantee stops at the name: [getComponentName] is called again in
    the [catch] block, so a name that is not a string makes the call throw. *)
Remark non_string_name_throws (domParser : option DomParser) (svgContent : JsValue) :
  processSvgToReact domParser svgContent JsUndefined = Throw TypeError.
Proof. reflexivity. Qed.

(** * Further properties *)

Import Flatten Statements.

(** ** Principal elements *)

Lemma isMainIconElement_iff (e : Element) :
  isMainIconElement e = true <->
  In (toLowerCase (tagName e))
     ["path"; "circle"; "ellipse"; "line"; "polygon"; "polyline"].
Proof.
  unfold isMainIconElement. cbv zeta.
  destruct (String.eqb_spec (toLowerCase (tagName e)) "path") as [Hp | Hp].
  - split; [intros _; left; now rewrite Hp | reflexivity].
  - match goal with |- (if ?c then true else false) = true <-> _ =>
      replace (if c then true else false) with c by now destruct c end.
    unfold array_includes. rewrite existsb_exists. split.
    + intros [t [Hin Ht]]. apply String.eqb_eq in Ht. subst t. now right.
    + intros [H | H]; [congruence|].
      exists (toLowerCase (tagName e)). split; [exact H | apply String.eqb_refl].
Qed.

(** X1: the principal elements are a filter of the children of the [svg]
    element, so document order is kept and nothing is repeated: the
    non-helper children with an icon tag when there is one, all non-helper
    children otherwise.  They are empty exactly when every child is a
    helper. *)
Theorem principal_elements_filter (svg : Element) :
  let wanted := fun e => negb (isHelperElement e) && isMainIconElement e in
  mainElementsOf svg =
    (if existsb wanted (children svg) then filter wanted (children svg)
     else filter (fun e => negb (isHelperElement e)) (children svg))
  /\ (mainElementsOf svg = [] <->
      Forall (fun e => isHelperElement e = true) (children svg))
  /\ (forall e, isMainIconElement e = true <->
                In (toLowerCase (tagName e))
                   ["path"; "circle"; "ellipse"; "line"; "polygon"; "polyline"]).
Proof.
  cbv zeta.
  assert (Hext : filter (fun element =>
                           if isHelperElement element then false
                           else isMainIconElement element) (children svg)
                 = filter (fun e => negb (isHelperElement e) && isMainIconElement e)
                          (children svg)).
  { apply filter_ext. intros a. now destruct (isHelperElement a). }
  assert (Hmain : mainElementsOf svg =
    (if existsb (fun e => negb (isHelperElement e) && isMainIconElement e) (children svg)
     then filter (fun e => negb (isHelperElement e) && isMainIconElement e) (children svg)
     else filter (fun e => negb (isHelperElement e)) (children svg))).
  { unfold mainElementsOf. rewrite Hext.
    set (wanted := fun e => negb (isHelperElement e) && isMainIconElement e).
    destruct (existsb wanted (children svg)) eqn:Hex.
    - apply existsb_exists in Hex. destruct Hex as [x [Hin Hx]].
      assert (Hx' : In x (filter wanted (children svg))) by (apply filter_In; now split).
      destruct (filter wanted (children svg)); [contradiction | reflexivity].
    - assert (Hnil : filter wanted (children svg) = []).
      { destruct (filter wanted (children svg)) as [|x l] eqn:Hf; [reflexivity|].
        assert (Hx : In x (filter wanted (children svg))) by (rewrite Hf; now left).
        apply filter_In in Hx. destruct Hx as [Hin Hx].
        assert (existsb wanted (children svg) = true)
          by (apply existsb_exists; now exists x).
        congruence. }
      rewrite Hnil. reflexivity. }
  split; [exact Hmain|]. split; [|exact isMainIconElement_iff].
  rewrite Hmain. split.
  - intros Hnil. apply Forall_forall. intros e Hin.
    destruct (isHelperElement e) eqn:Hh; [reflexivity|]. exfalso.
    destruct (existsb _ (children svg)) eqn:Hex.
    + apply existsb_exists in Hex. destruct Hex as [x [Hx1 Hx2]].
      assert (Hx : In x []) by (rewrite <- Hnil; apply filter_In; now split).
      contradiction.
    + assert (He : In e []) by (rewrite <- Hnil; apply filter_In; split;
                                [exact Hin | now rewrite Hh]).
      contradiction.
  - intros Hall. rewrite Forall_forall in Hall.
    assert (Hnone : forall p : Element -> bool,
               (forall e, p e = true -> isHelperElement e = false) ->
               filter p (children svg) = []).
    { intros p Hp. destruct (filter p (children svg)) as [|x l] eqn:Hf; [reflexivity|].
      assert (Hx : In x (filter p (children svg))) by (rewrite Hf; now left).
      apply filter_In in Hx. destruct Hx as [Hin Hx].
      apply Hp in Hx. rewrite (Hall _ Hin) in Hx. discriminate. }
    destruct (existsb _ (children svg)); apply Hnone; intros e He;
      now destruct (isHelperElement e).
Qed.

(** ** The attribute splitter *)

Lemma fold_chars_app {S : Type} (f : S -> ascii -> S) (a b : string) (st : S) :
  fold_chars f (a ++ b) st = fold_chars f b (fold_chars f a st).
Proof.
  revert st. induction a as [|c a IH]; intros st; simpl; [reflexivity | apply IH].
Qed.

Lemma rev_string_twice (s a1 a2 : string) :
  rev_string a2 (rev_string a1 s) = rev_string (s ++ a2) a1.
Proof.
  revert a1 a2. induction s as [|c s IH]; intros a1 a2; simpl; [reflexivity|].
  now rewrite IH.
Qed.

Lemma rev_string_snoc (s acc : string) (c : ascii) :
  rev_string acc (s ++ String c EmptyString) = String c (rev_string acc s).
Proof.
  revert acc. induction s as [|x s IH]; intros acc; simpl; [reflexivity | apply IH].
Qed.

(** A text that neither begins nor ends with white space is its own trim. *)
Lemma trim_fixed (c d : ascii) (s : string) :
  is_space c = false -> is_space d = false ->
  trim (String c s ++ String d EmptyString) = String c s ++ String d EmptyString.
Proof.
  intros Hc Hd. unfold trim.
  change (String c s ++ String d EmptyString) with (String c (s ++ String d EmptyString)).
  cbn [trimStart]. rewrite Hc.
  change (String c (s ++ String d EmptyString)) with (String c s ++ String d EmptyString).
  rewrite rev_string_snoc. cbn [trimStart]. rewrite Hd.
  rewrite <- rev_string_snoc, rev_string_twice. cbn [rev_string].
  apply append_empty_r.
Qed.

Lemma push_chars (s : string) (c : ascii) (t : string) :
  push_char s c ++ t = s ++ String c t.
Proof. unfold push_char. now rewrite append_assoc. Qed.

(** Outside quotes, characters that are neither a space nor a quote are
    added to the current piece. *)
Lemma split_fold_plain (s : string) :
  (forall c, In c (chars s) ->
             is_space c = false /\ c <> quote_char /\ c <> apostrophe_char) ->
  forall (done : list string) (cur : string),
    fold_chars split_step s (mkSplitState done cur false None)
    = mkSplitState done (cur ++ s) false None.
Proof.
  induction s as [|c s IH]; intros Hs done cur; simpl.
  - now rewrite append_empty_r.
  - destruct (Hs c (or_introl eq_refl)) as [Hsp [Hq Ha]].
    unfold split_step at 2. cbn [inQuotes quoteChar attrs current is_quoteChar].
    apply Ascii.eqb_neq in Hq, Ha. rewrite Hq, Ha. cbn [orb andb negb].
    assert (Hspace : Ascii.eqb c " " = false).
    { apply Ascii.eqb_neq. intros ->. discriminate Hsp. }
    rewrite Hspace. cbn [andb].
    rewrite IH; [now rewrite push_chars|].
    intros x Hx. apply Hs. now right.
Qed.

(** Inside double quotes, every character but the double quote is added to
    the current piece, spaces and apostrophes included. *)
Lemma split_fold_quoted (s : string) :
  unquoted s ->
  forall (done : list string) (cur : string),
    fold_chars split_step s (mkSplitState done cur true (Some quote_char))
    = mkSplitState done (cur ++ s) true (Some quote_char).
Proof.
  induction s as [|c s IH]; intros Hs done cur; simpl.
  - now rewrite append_empty_r.
  - assert (Hq : Ascii.eqb c quote_char = false).
    { apply Ascii.eqb_neq. apply Hs. now left. }
    unfold split_step at 2. cbn [inQuotes quoteChar attrs current is_quoteChar].
    rewrite Hq. cbn [negb andb orb]. rewrite !andb_false_r. cbn [andb].
    rewrite IH; [now rewrite push_chars|].
    intros x Hx. apply Hs. now right.
Qed.

Lemma fold_chars_one {S : Type} (f : S -> ascii -> S) (c : ascii) (st : S) :
  fold_chars f (String c EmptyString) st = f st c.
Proof. reflexivity. Qed.

Lemma split_step_equals (done : list string) (cur : string) :
  split_step (mkSplitState done cur false None) "="
  = mkSplitState done (push_char cur "=") false None.
Proof. reflexivity. Qed.

Lemma split_step_open (done : list string) (cur : string) :
  split_step (mkSplitState done cur false None) quote_char
  = mkSplitState done (push_char cur quote_char) true (Some quote_char).
Proof. reflexivity. Qed.

Lemma split_step_close (done : list string) (cur : string) :
  split_step (mkSplitState done cur true (Some quote_char)) quote_char
  = mkSplitState done (push_char cur quote_char) false None.
Proof. reflexivity. Qed.

Lemma split_step_space (done : list string) (cur : string) :
  split_step (mkSplitState done cur false None) " "
  = if truthy (trim cur)
    then mkSplitState (done ++ [trim cur])%list EmptyString false None
    else mkSplitState done cur false None.
Proof. reflexivity. Qed.

(** One attribute text goes through the splitter as one piece. *)
Lemma split_fold_attribute (name value : string) :
  plain_name name -> unquoted value ->
  forall (done : list string) (cur : string),
    fold_chars split_step (att name value) (mkSplitState done cur false None)
    = mkSplitState done (cur ++ att name value) false None.
Proof.
  intros [_ Hname] Hvalue done cur. unfold att, dq.
  change (ascii_of_nat 34) with quote_char.
  rewrite fold_chars_app, (split_fold_plain name Hname).
  rewrite fold_chars_app, fold_chars_one, split_step_equals.
  rewrite fold_chars_app, fold_chars_one, split_step_open.
  rewrite fold_chars_app, (split_fold_quoted value Hvalue).
  rewrite fold_chars_one, split_step_close.
  f_equal. unfold push_char. rewrite !append_assoc. reflexivity.
Qed.

Lemma trim_att (name value : string) :
  plain_name name -> trim (att name value) = att name value.
Proof.
  intros [Hne Hname]. destruct name as [|c name]; [contradiction|].
  destruct (Hname c (or_introl eq_refl)) as [Hc _].
  unfold att, dq. change (ascii_of_nat 34) with quote_char.
  replace (String c name ++ "=" ++ String quote_char EmptyString ++ value
           ++ String quote_char EmptyString)
    with (String c (name ++ "=" ++ String quote_char EmptyString ++ value)
          ++ String quote_char EmptyString)
    by (cbn [append]; now rewrite !append_assoc).
  now apply trim_fixed.
Qed.

Lemma truthy_att (name value : string) :
  plain_name name -> truthy (att name value) = true.
Proof.
  intros [Hne _]. destruct name; [contradiction | reflexivity].
Qed.

Lemma last_cons_default {A : Type} (l : list A) :
  forall b a : A, last (b :: l) a = last l b.
Proof.
  induction l as [|x l IH]; intros b a; [reflexivity|].
  change (last (b :: x :: l) a) with (last (x :: l) a).
  now rewrite !IH.
Qed.

(** The state of the splitter after a joined list of attribute texts: all
    but the last are done, the last is the current piece. *)
Lemma split_fold_join (l : list (string * string)) :
  Forall (fun a => plain_name (fst a) /\ unquoted (snd a)) l ->
  forall (a : string * string) (done : list string),
    plain_name (fst a) -> unquoted (snd a) ->
    fold_chars split_step (join " " (map att_text (a :: l)))
               (mkSplitState done EmptyString false None)
    = mkSplitState (done ++ map att_text (removelast (a :: l)))%list
                   (att_text (last l a)) false None.
Proof.
  induction l as [|b l IH]; intros Hall a done Ha1 Ha2.
  - cbn [map join removelast last]. unfold att_text.
    rewrite (split_fold_attribute _ _ Ha1 Ha2). now rewrite app_nil_r.
  - inversion Hall as [|? ? [Hb1 Hb2] Hl]; subst.
    change (join " " (map att_text (a :: b :: l)))
      with (att_text a ++ " " ++ join " " (map att_text (b :: l))).
    unfold att_text at 1.
    rewrite fold_chars_app, (split_fold_attribute _ _ Ha1 Ha2).
    rewrite fold_chars_app, fold_chars_one, split_step_space.
    cbn [append]. rewrite (trim_att _ _ Ha1), (truthy_att _ _ Ha1).
    rewrite (IH Hl b _ Hb1 Hb2).
    change (removelast (a :: b :: l)) with (a :: removelast (b :: l)).
    rewrite (last_cons_default l b a).
    cbn [map]. now rewrite <- app_assoc.
Qed.

Lemma last_plain (l : list (string * string)) (a : string * string) :
  Forall (fun x => plain_name (fst x) /\ unquoted (snd x)) (a :: l) ->
  plain_name (fst (last l a)).
Proof.
  revert a. induction l as [|x l IH]; intros a Hall.
  - inversion Hall as [|? ? [Ha _] _]; subst. exact Ha.
  - inversion Hall as [|? ? _ Hl]; subst.
    rewrite (last_cons_default l x a). apply (IH x Hl).
Qed.

(** What was joined with single spaces is split back into the same texts. *)
Lemma split_attributes_join (l : list (string * string)) :
  Forall (fun a => plain_name (fst a) /\ unquoted (snd a)) l ->
  split_attributes (join " " (map att_text l)) = map att_text l.
Proof.
  intros Hall. destruct l as [|a l]; [reflexivity|].
  pose proof (last_plain l a Hall) as Hlast.
  inversion Hall as [|? ? [Ha1 Ha2] Hl]; subst.
  unfold split_attributes. rewrite (split_fold_join l Hl a [] Ha1 Ha2).
  cbn [current attrs app].
  assert (Htrim : trim (att_text (last l a)) = att_text (last l a))
    by (apply trim_att; exact Hlast).
  rewrite Htrim. unfold att_text at 1. rewrite (truthy_att _ _ Hlast).
  rewrite <- (last_cons_default l a a).
  change [att_text (last (a :: l) a)] with (map att_text [last (a :: l) a]).
  rewrite <- map_app. f_equal.
  symmetry. apply app_removelast_last. discriminate.
Qed.

Lemma normalize_paint_cases (value : string) :
  normalize_paint value = value \/ normalize_paint value = "currentColor".
Proof.
  unfold normalize_paint. destruct (_ && _); [now right | now left].
Qed.

Lemma render_attribute_text (a : string * string) :
  unquoted (snd a) ->
  exists value, unquoted value /\ render_attribute a = att_text (fst a, value).
Proof.
  destruct a as [n v]. intros Hv. unfold render_attribute. cbn [fst snd] in *.
  destruct (String.eqb n "fill" || String.eqb n "stroke").
  - exists (normalize_paint v). split; [|reflexivity].
    destruct (normalize_paint_cases v) as [-> | ->]; [exact Hv|].
    intros c Hc. cbn in Hc.
    repeat (destruct Hc as [<- | Hc]; [discriminate|]). contradiction.
  - now exists v.
Qed.

Lemma render_attributes_texts (attrs : list (string * string)) :
  Forall (fun a => plain_name (fst a) /\ unquoted (snd a)) attrs ->
  exists attrs',
    Forall (fun a => plain_name (fst a) /\ unquoted (snd a)) attrs'
    /\ map render_attribute attrs = map att_text attrs'.
Proof.
  induction attrs as [|a attrs IH]; intros Hall.
  - now exists [].
  - inversion Hall as [|? ? [Ha1 Ha2] Hl]; subst.
    destruct (IH Hl) as [attrs' [Hall' Heq]].
    destruct (render_attribute_text a Ha2) as [v [Hv Hr]].
    exists ((fst a, v) :: attrs'). split; [constructor; [now split | exact Hall']|].
    cbn [map]. now rewrite Hr, Heq.
Qed.

(** Closes [plain_name] and [unquoted] for a literal. *)
Ltac check_chars :=
  let c := fresh "c" in
  let Hc := fresh "Hc" in
  intros c Hc; cbn in Hc;
  repeat (destruct Hc as [<- | Hc];
          [first [discriminate | repeat split; first [reflexivity | discriminate]]|]);
  contradiction.

Ltac check_attribute :=
  split; [split; [discriminate | check_chars] | check_chars].

(** X2: a path element whose attribute names are plain and whose values hold
    no double quote is emitted with exactly one attribute per line, in
    document order, whatever spaces and apostrophes the values hold: the
    quote-aware splitter gives back the attribute texts that were joined. *)
Theorem path_one_attribute_per_line (e : Element) :
  toLowerCase (tagName e) = "path" ->
  Forall (fun a => plain_name (fst a) /\ unquoted (snd a)) (attributes e) ->
  split_attributes (join " " (map render_attribute (attributes e)))
  = map render_attribute (attributes e)
  /\ render_element e
     = "<path"
       ++ join EmptyString
            (map (fun a => nl ++ "          " ++ render_attribute a) (attributes e))
       ++ nl ++ "        />".
Proof.
  intros Htag Hall.
  destruct (render_attributes_texts _ Hall) as [attrs' [Hall' Heq]].
  assert (Hsplit : split_attributes (join " " (map render_attribute (attributes e)))
                   = map render_attribute (attributes e)).
  { rewrite Heq. now apply split_attributes_join. }
  split; [exact Hsplit|].
  unfold render_element. rewrite Htag. cbn [String.eqb Ascii.eqb Bool.eqb].
  unfold format_path. rewrite Hsplit, map_map. reflexivity.
Qed.

Lemma path_one_attribute_per_line_witness :
  render_element
    (mkElement "path" [("d", "M5 12h14 l2 'a b'"); ("fill", "#000000")] [])
  = "<path" ++ nl ++ "          " ++ att "d" "M5 12h14 l2 'a b'"
    ++ nl ++ "          " ++ att "fill" "currentColor" ++ nl ++ "        />".
Proof.
  assert (Hall : Forall (fun a => plain_name (fst a) /\ unquoted (snd a))
                        [("d", "M5 12h14 l2 'a b'"); ("fill", "#000000")]).
  { apply Forall_cons; [check_attribute|].
    apply Forall_cons; [check_attribute | apply Forall_nil]. }
  exact (proj2 (path_one_attribute_per_line
                  (mkElement "path" [("d", "M5 12h14 l2 'a b'"); ("fill", "#000000")] [])
                  eq_refl Hall)).
Defined.

(** ** The outline of a rectangle *)

(** X3: for a rect whose stroke is present, not empty, not none and not
    transparent, the outline is the outer rectangle alone, grown by half the
    stroke width on every side, when the stroke is at least as wide as the
    rect is wide or high; otherwise it is that outer rectangle followed by
    the inner one, shrunk by half the stroke width on every side and drawn
    the other way round. *)
Theorem rect_outline_shape (host : Numerics) (e : Element) (s : string) :
  toLowerCase (tagName e) = "rect" ->
  getAttribute e "stroke" = Some s ->
  s <> EmptyString -> s <> "none" -> s <> "transparent" ->
  let x := attr_number host e "x" "0" in
  let y := attr_number host e "y" "0" in
  let w := attr_number host e "width" "0" in
  let h := attr_number host e "height" "0" in
  let sw := attr_number host e "stroke-width" "1" in
  let outer := rect_clockwise host (x - sw / 2) (y - sw / 2) (w + sw) (h + sw) in
  strokeToOutline host e =
  Some (if (w - sw <=? 0)%float || (h - sw <=? 0)%float
        then outer
        else outer ++ " "
             ++ rect_counterclockwise host (x + sw / 2) (y + sw / 2) (w - sw) (h - sw)).
Proof.
  intros Htag Hstroke He Hn Ht. cbv zeta.
  unfold strokeToOutline.
  rewrite Hstroke, (convertible_stroke_true s He Hn Ht), Htag. simpl negb. cbv iota.
  change (String.eqb "rect" "line") with false.
  change (String.eqb "rect" "circle") with false.
  change (String.eqb "rect" "rect") with true. cbv iota.
  unfold rect_outline. rewrite !Math_max_zero_leb.
  destruct (_ <=? 0)%float eqn:Hw; [reflexivity|].
  destruct (_ <=? 0)%float eqn:Hh in |- *; [reflexivity|].
  cbn [orb]. rewrite (Math_max_zero_above _ Hw), (Math_max_zero_above _ Hh).
  reflexivity.
Qed.

Lemma rect_outline_shape_witness :
  strokeToOutline example_host framed_rect
  = Some ("M 1 2 L 13 2 L 13 10 L 1 10 Z " ++ "M 3 4 L 3 8 L 11 8 L 11 4 Z").
Proof.
  rewrite (rect_outline_shape example_host framed_rect "#000");
    [reflexivity | reflexivity | reflexivity | discriminate ..].
Defined.

(** ** Component names *)

Lemma includes_char_app (a b : string) (d : ascii) :
  includes (a ++ b) (String d EmptyString)
  = includes a (String d EmptyString) || includes b (String d EmptyString).
Proof.
  induction a as [|c a IH].
  - cbn [append]. cbn [includes has_prefix]. reflexivity.
  - cbn [append]. rewrite !includes_char_cons, IH. apply orb_assoc.
Qed.

Lemma upper_char_facts (c : ascii) :
  upper_char (upper_char c) = upper_char c
  /\ (Ascii.eqb (upper_char c) "-" = Ascii.eqb c "-").
Proof.
  destruct c as [[] [] [] [] [] [] [] []]; split; reflexivity.
Qed.

Lemma split_pieces_clean (sep : ascii) (s : string) :
  Forall (fun p => includes p (String sep EmptyString) = false) (split sep s).
Proof.
  induction s as [|c s IH]; cbn [split].
  - now constructor.
  - destruct (Ascii.eqb c sep) eqn:Hc.
    + constructor; [reflexivity | exact IH].
    + destruct (split sep s) as [|p ps] eqn:Hs; [now apply split_nonempty in Hs|].
      inversion IH as [|? ? Hp Hps]; subst.
      constructor; [|exact Hps].
      rewrite includes_char_cons, Hp, Ascii.eqb_sym, Hc. reflexivity.
Qed.

Lemma capitalize_clean (p : string) :
  includes p "-" = false -> includes (capitalize p) "-" = false.
Proof.
  destruct p as [|c p]; [reflexivity|].
  unfold capitalize. cbn [charAt0 slice1 toUpperCase map_chars append].
  rewrite !includes_char_cons. intros H. apply orb_false_iff in H.
  destruct H as [Hc Hp]. rewrite Hp, orb_false_r.
  rewrite Ascii.eqb_sym, (proj2 (upper_char_facts c)), Ascii.eqb_sym. exact Hc.
Qed.

Lemma join_clean (parts : list string) :
  Forall (fun p => includes p "-" = false) parts ->
  includes (join EmptyString parts) "-" = false.
Proof.
  induction parts as [|p parts IH]; intros Hall; [reflexivity|].
  inversion Hall as [|? ? Hp Hps]; subst.
  destruct parts as [|q parts]; [exact Hp|].
  change (join EmptyString (p :: q :: parts))
    with (p ++ EmptyString ++ join EmptyString (q :: parts)).
  cbn [append]. rewrite includes_char_app, Hp, (IH Hps). reflexivity.
Qed.

Lemma split_app_sep (sep : ascii) (a b : string) :
  split sep (a ++ String sep b) = (split sep a ++ split sep b)%list.
Proof.
  induction a as [|c a IH]; cbn [append split].
  - now rewrite Ascii.eqb_refl.
  - destruct (Ascii.eqb c sep); [now rewrite IH|].
    rewrite IH. destruct (split sep a) as [|p ps] eqn:Hs; [|reflexivity].
    now apply split_nonempty in Hs.
Qed.

Lemma join_empty_app (l1 l2 : list string) :
  join EmptyString (l1 ++ l2) = join EmptyString l1 ++ join EmptyString l2.
Proof.
  induction l1 as [|p l1 IH]; [reflexivity|].
  destruct l1 as [|q l1].
  - cbn [app]. destruct l2 as [|r l2]; [now rewrite append_empty_r | reflexivity].
  - change (join EmptyString ((p :: q :: l1) ++ l2))
      with (p ++ EmptyString ++ join EmptyString ((q :: l1) ++ l2)).
    rewrite IH.
    change (join EmptyString (p :: q :: l1))
      with (p ++ EmptyString ++ join EmptyString (q :: l1)).
    cbn [append]. now rewrite append_assoc.
Qed.

(** X4: a component name is the Pascal-cased stem followed by Icon; it never
    contains a hyphen; the stem of two names joined by a hyphen is the two
    stems put together, so that leading, trailing and repeated hyphens leave
    no trace; and the case of the first letter does not matter. *)
Theorem component_name_laws :
  (forall filename, getComponentName filename = pascal filename ++ "Icon")
  /\ (forall filename, includes (getComponentName filename) "-" = false)
  /\ (forall a b, pascal (a ++ "-" ++ b) = pascal a ++ pascal b)
  /\ (forall a b,
        getComponentName (a ++ "--" ++ b) = getComponentName (a ++ "-" ++ b)
        /\ getComponentName ("-" ++ a) = getComponentName a
        /\ getComponentName (a ++ "-") = getComponentName a)
  /\ (forall c rest,
        getComponentName (String (upper_char c) rest) = getComponentName (String c rest)).
Proof.
  assert (Hcompose : forall a b, pascal (a ++ "-" ++ b) = pascal a ++ pascal b).
  { intros a b. unfold pascal. cbn [append].
    now rewrite split_app_sep, map_app, join_empty_app. }
  assert (Hempty : pascal EmptyString = EmptyString) by reflexivity.
  split; [reflexivity|]. split; [|split; [exact Hcompose|split]].
  - intros filename. unfold getComponentName.
    rewrite includes_char_app. apply orb_false_iff. split; [|reflexivity].
    apply join_clean. apply Forall_forall. intros p Hp.
    apply in_map_iff in Hp. destruct Hp as [q [<- Hq]].
    apply capitalize_clean.
    pose proof (split_pieces_clean "-" filename) as Hclean.
    rewrite Forall_forall in Hclean. now apply Hclean.
  - assert (Hlead : forall a, pascal ("-" ++ a) = pascal a).
    { intros a. change ("-" ++ a) with (EmptyString ++ "-" ++ a).
      now rewrite Hcompose, Hempty. }
    assert (Hname : forall f, getComponentName f = pascal f ++ "Icon") by reflexivity.
    intros a b. rewrite !Hname. repeat split.
    + change (a ++ "--" ++ b) with (a ++ "-" ++ ("-" ++ b)).
      now rewrite !Hcompose, Hlead.
    + now rewrite Hlead.
    + change (a ++ "-") with (a ++ "-" ++ EmptyString).
      now rewrite Hcompose, Hempty, append_empty_r.
  - intros c rest. unfold getComponentName. f_equal. cbn [split].
    destruct (upper_char_facts c) as [Hidem Hhyphen]. rewrite Hhyphen.
    destruct (Ascii.eqb c "-") eqn:Hc.
    + apply Ascii.eqb_eq in Hc. now subst c.
    + assert (Hcap : forall p, capitalize (String (upper_char c) p)
                                = capitalize (String c p)).
      { intros p. unfold capitalize. cbn [charAt0 slice1 toUpperCase map_chars].
        now rewrite Hidem. }
      destruct (split "-" rest) as [|p ps]; cbn [map]; now rewrite Hcap.
Qed.

(** ** Flattening a document *)

Lemma setAttribute_fresh (attrs : list (string * string)) (name value : string) :
  ~ In name (map fst attrs) ->
  setAttribute attrs name value = (attrs ++ [(name, value)])%list.
Proof.
  induction attrs as [|[n v] attrs IH]; intros Hfresh; [reflexivity|].
  cbn [setAttribute]. cbn [map fst In] in Hfresh.
  destruct (String.eqb_spec n name) as [-> | _]; [tauto|].
  rewrite IH; [reflexivity | tauto].
Qed.

(** Copying attributes with distinct names, one [setAttribute] at a time,
    gives the same attributes in the same order. *)
Lemma copy_attributes (attrs acc : list (string * string)) :
  NoDup (map fst (acc ++ attrs)) ->
  fold_left (fun acc attr => setAttribute acc (fst attr) (snd attr)) attrs acc
  = (acc ++ attrs)%list.
Proof.
  revert acc. induction attrs as [|[n v] attrs IH]; intros acc Hnodup.
  - now rewrite app_nil_r.
  - cbn [fold_left fst snd]. rewrite setAttribute_fresh.
    + rewrite IH; rewrite <- app_assoc; [reflexivity | exact Hnodup].
    + rewrite map_app in Hnodup. cbn [map fst] in Hnodup.
      apply NoDup_remove_2 in Hnodup. intros Hin. apply Hnodup.
      apply in_or_app. now left.
Qed.

Section PathData.
Variable host : Numerics.

(** Every element adds its own path data, if any, after what is there. *)
Lemma path_data_step_app (acc : list string) (e : Element) :
  path_data_step host acc e = (acc ++ path_data_step host [] e)%list.
Proof.
  assert (Hpush : forall l, push_d e l = (l ++ push_d e [])%list).
  { intros l. unfold push_d. destruct (getAttribute e "d") as [d|].
    - destruct (truthy d); [reflexivity | now rewrite app_nil_r].
    - now rewrite app_nil_r. }
  unfold path_data_step. cbv zeta.
  destruct (String.eqb _ "path"); [apply Hpush|].
  destruct (strokeToOutline host e) as [o|]; [|apply Hpush].
  destruct (truthy o); [reflexivity | apply Hpush].
Qed.

Lemma pathDataOf_flat_map (l : list Element) :
  pathDataOf host l = flat_map (path_data_step host []) l.
Proof.
  unfold pathDataOf.
  assert (H : forall acc, fold_left (path_data_step host) l acc
                          = (acc ++ flat_map (path_data_step host []) l)%list).
  { induction l as [|e l IH]; intros acc; cbn [fold_left flat_map].
    - now rewrite app_nil_r.
    - rewrite IH, path_data_step_app. now rewrite <- app_assoc. }
  apply (H []).
Qed.

Lemma path_data_step_short (e : Element) :
  List.length (path_data_step host [] e) <= 1.
Proof.
  assert (Hpush : List.length (push_d e []) <= 1).
  { unfold push_d. destruct (getAttribute e "d") as [d|]; [|simpl; lia].
    destruct (truthy d); simpl; lia. }
  unfold path_data_step. cbv zeta.
  destruct (String.eqb _ "path"); [exact Hpush|].
  destruct (strokeToOutline host e) as [o|]; [|exact Hpush].
  destruct (truthy o); [simpl; lia | exact Hpush].
Qed.

Lemma pathDataOf_length (l : list Element) :
  List.length (pathDataOf host l) <= List.length l.
Proof.
  rewrite pathDataOf_flat_map.
  induction l as [|e l IH]; [reflexivity|].
  cbn [flat_map]. rewrite length_app.
  pose proof (path_data_step_short e). simpl. lia.
Qed.

(** Without a convertible stroke on any shape that is not a path, the path
    data are the non-empty [d] attributes. *)
Lemma pathDataOf_d_values (l : list Element) :
  Forall (fun e => toLowerCase (tagName e) = "path"
                   \/ convertible_stroke (getAttribute e "stroke") = false) l ->
  pathDataOf host l = d_values l.
Proof.
  intros Hall. rewrite pathDataOf_flat_map. unfold d_values.
  induction l as [|e l IH]; [reflexivity|].
  inversion Hall as [|? ? He Hl]; subst.
  cbn [flat_map]. rewrite (IH Hl). f_equal.
  unfold path_data_step, push_d. cbv zeta.
  destruct (String.eqb_spec (toLowerCase (tagName e)) "path") as [Hp | Hp].
  - destruct (getAttribute e "d") as [d|]; [|reflexivity]. now destruct (truthy d).
  - destruct He as [He | He]; [contradiction|].
    unfold strokeToOutline. rewrite He. cbn [negb].
    destruct (getAttribute e "d") as [d|]; [|reflexivity]. now destruct (truthy d).
Qed.

End PathData.


(** X5: [flattenSvgPaths] returns either its input as it came or the
    serialization of a new document: an [svg] element with the attributes of
    the original and one child, a path without children whose only
    attributes are the path data of the kept shapes joined by single spaces
    in document order, the fill currentColor and the even-odd fill rule.
    The second case needs a parser that finds the [svg] element, a
    serializer, and at least two path data. *)
Theorem flatten_result (host : Numerics) (domParser : option DomParser)
    (serializer : option Serializer) (markup : string) :
  (forall svg, structured domParser markup = Some svg ->
               NoDup (map fst (attributes svg))) ->
  flattenSvgPaths host domParser serializer markup = markup
  \/ exists svg serializeToString,
       structured domParser markup = Some svg
       /\ serializer = Some serializeToString
       /\ 2 <= List.length (pathDataOf host (relevantElementsOf svg))
       /\ flattenSvgPaths host domParser serializer markup
          = serializeToString
              (mkElement "svg" (attributes svg)
                 [mkElement "path"
                    [("d", join " " (pathDataOf host (relevantElementsOf svg)));
                     ("fill", "currentColor"); ("fill-rule", "evenodd")] []]).
Proof.
  intros Hnodup. unfold flattenSvgPaths, flattenSvgPaths_try.
  destruct domParser as [parse|]; [|now left].
  destruct (parse markup) as [svg|] eqn:Hparse; [|now left].
  unfold flatten_element. cbv zeta.
  destruct (List.length (relevantElementsOf svg) =? 0)%nat; [now left|].
  destruct (List.length (pathDataOf host (relevantElementsOf svg))) as [|[|n]] eqn:Hlen;
    [now left | now left |].
  cbn [Nat.eqb].
  destruct serializer as [serializeToString|]; [|now left].
  right. exists svg, serializeToString.
  split; [exact Hparse|]. split; [reflexivity|]. split; [lia|].
  unfold flattened_svg.
  rewrite (copy_attributes (attributes svg) []); [reflexivity|].
  apply Hnodup. exact Hparse.
Qed.

Lemma flatten_result_witness :
  flattenSvgPaths example_host (Some two_paths_parser) (Some sample_serializer)
                  two_paths_markup
  = "<svg " ++ att "viewBox" "0 0 24 24" ++ "><path " ++ att "d" "M5 12h14 M5 6h14"
    ++ " " ++ att "fill" "currentColor" ++ " " ++ att "fill-rule" "evenodd"
    ++ "></path></svg>".
Proof.
  destruct (flatten_result example_host (Some two_paths_parser)
                           (Some sample_serializer) two_paths_markup) as [H | H].
  - intros svg Hsvg. injection Hsvg as <-. repeat constructor; simpl; tauto.
  - discriminate H.
  - destruct H as [svg [ser [Hsvg [Hser [_ Hout]]]]].
    injection Hsvg as <-. injection Hser as <-. rewrite Hout. reflexivity.
Defined.

(** X6: [flattenSvgPaths] returns its input unchanged when the host has no
    parser or no serializer, when no [svg] element is found, when fewer than
    two kept shapes remain after the helpers are dropped, and when no kept
    shape other than a path has a convertible stroke and fewer than two kept
    shapes have a non-empty [d] attribute: shapes that are only filled are
    never turned into path data. *)
Theorem flatten_unchanged (host : Numerics) (domParser : option DomParser)
    (serializer : option Serializer) (markup : string) :
  structured domParser markup = None
  \/ serializer = None
  \/ (exists svg,
        structured domParser markup = Some svg
        /\ (List.length (relevantElementsOf svg) < 2
            \/ (Forall (fun e => toLowerCase (tagName e) = "path"
                                 \/ convertible_stroke (getAttribute e "stroke") = false)
                       (relevantElementsOf svg)
                /\ List.length (d_values (relevantElementsOf svg)) < 2))) ->
  flattenSvgPaths host domParser serializer markup = markup.
Proof.
  intros H. unfold flattenSvgPaths, flattenSvgPaths_try.
  destruct domParser as [parse|]; [|reflexivity].
  cbn [structured] in H.
  destruct (parse markup) as [svg|] eqn:Hparse; [|reflexivity].
  unfold flatten_element. cbv zeta.
  destruct (List.length (relevantElementsOf svg) =? 0)%nat; [reflexivity|].
  destruct (List.length (pathDataOf host (relevantElementsOf svg))) as [|[|n]] eqn:Hlen;
    [reflexivity | reflexivity |].
  cbn [Nat.eqb].
  destruct H as [H | [H | [svg' [Hsvg H]]]]; [discriminate H | now rewrite H |].
  injection Hsvg as <-. exfalso.
  destruct H as [H | [Hall H]].
  - pose proof (pathDataOf_length host (relevantElementsOf svg)). lia.
  - rewrite (pathDataOf_d_values host _ Hall) in Hlen. lia.
Qed.

Lemma flatten_unchanged_witness :
  flattenSvgPaths example_host (Some Samples.sample_parser) (Some sample_serializer)
                  Samples.path_line_markup
  = Samples.path_line_markup.
Proof.
  apply flatten_unchanged. right. right. exists Samples.path_line_tree.
  split; [reflexivity|]. right. split.
  - repeat constructor; simpl; tauto.
  - simpl. lia.
Defined.



(** * Properties of the main thread *)

Import Dispatch.

(** ** Chunks *)

Section ChunkFacts.
Context {Icon : Type}.
Variable estimatedSize : Icon -> N.
Local Open Scope list_scope.

Lemma chunk_size_app (c d : list Icon) :
  chunk_size estimatedSize (c ++ d)
  = (chunk_size estimatedSize c + chunk_size estimatedSize d)%N.
Proof.
  induction c as [|x c IH]; [reflexivity|].
  cbn [app chunk_size]. rewrite IH. lia.
Qed.

Lemma tight_last_grow (cs : list (list Icon)) (c : list Icon) (icon : Icon) :
  c <> [] -> tight estimatedSize (cs ++ [c]) ->
  tight estimatedSize (cs ++ [c ++ [icon]]).
Proof.
  intros Hc. induction cs as [|a cs IH]; [intros _; exact I|].
  destruct cs as [|b cs].
  - cbn. intros [[x [d' [Hd Hx]]] _]. split; [|exact I].
    subst c. exists x, (d' ++ [icon])%list. now split.
  - change (((a :: b :: cs) ++ [c])%list) with (a :: ((b :: cs) ++ [c]))%list.
    change (((a :: b :: cs) ++ [c ++ [icon]])%list)
      with (a :: ((b :: cs) ++ [c ++ [icon]]))%list.
    cbn [app tight]. intros [Hab Hrest]. split; [exact Hab|].
    apply IH. exact Hrest.
Qed.

Lemma tight_new_chunk (cs : list (list Icon)) (c : list Icon) (icon : Icon) :
  (MAX_PAYLOAD_SIZE < chunk_size estimatedSize c + estimatedSize icon)%N ->
  tight estimatedSize (cs ++ [c]) ->
  tight estimatedSize ((cs ++ [c]) ++ [[icon]]).
Proof.
  intros Hfull. induction cs as [|a cs IH].
  - intros _. cbn. split; [|exact I]. now exists icon, [].
  - destruct cs as [|b cs].
    + cbn. intros [Hab _]. split; [exact Hab|]. split; [|exact I]. now exists icon, [].
    + change ((((a :: b :: cs) ++ [c]) ++ [[icon]])%list)
        with (a :: (((b :: cs) ++ [c]) ++ [[icon]]))%list.
      change (((a :: b :: cs) ++ [c])%list) with (a :: ((b :: cs) ++ [c]))%list.
      cbn [app tight]. intros [Hab Hrest]. split; [exact Hab|].
      apply IH. exact Hrest.
Qed.

Lemma chunk_step_invariant (done : list Icon) (st : ChunkState) (icon : Icon) :
  chunk_invariant estimatedSize done st ->
  chunk_invariant estimatedSize (done ++ [icon]) (chunk_step estimatedSize st icon).
Proof.
  intros [Hcat [Hsize [Hne [Hbound [Hcur [Hfirst Htight]]]]]].
  unfold chunk_step.
  destruct (0 <? List.length (currentChunk st))%nat eqn:Hlen.
  - apply Nat.ltb_lt in Hlen.
    assert (Hcne : currentChunk st <> [])
      by (destruct (currentChunk st); [simpl in Hlen; lia | discriminate]).
    destruct (MAX_PAYLOAD_SIZE <? currentChunkSize st + estimatedSize icon)%N eqn:Hfull;
      cbn [andb]; unfold chunk_invariant; cbn [chunks currentChunk currentChunkSize];
      refine (conj _ (conj _ (conj _ (conj _ (conj _ (conj _ _)))))).
    + rewrite concat_app. cbn [concat]. rewrite app_nil_r, <- Hcat. reflexivity.
    + cbn. lia.
    + apply Forall_app. split; [exact Hne | now constructor].
    + apply Forall_app. split; [exact Hbound|]. constructor; [|constructor].
      destruct Hcur as [H | H]; [contradiction | exact H].
    + right. now left.
    + discriminate.
    + intros _. apply N.ltb_lt in Hfull.
      apply tight_new_chunk; [now rewrite <- Hsize | now apply Htight].
    + now rewrite app_assoc, Hcat.
    + rewrite chunk_size_app. cbn. lia.
    + exact Hne.
    + exact Hbound.
    + apply N.ltb_ge in Hfull. right. right. rewrite chunk_size_app. cbn. lia.
    + intros H. now apply app_eq_nil in H.
    + intros _. apply tight_last_grow; [exact Hcne | now apply Htight].
  - apply Nat.ltb_ge in Hlen.
    assert (Hnil : currentChunk st = [])
      by (destruct (currentChunk st); [reflexivity | simpl in Hlen; lia]).
    rewrite andb_false_r.
    unfold chunk_invariant; cbn [chunks currentChunk currentChunkSize].
    rewrite Hnil in *. rewrite (Hfirst eq_refl) in *.
    refine (conj _ (conj _ (conj _ (conj _ (conj _ (conj _ _)))))).
    + cbn. now rewrite <- Hcat.
    + cbn in *. lia.
    + constructor.
    + constructor.
    + right. now left.
    + discriminate.
    + intros _. exact I.
Qed.

Lemma chunk_fold_invariant (icons done : list Icon) (st : ChunkState) :
  chunk_invariant estimatedSize done st ->
  chunk_invariant estimatedSize (done ++ icons) (fold_left (chunk_step estimatedSize) icons st).
Proof.
  revert done st. induction icons as [|icon icons IH]; intros done st Hinv.
  - now rewrite app_nil_r.
  - cbn [fold_left]. replace (done ++ icon :: icons)%list with ((done ++ [icon]) ++ icons)%list
      by now rewrite <- app_assoc.
    apply IH. now apply chunk_step_invariant.
Qed.

(** What the loop has made when it ends. *)
Lemma make_chunks_facts (icons : list Icon) :
  let cs := make_chunks estimatedSize icons in
  concat cs = icons
  /\ Forall (fun c => c <> []) cs
  /\ Forall (fun c => List.length c = 1 \/ (chunk_size estimatedSize c <= MAX_PAYLOAD_SIZE)%N) cs
  /\ tight estimatedSize cs.
Proof.
  cbv zeta. unfold make_chunks.
  assert (Hinit : chunk_invariant estimatedSize [] (mkChunkState [] [] 0%N)).
  { unfold chunk_invariant. cbn [chunks currentChunk currentChunkSize].
    refine (conj _ (conj _ (conj _ (conj _ (conj _ (conj _ _))))));
      try reflexivity; try constructor; try tauto. }
  pose proof (chunk_fold_invariant icons [] _ Hinit) as Hinv.
  cbn [app] in Hinv.
  destruct Hinv as [Hcat [Hsize [Hne [Hbound [Hcur [Hfirst Htight]]]]]].
  destruct (0 <? List.length (currentChunk _))%nat eqn:Hlen.
  - apply Nat.ltb_lt in Hlen.
    assert (Hcne : currentChunk (fold_left (chunk_step estimatedSize) icons
                                           (mkChunkState [] [] 0%N)) <> [])
      by (intros H; rewrite H in Hlen; simpl in Hlen; lia).
    refine (conj _ (conj _ (conj _ _))).
    + rewrite concat_app. cbn [concat]. now rewrite app_nil_r.
    + apply Forall_app. split; [exact Hne | now constructor].
    + apply Forall_app. split; [exact Hbound|]. constructor; [|constructor].
      destruct Hcur as [H | H]; [contradiction | exact H].
    + now apply Htight.
  - apply Nat.ltb_ge in Hlen.
    assert (Hnil : currentChunk (fold_left (chunk_step estimatedSize) icons
                                           (mkChunkState [] [] 0%N)) = [])
      by (destruct (currentChunk _); [reflexivity | simpl in Hlen; lia]).
    rewrite Hnil in Hcat. rewrite (Hfirst Hnil) in *. rewrite <- Hcat.
    refine (conj _ (conj _ (conj _ _))); try reflexivity; constructor.
Qed.

(** X8: the chunks, put end to end, are the icons in their order, so that
    no icon is lost, repeated or moved; no chunk is empty; a chunk of
    several icons has a total estimated size of at most 55000; and no chunk
    could have taken the first icon of the next one. *)
Theorem chunks_partition (icons : list Icon) :
  let cs := make_chunks estimatedSize icons in
  concat cs = icons
  /\ Forall (fun c => c <> []) cs
  /\ Forall (fun c => List.length c = 1 \/ (chunk_size estimatedSize c <= MAX_PAYLOAD_SIZE)%N) cs
  /\ tight estimatedSize cs.
Proof. exact (make_chunks_facts icons). Qed.

Lemma chunk_size_lower (c : list Icon) :
  (forall icon, In icon c -> (33 <= estimatedSize icon)%N) ->
  (33 * N.of_nat (List.length c) <= chunk_size estimatedSize c)%N.
Proof.
  induction c as [|x c IH]; intros Hmin; [cbn; lia|].
  cbn [chunk_size List.length].
  pose proof (Hmin x (or_introl eq_refl)).
  assert (33 * N.of_nat (List.length c) <= chunk_size estimatedSize c)%N
    by (apply IH; intros icon Hin; apply Hmin; now right).
  lia.
Qed.

(** X9: when every payload object takes at least 33 characters, which is
    the length of one with an empty name, an empty markup and no alias, the
    safety check of the sending loop can only reject a chunk made of one
    icon whose own payload is longer than 59998 characters: a chunk of
    several icons always passes. *)
Theorem oversize_only_single (icons : list Icon) :
  (forall icon, In icon icons -> (33 <= estimatedSize icon)%N) ->
  forall c, In c (make_chunks estimatedSize icons) ->
            too_large estimatedSize c = true ->
            exists icon, c = [icon] /\ (59998 < estimatedSize icon)%N.
Proof.
  intros Hmin c Hin Hlarge.
  destruct (make_chunks_facts icons) as [Hcat [_ [Hbound _]]].
  rewrite Forall_forall in Hbound. specialize (Hbound c Hin).
  unfold too_large, payload_length in Hlarge. apply N.ltb_lt in Hlarge.
  destruct Hbound as [Hone | Hsize].
  - destruct c as [|icon [|y c]]; try discriminate Hone.
    exists icon. split; [reflexivity|].
    cbn [chunk_size List.length Nat.sub N.of_nat] in Hlarge. lia.
  - exfalso.
    assert (Hc : forall icon, In icon c -> (33 <= estimatedSize icon)%N).
    { intros icon Hicon. apply Hmin. rewrite <- Hcat.
      apply in_concat. now exists c. }
    pose proof (chunk_size_lower c Hc) as Hlow.
    unfold MAX_PAYLOAD_SIZE in Hsize. lia.
Qed.

End ChunkFacts.

Lemma oversize_only_single_witness :
  make_chunks (fun n : N => n) [60000; 30000; 20000; 40000]%N
  = [[60000]; [30000; 20000]; [40000]]%N
  /\ exists icon, [60000%N] = [icon] /\ (59998 < icon)%N.
Proof.
  split; [reflexivity|].
  apply (oversize_only_single (fun n : N => n) [60000; 30000; 20000; 40000]%N).
  - intros icon Hin. simpl in Hin.
    destruct Hin as [<- | [<- | [<- | [<- | []]]]]; lia.
  - now left.
  - reflexivity.
Defined.

(** ** The base64 fallback *)

Section Base64Facts.
Local Open Scope Z_scope.

Lemma triple_ind (P : list Z -> Prop) :
  P [] -> (forall a, P [a]) -> (forall a b, P [a; b]) ->
  (forall a b c l, P l -> P (a :: b :: c :: l)) -> forall l, P l.
Proof.
  intros H0 H1 H2 H3.
  assert (H : forall l, P l /\ (forall a, P (a :: l)) /\ (forall a b, P (a :: b :: l))).
  { induction l as [|x l [IH0 [IH1 IH2]]].
    - auto.
    - split; [apply IH1|]. split; [intros a; apply IH2|].
      intros a b. apply H3, IH0. }
  intros l. apply H.
Qed.

Lemma sextet_range (x : Z) : 0 <= band x 63 < 64.
Proof.
  unfold band. change 63 with (Z.ones 6). rewrite Z.land_ones by lia.
  apply Z.mod_pos_bound. lia.
Qed.

Lemma charAt_alphabet (i : Z) :
  0 <= i < 64 ->
  exists ch, charAt base64_chars i = String ch EmptyString
             /\ index_in base64_chars ch = Some i.
Proof.
  intros H. rewrite <- (Z2Nat.id i) by lia.
  assert (Hn : (Z.to_nat i < 64)%nat) by lia.
  revert Hn. generalize (Z.to_nat i). clear H. intros n Hn.
  do 64 (destruct n as [|n]; [eexists; split; reflexivity|]). lia.
Qed.

Lemma quad_chars (len j a b c : Z) :
  j <= len ->
  exists c0 c1 c2 c3,
    quad len j a b c = String c0 (String c1 (String c2 (String c3 EmptyString)))
    /\ index_in base64_chars c0
       = Some (band (sar (bor (bor (shl a 16) (shl b 8)) c) 18) 63)
    /\ index_in base64_chars c1
       = Some (band (sar (bor (bor (shl a 16) (shl b 8)) c) 12) 63)
    /\ index_in base64_chars c2
       = Some (band (sar (bor (bor (shl a 16) (shl b 8)) c) 6) 63)
    /\ index_in base64_chars c3
       = Some (band (bor (bor (shl a 16) (shl b 8)) c) 63).
Proof.
  intros Hj. unfold quad.
  assert (H2 : (j - 2 <? len) = true) by (apply Z.ltb_lt; lia).
  assert (H1 : (j - 1 <? len) = true) by (apply Z.ltb_lt; lia).
  rewrite H1, H2.
  destruct (charAt_alphabet _ (sextet_range (sar (bor (bor (shl a 16) (shl b 8)) c) 18)))
    as [c0 [E0 I0]].
  destruct (charAt_alphabet _ (sextet_range (sar (bor (bor (shl a 16) (shl b 8)) c) 12)))
    as [c1 [E1 I1]].
  destruct (charAt_alphabet _ (sextet_range (sar (bor (bor (shl a 16) (shl b 8)) c) 6)))
    as [c2 [E2 I2]].
  destruct (charAt_alphabet _ (sextet_range (bor (bor (shl a 16) (shl b 8)) c)))
    as [c3 [E3 I3]].
  exists c0, c1, c2, c3. rewrite E0, E1, E2, E3. auto.
Qed.


Lemma quad_free (len len' j j' a b c : Z) :
  j <= len -> j' <= len' -> quad len j a b c = quad len' j' a b c.
Proof.
  intros Hj Hj'. unfold quad.
  assert (H2 : (j - 2 <? len) = true) by (apply Z.ltb_lt; lia).
  assert (H1 : (j - 1 <? len) = true) by (apply Z.ltb_lt; lia).
  assert (H2' : (j' - 2 <? len') = true) by (apply Z.ltb_lt; lia).
  assert (H1' : (j' - 1 <? len') = true) by (apply Z.ltb_lt; lia).
  now rewrite H1, H2, H1', H2'.
Qed.

Lemma thirds (n : nat) : ((S (S (S n)) + 2) / 3 = S ((n + 2) / 3))%nat.
Proof.
  replace (S (S (S n)) + 2)%nat with ((n + 2) + 1 * 3)%nat by lia.
  rewrite Nat.div_add by lia. lia.
Qed.

Lemma base64_loop_shape (len : Z) (rest : list Z) :
  forall j, j + Z.of_nat (List.length rest) <= len ->
  String.length (base64_loop len j rest) = (4 * ((List.length rest + 2) / 3))%nat
  /\ forall ch, In ch (chars (base64_loop len j rest)) ->
                exists i, 0 <= i < 64 /\ index_in base64_chars ch = Some i.
Proof.
  induction rest as [|a|a b|a b c rest IH] using triple_ind; intros j Hj.
  - split; [reflexivity|]. intros ch [].
  - cbn [base64_loop]. cbn [List.length] in Hj.
    destruct (quad_chars len (j + 1) a 0 0) as [c0 [c1 [c2 [c3 [E [I0 [I1 [I2 I3]]]]]]]];
      [lia|].
    rewrite E. split; [reflexivity|].
    intros ch [<- | [<- | [<- | [<- | []]]]]; eexists; (split; [|eassumption]);
      apply sextet_range.
  - cbn [base64_loop]. cbn [List.length] in Hj.
    destruct (quad_chars len (j + 2) a b 0) as [c0 [c1 [c2 [c3 [E [I0 [I1 [I2 I3]]]]]]]];
      [lia|].
    rewrite E. split; [reflexivity|].
    intros ch [<- | [<- | [<- | [<- | []]]]]; eexists; (split; [|eassumption]);
      apply sextet_range.
  - cbn [base64_loop]. cbn [List.length] in Hj.
    destruct (quad_chars len (j + 3) a b c) as [c0 [c1 [c2 [c3 [E [I0 [I1 [I2 I3]]]]]]]];
      [lia|].
    destruct (IH (j + 3)) as [IHlen IHin]; [lia|].
    rewrite E. cbn [append String.length List.length].
    rewrite IHlen, thirds. split; [lia|].
    unfold chars. cbn [list_ascii_of_string].
    intros ch [<- | [<- | [<- | [<- | Hin]]]];
      try (eexists; (split; [|eassumption]); apply sextet_range).
    now apply IHin.
Qed.

End Base64Facts.

Lemma includes_char_none (s : string) (d : ascii) :
  (forall ch, In ch (chars s) -> ch <> d) -> includes s (String d EmptyString) = false.
Proof.
  induction s as [|c s IH]; intros H; [reflexivity|].
  rewrite includes_char_cons. apply orb_false_iff. split.
  - apply Ascii.eqb_neq. intros E. apply (H c); [now left | now symmetry].
  - apply IH. intros ch Hin. apply H. now right.
Qed.

(** X10: whatever the text, the fallback encoder writes four characters
    for every started group of three code units, every character it writes
    is one of the 64 of its alphabet, and it never writes the padding
    character: after the reads of a turn [j] is at most the length, so both
    tests that guard the padding succeed. *)
Theorem base64_shape (jsonString : list Z) :
  String.length (manual_base64 jsonString)
  = 4 * ((List.length jsonString + 2) / 3)
  /\ (forall ch, In ch (chars (manual_base64 jsonString)) ->
                 exists i, (0 <= i < 64)%Z /\ index_in base64_chars ch = Some i)
  /\ includes (manual_base64 jsonString) "=" = false.
Proof.
  destruct (base64_loop_shape (Z.of_nat (List.length jsonString)) jsonString 0%Z)
    as [Hlen Hin]; [lia|].
  split; [exact Hlen|]. split; [exact Hin|].
  apply includes_char_none. intros ch Hch E. subst ch.
  destruct (Hin _ Hch) as [i [_ Hi]]. discriminate Hi.
Qed.

Section Base64Latin1.
Local Open Scope Z_scope.

Lemma lor_disjoint (x y k : Z) :
  0 <= k -> 0 <= y < 2 ^ k -> Z.lor (x * 2 ^ k) y = x * 2 ^ k + y.
Proof.
  intros Hk Hy. rewrite <- Z.add_lor_land.
  assert (E : Z.land (x * 2 ^ k) y = 0).
  { apply Z.bits_inj'. intros n Hn. rewrite Z.land_spec, Z.bits_0.
    destruct (Z.lt_ge_cases n k) as [Hlt | Hge].
    - rewrite Z.mul_pow2_bits_low by lia. reflexivity.
    - rewrite <- (Z.mod_small y (2 ^ k)) by lia.
      rewrite Z.mod_pow2_bits_high by lia. apply andb_false_r. }
  rewrite E. lia.
Qed.

Lemma latin1_bitmap (a b c : Z) :
  0 <= a < 256 -> 0 <= b < 256 -> 0 <= c < 256 ->
  bor (bor (shl a 16) (shl b 8)) c = a * 65536 + b * 256 + c.
Proof.
  intros Ha Hb Hc. unfold bor, shl, int32.
  rewrite !Z.shiftl_mul_pow2 by lia.
  change (2 ^ 16) with 65536. change (2 ^ 8) with 256.
  rewrite (Z.mod_small (a * 65536 + 2147483648)) by lia.
  rewrite (Z.mod_small (b * 256 + 2147483648)) by lia.
  replace (a * 65536 + 2147483648 - 2147483648) with (a * 2 ^ 16) by lia.
  replace (b * 256 + 2147483648 - 2147483648) with (b * 256) by lia.
  rewrite (lor_disjoint a (b * 256) 16) by lia.
  replace (a * 2 ^ 16 + b * 256) with ((a * 256 + b) * 2 ^ 8) by lia.
  rewrite (lor_disjoint (a * 256 + b) c 8) by lia. lia.
Qed.

Lemma sextets_sum (x : Z) :
  0 <= x < 16777216 ->
  x = band (sar x 18) 63 * 262144 + band (sar x 12) 63 * 4096
      + band (sar x 6) 63 * 64 + band x 63.
Proof.
  intros Hx. unfold band, sar. change 63 with (Z.ones 6).
  rewrite !Z.land_ones, !Z.shiftr_div_pow2 by lia.
  change (2 ^ 18) with 262144. change (2 ^ 12) with 4096. change (2 ^ 6) with 64.
  assert (H1 : x = 64 * (x / 64) + x mod 64) by (apply Z.div_mod; lia).
  assert (H2 : x / 64 = 64 * (x / 64 / 64) + (x / 64) mod 64)
    by (apply Z.div_mod; lia).
  assert (H3 : x / 64 / 64 = 64 * (x / 64 / 64 / 64) + (x / 64 / 64) mod 64)
    by (apply Z.div_mod; lia).
  rewrite !Z.div_div in H2, H3 by lia. rewrite !Z.div_div in H3 by lia.
  change (64 * 64) with 4096 in *. change (4096 * 64) with 262144 in *.
  assert (H4 : 0 <= x / 262144 < 64).
  { split; [apply Z.div_pos; lia | apply Z.div_lt_upper_bound; lia]. }
  rewrite (Z.mod_small (x / 262144)) by lia.
  lia.
Qed.

Lemma sextets_inj (x y : Z) :
  0 <= x < 16777216 -> 0 <= y < 16777216 ->
  band (sar x 18) 63 = band (sar y 18) 63 ->
  band (sar x 12) 63 = band (sar y 12) 63 ->
  band (sar x 6) 63 = band (sar y 6) 63 ->
  band x 63 = band y 63 ->
  x = y.
Proof.
  intros Hx Hy H18 H12 H6 H0.
  rewrite (sextets_sum x Hx), (sextets_sum y Hy).
  now rewrite H18, H12, H6, H0.
Qed.



Lemma Some_eq (x y : Z) : Some x = Some y -> x = y.
Proof. now intros [= ->]. Qed.

Lemma quad_inj (len j a b c a' b' c' : Z) (s s' : string) :
  j <= len ->
  0 <= a < 256 -> 0 <= b < 256 -> 0 <= c < 256 ->
  0 <= a' < 256 -> 0 <= b' < 256 -> 0 <= c' < 256 ->
  quad len j a b c ++ s = quad len j a' b' c' ++ s' ->
  a = a' /\ b = b' /\ c = c' /\ s = s'.
Proof.
  intros Hj Ha Hb Hc Ha' Hb' Hc' E.
  destruct (quad_chars len j a b c Hj) as [c0 [c1 [c2 [c3 [Q [I0 [I1 [I2 I3]]]]]]]].
  destruct (quad_chars len j a' b' c' Hj) as [d0 [d1 [d2 [d3 [Q' [J0 [J1 [J2 J3]]]]]]]].
  rewrite Q, Q' in E. 
  cbn [append] in E.
  injection E as E0 E1 E2 E3 Es. 
  subst d0 d1 d2 d3.
  rewrite (latin1_bitmap a b c) in I0, I1, I2, I3 by assumption.
  rewrite (latin1_bitmap a' b' c') in J0, J1, J2, J3 by assumption.
  rewrite I0 in J0. rewrite I1 in J1. rewrite I2 in J2. rewrite I3 in J3.
  apply Some_eq in J0, J1, J2, J3.
  assert (E : a * 65536 + b * 256 + c = a' * 65536 + b' * 256 + c').
  { apply sextets_inj; try assumption; lia. }
  refine (conj _ (conj _ (conj _ Es))); lia.
Qed.

Lemma base64_loop_inj (len : Z) (rest : list Z) :
  forall rest' j,
    List.length rest = List.length rest' ->
    j + Z.of_nat (List.length rest) <= len ->
    latin1 rest -> latin1 rest' ->
    base64_loop len j rest = base64_loop len j rest' ->
    rest = rest'.
Proof.
  unfold latin1.
  induction rest as [|a|a b|a b c rest IH] using triple_ind;
    intros rest' j Hlen Hj Hl Hl' E.
  - clear E. destruct rest'; [reflexivity | discriminate Hlen].
  - destruct rest' as [|a' [|? ?]]; try discriminate Hlen.
    cbn [base64_loop List.length] in E, Hj.
    rewrite <- (append_empty_r (quad len (j + 1) a 0 0)) in E.
    rewrite <- (append_empty_r (quad len (j + 1) a' 0 0)) in E.
    apply Forall_inv in Hl, Hl'.
    apply quad_inj in E; [|lia ..].
    destruct E as [Ea _]. now rewrite Ea.
  - destruct rest' as [|a' [|b' [|? ?]]]; try discriminate Hlen.
    cbn [base64_loop List.length] in E, Hj.
    rewrite <- (append_empty_r (quad len (j + 2) a b 0)) in E.
    rewrite <- (append_empty_r (quad len (j + 2) a' b' 0)) in E.
    inversion Hl as [|? ? Ha Hl1]; subst. inversion Hl' as [|? ? Ha' Hl1']; subst.
    apply Forall_inv in Hl1, Hl1'.
    apply quad_inj in E; [|lia ..].
    destruct E as [Ea [Eb _]]. now rewrite Ea, Eb.
  - destruct rest' as [|a' [|b' [|c' rest']]]; try discriminate Hlen.
    cbn [base64_loop List.length] in E, Hj.
    inversion Hl as [|? ? Ha Hl1]; subst. inversion Hl' as [|? ? Ha' Hl1']; subst.
    inversion Hl1 as [|? ? Hb Hl2]; subst. inversion Hl1' as [|? ? Hb' Hl2']; subst.
    inversion Hl2 as [|? ? Hc Hl3]; subst. inversion Hl2' as [|? ? Hc' Hl3']; subst.
    apply quad_inj in E; [|lia ..]. destruct E as [Ea [Eb [Ec E]]].
    rewrite Ea, Eb, Ec. f_equal. f_equal. f_equal.
    apply (IH rest' (j + 3)); try assumption.
    + cbn [List.length] in Hlen. lia.
    + lia.
Qed.

End Base64Latin1.

(** X11: on texts of the first 256 code points the fallback encoder loses
    nothing that the length does not tell: two different texts of the same
    length get different encodings. *)
Theorem base64_latin1_lossless (text text' : list Z) :
  latin1 text -> latin1 text' ->
  List.length text = List.length text' ->
  text <> text' ->
  manual_base64 text <> manual_base64 text'.
Proof.
  intros Hl Hl' Hlen Hdiff E. apply Hdiff.
  unfold manual_base64 in E. rewrite <- Hlen in E.
  apply (base64_loop_inj (Z.of_nat (List.length text)) text text' 0%Z); try assumption.
  lia.
Qed.

Lemma base64_latin1_lossless_witness :
  manual_base64 [91; 93]%Z <> manual_base64 [91; 125]%Z.
Proof.
  apply base64_latin1_lossless.
  - repeat constructor; lia.
  - repeat constructor; lia.
  - reflexivity.
  - intros E. discriminate E.
Defined.

Section Base64Blind.
Local Open Scope Z_scope.

Lemma int32_bits (z n : Z) : n < 32 -> Z.testbit (int32 z) n = Z.testbit z n.
Proof.
  intros Hn. unfold int32.
  rewrite <- (Z.mod_pow2_bits_low (_ - _) 32 n Hn).
  rewrite <- (Z.mod_pow2_bits_low z 32 n Hn).
  f_equal. change (2 ^ 32) with 4294967296.
  rewrite <- Zminus_mod_idemp_l, Z.mod_mod by lia.
  rewrite Zminus_mod_idemp_l. f_equal. lia.
Qed.

Lemma sextet_high_byte (a b c k : Z) :
  0 <= k <= 18 ->
  band (sar (bor (bor (shl a 16) (shl b 8)) c) k) 63
  = band (sar (bor (bor (shl (a mod 256) 16) (shl b 8)) c) k) 63.
Proof.
  intros Hk. unfold band, sar, bor, shl.
  apply Z.bits_inj'. intros n Hn.
  rewrite !Z.land_spec. change 63 with (Z.ones 6).
  destruct (Z.lt_ge_cases n 6) as [Hlt | Hge].
  - rewrite !Z.shiftr_spec, !Z.lor_spec by lia.
    rewrite !int32_bits by lia. f_equal. f_equal. f_equal.
    rewrite !Z.shiftl_spec by lia.
    destruct (Z.lt_ge_cases (n + k - 16) 0) as [Hneg | Hpos].
    + now rewrite !Z.testbit_neg_r by lia.
    + change 256 with (2 ^ 8). now rewrite Z.mod_pow2_bits_low by lia.
  - rewrite Z.ones_spec_high by lia. now rewrite !andb_false_r.
Qed.

Lemma quad_high_byte (len j a b c : Z) :
  quad len j a b c = quad len j (a mod 256) b c.
Proof.
  unfold quad.
  rewrite <- (Z.shiftr_0_r (bor (bor (shl a 16) (shl b 8)) c)) at 4.
  rewrite <- (Z.shiftr_0_r (bor (bor (shl (a mod 256) 16) (shl b 8)) c)) at 4.
  fold (sar (bor (bor (shl a 16) (shl b 8)) c) 0).
  fold (sar (bor (bor (shl (a mod 256) 16) (shl b 8)) c) 0).
  rewrite (sextet_high_byte a b c 18), (sextet_high_byte a b c 12),
    (sextet_high_byte a b c 6), (sextet_high_byte a b c 0) by lia.
  reflexivity.
Qed.

Lemma base64_loop_free (rest : list Z) :
  forall len len' j,
    j + Z.of_nat (List.length rest) <= len ->
    j + Z.of_nat (List.length rest) <= len' ->
    base64_loop len j rest = base64_loop len' j rest.
Proof.
  induction rest as [|a|a b|a b c rest IH] using triple_ind;
    intros len len' j H H'; cbn [base64_loop List.length] in *.
  - reflexivity.
  - apply quad_free; lia.
  - apply quad_free; lia.
  - rewrite (quad_free len len' (j + 3) (j + 3)) by lia.
    f_equal. apply IH; lia.
Qed.

Lemma base64_loop_nul (rest : list Z) :
  forall len len' j,
    (List.length rest mod 3 <> 0)%nat ->
    j + Z.of_nat (List.length rest) <= len ->
    j + Z.of_nat (List.length rest) + 1 <= len' ->
    base64_loop len' j (rest ++ [0])%list = base64_loop len j rest.
Proof.
  induction rest as [|a|a b|a b c rest IH] using triple_ind;
    intros len len' j Hmod H H'; cbn [base64_loop List.length app] in *.
  - now contradiction Hmod.
  - apply quad_free; lia.
  - rewrite append_empty_r. apply quad_free; lia.
  - rewrite (quad_free len len' (j + 3) (j + 3)) by lia.
    f_equal. apply IH; try lia.
    intros E. apply Hmod.
    replace (S (S (S (List.length rest)))) with (List.length rest + 1 * 3)%nat by lia.
    now rewrite Nat.Div0.mod_add.
Qed.

End Base64Blind.

(** X12: what the fallback encoder cannot tell apart.  The high byte of the
    first code unit of a text is shifted out of the 24 bits that are read,
    so a code unit above 255 is encoded as its low byte; and since no
    padding is written, a text whose length is not a multiple of three and
    the same text followed by one NUL code unit get the same encoding. *)
Theorem base64_blind_spots :
  (forall a rest, manual_base64 (a :: rest) = manual_base64 ((a mod 256)%Z :: rest))
  /\ (forall text, List.length text mod 3 <> 0 ->
                   manual_base64 (text ++ [0%Z])%list = manual_base64 text).
Proof.
  split.
  - intros a rest. unfold manual_base64. cbn [List.length].
    destruct rest as [|b [|c rest]]; cbn [base64_loop];
      now rewrite quad_high_byte.
  - intros text Hmod. unfold manual_base64.
    apply base64_loop_nul; try assumption; try lia.
    rewrite length_app. cbn [List.length]. lia.
Qed.

Lemma base64_blind_spots_witness :
  manual_base64 [8364%Z] = manual_base64 [172%Z]
  /\ manual_base64 [93; 0]%Z = manual_base64 [93%Z].
Proof.
  split.
  - apply (proj1 base64_blind_spots 8364%Z []).
  - apply (proj2 base64_blind_spots [93%Z]). cbn. lia.
Defined.

(** ** The selection *)

Import Selection.

(** A float that compares equal to a finite non-zero float is that float. *)
Lemma SFeqb_finite (x : spec_float) (s : bool) (m : positive) (e : Z) :
  SFeqb x (S754_finite s m e) = true -> x = S754_finite s m e.
Proof.
  unfold SFeqb, SFcompare.
  destruct x as [sx | sx | | sx mx ex]; try discriminate.
  - destruct sx, s; discriminate.
  - destruct sx; discriminate.
  - destruct sx, s; try discriminate.
    + destruct (Z.compare ex e) eqn:He; try discriminate.
      apply Z.compare_eq in He. subst ex.
      destruct (CompOpp (Pos.compare_cont Eq mx m)) eqn:Hm; try discriminate.
      intros _. destruct (Pos.compare_cont Eq mx m) eqn:Hc; try discriminate.
      apply Pos.compare_eq in Hc. now subst.
    + destruct (Z.compare ex e) eqn:He; try discriminate.
      apply Z.compare_eq in He. subst ex.
      destruct (Pos.compare_cont Eq mx m) eqn:Hc; try discriminate.
      apply Pos.compare_eq in Hc. now subst.
Qed.

Lemma float_eqb_24 (w : float) : (w =? 24)%float = true -> w = 24%float.
Proof.
  intros H. rewrite FloatAxioms.eqb_spec in H.
  apply Prim2SF_inj.
  change (Prim2SF 24) with (S754_finite false 6755399441055744 (-48)) in *.
  now apply SFeqb_finite.
Qed.

Lemma exact_size_reasonable (node : SceneNode) :
  is24x24Frame node = true -> hasReasonableIconSize node = true.
Proof.
  unfold is24x24Frame, hasReasonableIconSize. intros H.
  apply andb_true_iff in H. destruct H as [Hw Hh].
  apply float_eqb_24 in Hw, Hh. rewrite Hw, Hh. reflexivity.
Qed.

Lemma hasVectorContent_types (node : SceneNode) :
  hasVectorContent node = true ->
  In (node_type node) ["VECTOR"; "BOOLEAN_OPERATION"; "FRAME"; "COMPONENT"; "INSTANCE"].
Proof.
  destruct node as [type name w h strokes kids]. cbn [hasVectorContent node_type].
  destruct (String.eqb_spec type "VECTOR") as [-> | _]; [intros _; now left|].
  destruct (String.eqb_spec type "BOOLEAN_OPERATION") as [-> | _];
    [intros _; right; now left|].
  unfold is_frame_type.
  destruct (String.eqb_spec type "FRAME") as [-> | _];
    [intros _; right; right; now left|].
  destruct (String.eqb_spec type "COMPONENT") as [-> | _];
    [intros _; right; right; right; now left|].
  destruct (String.eqb_spec type "INSTANCE") as [-> | _];
    [intros _; right; right; right; right; now left|].
  discriminate.
Qed.

Lemma icon_step_filter (iconNodes : list SceneNode) (node : SceneNode) :
  icon_step iconNodes node
  = (iconNodes
     ++ filter (fun n => hasVectorContent n && hasReasonableIconSize n) [node])%list.
Proof.
  unfold icon_step. cbn [filter].
  pose proof (exact_size_reasonable node) as H24.
  destruct (is24x24Frame node);
    [rewrite (H24 eq_refl) | destruct (hasReasonableIconSize node)];
    clear H24;
    destruct node as [type name w h strokes kids];
    cbn [node_type hasVectorContent];
    destruct (String.eqb type "VECTOR"), (String.eqb type "BOOLEAN_OPERATION"),
      (is_frame_type type);
    try (destruct kids as [kids|]; [destruct (existsb hasVectorContent kids)|]);
    cbn [andb]; rewrite ?app_nil_r; reflexivity.
Qed.

Lemma getIconNodes_from (nodes acc : list SceneNode) :
  fold_left icon_step nodes acc
  = (acc ++ filter (fun n => hasVectorContent n && hasReasonableIconSize n) nodes)%list.
Proof.
  revert acc. induction nodes as [|node nodes IH]; intros acc.
  - cbn. now rewrite app_nil_r.
  - cbn [fold_left]. rewrite IH, icon_step_filter. cbn [filter].
    destruct (hasVectorContent node && hasReasonableIconSize node);
      now rewrite <- app_assoc.
Qed.

(** X13: the four priorities of [getIconNodes] are one test.  The result
    is the selection filtered, in its order and without repetition, by
    [hasVectorContent] and [hasReasonableIconSize] together, because a node
    of exactly 24 by 24 is within the 12 to 48 bounds; so every node kept is
    a vector, a boolean operation, a frame, a component or an instance of
    the selection itself, never a line or a group, and has both dimensions
    between 12 and 48. *)
Theorem icon_nodes_filter (nodes : list SceneNode) :
  getIconNodes nodes
  = filter (fun node => hasVectorContent node && hasReasonableIconSize node) nodes
  /\ (forall node, In node (getIconNodes nodes) ->
        In node nodes
        /\ In (node_type node)
              ["VECTOR"; "BOOLEAN_OPERATION"; "FRAME"; "COMPONENT"; "INSTANCE"]
        /\ (12 <=? node_width node)%float = true
        /\ (node_width node <=? 48)%float = true
        /\ (12 <=? node_height node)%float = true
        /\ (node_height node <=? 48)%float = true).
Proof.
  assert (E : getIconNodes nodes
              = filter (fun node => hasVectorContent node && hasReasonableIconSize node)
                       nodes).
  { unfold getIconNodes. now rewrite getIconNodes_from. }
  split; [exact E|].
  intros node Hin. rewrite E in Hin. apply filter_In in Hin.
  destruct Hin as [Hin Hkeep]. apply andb_true_iff in Hkeep.
  destruct Hkeep as [Hvec Hsize].
  split; [exact Hin|]. split; [now apply hasVectorContent_types|].
  unfold hasReasonableIconSize in Hsize. cbv zeta in Hsize.
  apply andb_true_iff in Hsize. destruct Hsize as [Hsize H4].
  apply andb_true_iff in Hsize. destruct Hsize as [Hsize H3].
  apply andb_true_iff in Hsize. destruct Hsize as [H1 H2].
  auto.
Qed.

(** ** The analysis of a node and the flag of its icon *)

Lemma add_reason_facts (a : Analysis) (more alone : string) :
  alone <> EmptyString ->
  needsFlattening (add_reason a more alone) = true
  /\ flatteningReason (add_reason a more alone) <> EmptyString.
Proof.
  intros Halone. unfold add_reason. cbn [needsFlattening flatteningReason].
  split; [reflexivity|].
  destruct (flatteningReason a) as [|c r]; cbn [truthy]; [exact Halone | discriminate].
Qed.

Lemma frame_analysis_reason (kids : list SceneNode) :
  needsFlattening (frame_analysis kids) = true
  <-> flatteningReason (frame_analysis kids) <> EmptyString.
Proof.
  unfold frame_analysis. cbv zeta.
  destruct (existsb has_children kids).
  - match goal with |- context [add_reason ?a ?m ?al] =>
      destruct (add_reason_facts a m al) as [Hn Hr]; [discriminate|] end.
    rewrite Hn. split; [intros _; exact Hr | reflexivity].
  - destruct (1 <? _)%nat.
    + cbn. split; [discriminate | reflexivity].
    + destruct (filter _ kids) as [|single [|? ?]]; cbn;
        try (split; [discriminate | congruence]).
      destruct (String.eqb (node_type single) "VECTOR" && has_strokes single);
        [cbn; split; [discriminate | reflexivity]|].
      destruct (String.eqb (node_type single) "LINE" && has_strokes single);
        cbn; split; (discriminate || reflexivity || congruence).
Qed.

Lemma shape_analysis_reason (node : SceneNode) (r1 r2 : string) :
  r1 <> EmptyString -> r2 <> EmptyString ->
  needsFlattening (shape_analysis node r1 r2) = has_strokes node || has_children node
  /\ (needsFlattening (shape_analysis node r1 r2) = true
      <-> flatteningReason (shape_analysis node r1 r2) <> EmptyString).
Proof.
  intros H1 H2. unfold shape_analysis. cbv zeta.
  destruct (has_children node).
  - destruct (add_reason_facts (if has_strokes node then mkAnalysis true r1
                                else mkAnalysis false EmptyString)
                               "has children" r2 H2) as [Hn Hr].
    rewrite Hn, orb_true_r. split; [reflexivity|]. split; [intros _; exact Hr | reflexivity].
  - rewrite orb_false_r. destruct (has_strokes node); cbn.
    + split; [reflexivity|]. split; [intros _; exact H1 | reflexivity].
    + split; [reflexivity|]. split; [discriminate | congruence].
Qed.

(** X14: the analysis that precedes the flag of an icon.  It gives a
    reason exactly when it asks for flattening; it throws exactly for a
    frame, component or instance without a children list.  The override of
    the main thread never turns a false flag into a true one; for a vector,
    a boolean operation or a line it changes nothing, whatever the analysis
    says; for every other node the flag is the conjunction of what the icon
    processor says and of the analysis not asking for flattening.  A
    boolean operation with strokes and without children asks for flattening
    when it is selected itself, and does not when it is the only child of a
    frame. *)
Theorem flattening_gate :
  (forall node a,
      analyse node = Normal a ->
      (needsFlattening a = true <-> flatteningReason a <> EmptyString))
  /\ (forall node,
         (exists e, analyse node = Throw e)
         <-> is_frame_type (node_type node) = true /\ node_children node = None)
  /\ (forall node needs isSinglePath,
         overridden node needs isSinglePath = true -> isSinglePath = true)
  /\ (forall node needs isSinglePath,
         In (node_type node) ["VECTOR"; "BOOLEAN_OPERATION"; "LINE"] ->
         overridden node needs isSinglePath = isSinglePath)
  /\ (forall node needs isSinglePath,
         ~ In (node_type node) ["VECTOR"; "BOOLEAN_OPERATION"; "LINE"] ->
         overridden node needs isSinglePath = isSinglePath && negb needs)
  /\ (forall node,
         node_type node = "BOOLEAN_OPERATION" ->
         has_strokes node = true -> has_children node = false ->
         analyse node = Normal (mkAnalysis true "Boolean operation with strokes")
         /\ frame_analysis [node] = mkAnalysis false EmptyString).
Proof.
  refine (conj _ (conj _ (conj _ (conj _ (conj _ _))))).
  - intros node a. unfold analyse.
    destruct (is_frame_type (node_type node)).
    { destruct (node_children node) as [kids|]; [|discriminate].
      intros [= <-]. apply frame_analysis_reason. }
    destruct (String.eqb (node_type node) "VECTOR").
    { intros [= <-]. apply shape_analysis_reason; discriminate. }
    destruct (String.eqb (node_type node) "BOOLEAN_OPERATION").
    { intros [= <-]. apply shape_analysis_reason; discriminate. }
    destruct (String.eqb (node_type node) "LINE").
    { intros [= <-]. destruct (has_strokes node); cbn;
        split; (discriminate || reflexivity || congruence). }
    intros [= <-]. cbn. split; [discriminate | congruence].
  - intros node. unfold analyse.
    destruct (is_frame_type (node_type node)).
    + destruct (node_children node) as [kids|].
      * split; [intros [e He]; discriminate He | intros [_ H]; discriminate H].
      * split; [intros _; now split | intros _; now exists TypeError].
    + split; [|intros [H _]; discriminate H].
      intros [e He].
      destruct (String.eqb (node_type node) "VECTOR"); [discriminate He|].
      destruct (String.eqb (node_type node) "BOOLEAN_OPERATION"); [discriminate He|].
      destruct (String.eqb (node_type node) "LINE"); discriminate He.
  - intros node needs p. unfold overridden. cbv zeta.
    destruct needs, p; cbn [negb]; rewrite ?orb_true_r, ?orb_false_r;
      try reflexivity; try discriminate.
  - intros node needs p Hin. unfold overridden. cbv zeta.
    assert (E : String.eqb (node_type node) "VECTOR"
                || String.eqb (node_type node) "BOOLEAN_OPERATION"
                || String.eqb (node_type node) "LINE" = true).
    { destruct Hin as [<- | [<- | [<- | []]]]; reflexivity. }
    rewrite E. now destruct needs, p.
  - intros node needs p Hout. unfold overridden. cbv zeta.
    assert (E : String.eqb (node_type node) "VECTOR"
                || String.eqb (node_type node) "BOOLEAN_OPERATION"
                || String.eqb (node_type node) "LINE" = false).
    { apply not_true_is_false. intros E. apply Hout.
      apply orb_true_iff in E. destruct E as [E | E].
      - apply orb_true_iff in E. destruct E as [E | E];
          apply String.eqb_eq in E; rewrite E; [now left | right; now left].
      - apply String.eqb_eq in E. rewrite E. right; right; now left. }
    rewrite E. now destruct needs, p.
  - intros node Htype Hs Hc. split.
    + unfold analyse, shape_analysis. now rewrite Htype, Hs, Hc.
    + unfold frame_analysis. cbn [filter existsb]. rewrite Htype, Hc. cbn.
      now rewrite Htype.
Qed.

Lemma flattening_gate_witness :
  analyse busy_frame = Normal (mkAnalysis true "Multiple vector elements (2)")
  /\ (forall isSinglePath, overridden busy_frame true isSinglePath = false)
  /\ (forall isSinglePath, overridden stroked_vector true isSinglePath = isSinglePath).
Proof.
  destruct flattening_gate as [_ [_ [_ [Hsingle [Hframe _]]]]].
  split; [reflexivity|]. split.
  - intros p. rewrite (Hframe busy_frame true p).
    + apply andb_false_r.
    + cbn. intros [H | [H | [H | []]]]; discriminate H.
  - intros p. apply (Hsingle stroked_vector true p). now left.
Defined.

(** X15: [ReactIconRenderer] returns its error comment exactly when the
    name is not a string.  For a string name, whatever the markup, the
    result is a component file: it begins with the head of the template
    and not with the error comment. *)
Theorem renderer_outcomes (domParser : option DomParser) (svgContent iconName : JsValue) :
  match iconName with
  | JsString name =>
      (exists rest, ReactIconRenderer domParser svgContent iconName = code_head ++ rest)
      /\ startsWith (ReactIconRenderer domParser svgContent iconName)
                    "// Error processing icon" = false
  | _ => ReactIconRenderer domParser svgContent iconName
         = "// Error processing icon: " ++ ToString iconName
  end.
Proof.
  destruct iconName as [name| |]; [|reflexivity|reflexivity].
  assert (H : exists rest,
             ReactIconRenderer domParser svgContent (JsString name) = code_head ++ rest).
  { unfold ReactIconRenderer, processSvgToReact, processSvgToReact_try,
      processSvgToReact_catch, call_getComponentName.
    cbn [as_string bind].
    destruct (try_catch (dom_stage domParser svgContent)
                        (fun _ => text_stage svgContent)) as [ex | e];
      cbn [bind try_catch reactCode assemble].
    - unfold react_template. eexists. reflexivity.
    - unfold fallback_template. eexists. reflexivity. }
  split; [exact H|]. destruct H as [rest ->]. reflexivity.
Qed.

(** ** The alias field *)

Import Ui.

Lemma includes_char_iff (s : string) (d : ascii) :
  includes s (String d EmptyString) = true <-> In d (chars s).
Proof.
  induction s as [|c s IH].
  - cbn. split; [discriminate | intros []].
  - rewrite includes_char_cons, orb_true_iff, IH. unfold chars. cbn [list_ascii_of_string In].
    rewrite Ascii.eqb_eq. split; intros [H | H]; auto.
Qed.

Lemma split_clean (sep : ascii) (a : string) :
  includes a (String sep EmptyString) = false -> split sep a = [a].
Proof.
  induction a as [|c a IH]; intros H; [reflexivity|].
  rewrite includes_char_cons in H. apply orb_false_iff in H. destruct H as [Hc Ha].
  cbn [split]. rewrite Ascii.eqb_sym, Hc, (IH Ha). reflexivity.
Qed.

Lemma trimStart_shape (s : string) :
  trimStart s = EmptyString
  \/ exists c t, trimStart s = String c t /\ is_space c = false.
Proof.
  induction s as [|c s IH]; [now left|].
  cbn [trimStart]. destruct (is_space c) eqn:Hc; [exact IH|].
  right. now exists c, s.
Qed.

Lemma trimStart_kept (c : ascii) (t : string) :
  is_space c = false -> trimStart (String c t) = String c t.
Proof. intros H. cbn [trimStart]. now rewrite H. Qed.

Lemma trimStart_idem (s : string) : trimStart (trimStart s) = trimStart s.
Proof.
  destruct (trimStart_shape s) as [-> | [c [t [-> Hc]]]]; [reflexivity|].
  now apply trimStart_kept.
Qed.

Lemma trimStart_last (x : string) (c : ascii) :
  is_space c = false ->
  exists w, trimStart (x ++ String c EmptyString) = w ++ String c EmptyString.
Proof.
  intros Hc. induction x as [|d x IH].
  - exists EmptyString. cbn. now rewrite Hc.
  - cbn [append trimStart]. destruct (is_space d); [exact IH|].
    now exists (String d x).
Qed.

Lemma rev_string_acc (s acc : string) :
  rev_string acc s = rev_string EmptyString s ++ acc.
Proof.
  revert acc. induction s as [|c s IH]; intros acc; [reflexivity|].
  cbn [rev_string]. rewrite (IH (String c acc)), (IH (String c EmptyString)).
  now rewrite append_assoc.
Qed.

Lemma rev_string_involutive (s : string) :
  rev_string EmptyString (rev_string EmptyString s) = s.
Proof. rewrite rev_string_twice. cbn. apply append_empty_r. Qed.

Lemma trim_idem (s : string) : trim (trim s) = trim s.
Proof.
  unfold trim.
  destruct (trimStart_shape s) as [-> | [c [t [-> Hc]]]]; [reflexivity|].
  cbn [rev_string]. rewrite (rev_string_acc t).
  pose proof (trimStart_idem (rev_string EmptyString t ++ String c EmptyString)) as Hid.
  destruct (trimStart_last (rev_string EmptyString t) c Hc) as [w Hw].
  rewrite Hw in *. rewrite rev_string_snoc, (trimStart_kept c _ Hc).
  cbn [rev_string]. rewrite (rev_string_acc (rev_string EmptyString w)).
  rewrite rev_string_involutive, Hid, rev_string_snoc. reflexivity.
Qed.

Lemma trim_space (s : string) : trim (String " " s) = trim s.
Proof. reflexivity. Qed.

Lemma chars_trimStart (s : string) (d : ascii) :
  In d (chars (trimStart s)) -> In d (chars s).
Proof.
  induction s as [|c s IH]; [intros []|].
  cbn [trimStart]. destruct (is_space c); [|auto].
  intros H. right. now apply IH.
Qed.

Lemma chars_rev_string (s acc : string) (d : ascii) :
  In d (chars (rev_string acc s)) <-> In d (chars s) \/ In d (chars acc).
Proof.
  revert acc. induction s as [|c s IH]; intros acc.
  - cbn. tauto.
  - cbn [rev_string]. rewrite IH. unfold chars. cbn [list_ascii_of_string In]. tauto.
Qed.

Lemma trim_clean (s : string) (d : ascii) :
  includes s (String d EmptyString) = false ->
  includes (trim s) (String d EmptyString) = false.
Proof.
  intros H. apply not_true_is_false. intros Ht.
  apply includes_char_iff in Ht.
  assert (Hs : In d (chars s)).
  { unfold trim in Ht. apply chars_rev_string in Ht. destruct Ht as [Ht | []].
    apply chars_trimStart, chars_rev_string in Ht. destruct Ht as [Ht | []].
    now apply chars_trimStart. }
  apply includes_char_iff in Hs. congruence.
Qed.

Lemma aliases_lead_space (value : string) :
  handleAliasesChange (String " " value) = handleAliasesChange value.
Proof.
  unfold handleAliasesChange. cbn [split].
  change (Ascii.eqb " " ",") with false. cbv iota.
  destruct (split "," value) as [|p ps] eqn:Hs; [now apply split_nonempty in Hs|].
  cbn [map]. now rewrite trim_space.
Qed.

Lemma aliases_cons (a rest : string) :
  a <> EmptyString -> trim a = a -> includes a "," = false ->
  handleAliasesChange (a ++ ", " ++ rest) = a :: handleAliasesChange rest.
Proof.
  intros Hne Htrim Hclean.
  rewrite <- (aliases_lead_space rest). unfold handleAliasesChange.
  change (a ++ ", " ++ rest) with (a ++ String "," (String " " rest)).
  rewrite split_app_sep, (split_clean "," a Hclean).
  cbn [app map filter]. rewrite Htrim.
  destruct a; [contradiction | reflexivity].
Qed.

(** X16: the alias field round trip.  Aliases that are not empty, that
    are their own trim and that hold no comma are read back unchanged from
    the text the field shows for them; what [handleAliasesChange] returns
    is always of that kind; so the description written for the aliases it
    returned reads back as the same aliases. *)
Theorem alias_round_trip :
  (forall aliases,
      Forall (fun a => a <> EmptyString /\ trim a = a /\ includes a "," = false) aliases ->
      handleAliasesChange (aliasesText aliases) = aliases)
  /\ (forall value,
         Forall (fun a => a <> EmptyString /\ trim a = a /\ includes a "," = false)
                (handleAliasesChange value))
  /\ (forall value,
         handleAliasesChange (aliasesText (handleAliasesChange value))
         = handleAliasesChange value).
Proof.
  assert (Hback : forall aliases,
             Forall (fun a => a <> EmptyString /\ trim a = a /\ includes a "," = false)
                    aliases ->
             handleAliasesChange (aliasesText aliases) = aliases).
  { induction aliases as [|a aliases IH]; intros Hall; [reflexivity|].
    inversion Hall as [|? ? [Hne [Htrim Hclean]] Hrest]; subst.
    destruct aliases as [|b aliases].
    - unfold aliasesText, handleAliasesChange. cbn [join].
      rewrite (split_clean "," a Hclean). cbn [map filter]. rewrite Htrim.
      destruct a; [contradiction | reflexivity].
    - unfold aliasesText.
      change (join ", " (a :: b :: aliases)) with (a ++ ", " ++ join ", " (b :: aliases)).
      rewrite (aliases_cons a _ Hne Htrim Hclean). f_equal. now apply IH. }
  assert (Hclean : forall value,
             Forall (fun a => a <> EmptyString /\ trim a = a /\ includes a "," = false)
                    (handleAliasesChange value)).
  { intros value. unfold handleAliasesChange. apply Forall_forall.
    intros a Ha. apply filter_In in Ha. destruct Ha as [Ha Htruthy].
    apply in_map_iff in Ha. destruct Ha as [p [<- Hp]].
    pose proof (split_pieces_clean "," value) as Hpieces.
    rewrite Forall_forall in Hpieces.
    split; [|split].
    - intros E. rewrite E in Htruthy. discriminate Htruthy.
    - apply trim_idem.
    - apply trim_clean. now apply Hpieces. }
  split; [exact Hback|]. split; [exact Hclean|].
  intros value. apply Hback, Hclean.
Qed.

Lemma alias_round_trip_witness :
  handleAliasesChange "arrow, right arrow" = ["arrow"; "right arrow"].
Proof.
  apply (proj1 alias_round_trip ["arrow"; "right arrow"]).
  repeat constructor; discriminate.
Defined.

(** ** The counters of the sending loop *)

Section TallyFacts.
Context {Icon : Type}.
Variable estimatedSize : Icon -> N.
Variable send : list Icon -> Outcome.
Local Open Scope list_scope.

Lemma tally_fold_total (cs : list (list Icon)) :
  forall t,
    successCount (fold_left (tally_step estimatedSize send) cs t)
    + errorCount (fold_left (tally_step estimatedSize send) cs t)
    = successCount t + errorCount t + List.length (concat cs).
Proof.
  induction cs as [|c cs IH]; intros t; [cbn; lia|].
  cbn [fold_left concat]. rewrite IH, length_app. unfold tally_step.
  destruct (too_large estimatedSize c); [cbn; lia|].
  destruct (send c); cbn; lia.
Qed.

Lemma tally_fold_success (cs : list (list Icon)) :
  Forall (fun c => c <> []) cs ->
  forall t,
    0 < successCount (fold_left (tally_step estimatedSize send) cs t)
    <-> 0 < successCount t
        \/ exists c, In c cs /\ too_large estimatedSize c = false /\ send c = Accepted.
Proof.
  induction cs as [|c cs IH]; intros Hne t.
  - cbn. split; [now left | intros [H | [c [[] _]]]; exact H].
  - inversion Hne as [|? ? Hc Hrest]; subst.
    cbn [fold_left]. rewrite (IH Hrest). unfold tally_step.
    assert (Hlen : 0 < List.length c) by (destruct c; [contradiction | cbn; lia]).
    destruct (too_large estimatedSize c) eqn:Hl; [|destruct (send c) eqn:Hs];
      cbn [successCount]; split.
    all: try (intros [H | [d [Hin Hd]]];
              [now left | right; exists d; split; [now right | exact Hd]]).
    all: try (intros [H | [d [[<- | Hin] [Hd1 Hd2]]]];
              [now left | congruence | right; exists d; auto]).
    + intros _. right. exists c. split; [now left | auto].
    + intros _. left. lia.
Qed.

(** X17: every icon is counted once: when the loop over the chunks is
    over, the two counters add up to the number of icons, whatever the
    network answers; and the success event is emitted exactly when some
    chunk passed the size check and was accepted. *)
Theorem tally_accounts_all (icons : list Icon) :
  let t := processIconsInChunks estimatedSize send icons in
  successCount t + errorCount t = List.length icons
  /\ (shows_success t = true
      <-> exists chunk, In chunk (make_chunks estimatedSize icons)
                        /\ too_large estimatedSize chunk = false
                        /\ send chunk = Accepted).
Proof.
  cbv zeta. unfold processIconsInChunks, shows_success.
  destruct (make_chunks_facts estimatedSize icons) as [Hcat [Hne _]].
  split.
  - rewrite tally_fold_total, Hcat. cbn. lia.
  - rewrite Nat.ltb_lt, (tally_fold_success _ Hne). cbn [successCount].
    split; [intros [H | H]; [lia | exact H] | intros H; now right].
Qed.

End TallyFacts.
